(** * Channel router and UTXO sweeper: a shallow embedding

  This development embeds the parts of [routing/router.go] and
  [sweep/sweeper.go] that the properties at the end of the file talk
  about, and proves (or refutes) those properties.

  Layout: the Go runtime notions that the code relies on (machine
  integers, errors, panics), then the router, then the sweeper, and only
  after all definitions the lemmas. *)

From Stdlib Require Import ZArith String List Lia Sorted.
From stdpp Require Import base gmap list fin_maps fin_sets.
Import ListNotations.
Local Open Scope Z_scope.

(* ===================================================================== *)
(** * Go runtime notions *)
(* ===================================================================== *)

Module Go.

(** Fixed-width integers are carried as [Z]; every operation that can
    leave the range is followed by the wrap-around of its type. *)
Definition uint16 (z : Z) : Z := z mod 2 ^ 16.
Definition uint32 (z : Z) : Z := z mod 2 ^ 32.
Definition uint64 (z : Z) : Z := z mod 2 ^ 64.
Definition int32 (z : Z) : Z := (z + 2 ^ 31) mod 2 ^ 32 - 2 ^ 31.
Definition int64 (z : Z) : Z := (z + 2 ^ 63) mod 2 ^ 64 - 2 ^ 63.

(** Wire failure reported by a hop ([htlcswitch.ForwardingError]): the
    vertex that produced it and the failure message. *)
Record ForwardingError := {
  ErrorSource : Z;
  FailureMessage : nat
}.

(** Error codes of [routing.newErrf]. *)
Inductive errorCode :=
| ErrIgnored
| ErrOutdated
| ErrTargetNotInNetwork.

(** Values of Go's [error] interface that occur in the two files.
    [ErrSentinel] is a package-level [errors.New] value that callers
    compare by identity ([lnwallet.ErrDoubleSpend], [ErrRemoteSpend],
    ...); [ErrFmt] is an error built at the return site by
    [errors.New], [fmt.Errorf] or [errors.Errorf] (the formatted
    arguments are dropped, the constant prefix is kept). *)
Inductive error :=
| ErrSentinel (name : string)
| ErrFmt (msg : string)
| ErrRouter (code : errorCode)
| ErrNoRoute (lastError : option ForwardingError)
| ErrForwarding (fe : ForwardingError).

(** A Go [(value, error)] pair of which exactly one side is used. *)
Inductive result (A : Type) :=
| Ok (a : A)
| Err (e : error).
Arguments Ok {A} a.
Arguments Err {A} e.

(** Either the call returns, or it panics (index out of range, nil
    dereference, a panic raised by a library). *)
Inductive outcome (A : Type) :=
| Returns (a : A)
| Panics (why : string).
Arguments Returns {A} a.
Arguments Panics {A} why.

Definition obind {A B} (m : outcome A) (k : A -> outcome B) : outcome B :=
  match m with
  | Returns a => k a
  | Panics why => Panics why
  end.

#[global] Instance error_eq_dec : EqDecision error.
Proof. unfold EqDecision, Decision. repeat decide equality. Defined.

End Go.
Import Go.

Notation "x <-! m ; k" := (obind m (fun x => k))
(at level 100, m at next level, right associativity, only parsing).

(* ===================================================================== *)
(** * Bitcoin wire types shared by both packages *)
(* ===================================================================== *)

Module Wire.

Definition Hash := Z.
Definition Script := list Z.

Record OutPoint := { opHash : Hash; opIndex : Z }.

#[global] Instance OutPoint_eq_dec : EqDecision OutPoint.
Proof. solve_decision. Defined.

#[global] Instance OutPoint_countable : Countable OutPoint.
Proof.
  refine (inj_countable' (fun o => (opHash o, opIndex o))
                         (fun p => {| opHash := fst p; opIndex := snd p |}) _).
  intros []; reflexivity.
Defined.

Record TxIn := { PreviousOutPoint : OutPoint }.
Record TxOut := { Value : Z; PkScript : Script }.
Record MsgTx := {
  txIn : list TxIn;
  txOut : list TxOut;
  LockTime : Z
}.
Record MsgBlock := { Transactions : list MsgTx }.

End Wire.
Import Wire.

(* ===================================================================== *)
(** * The channel router ([routing/router.go]) *)
(* ===================================================================== *)

Module Routing.

(** ** Time

    A [time.Time] is the instant it denotes, in nanoseconds since the
    Unix epoch; a [time.Duration] is a number of nanoseconds.
    [time.Since t] is [now - t] for the reading [now] of the clock taken
    by the call (the saturation of [Time.Sub] at the ends of the int64
    range, 292 years, is left out). *)
Definition Before (t u : Z) : bool := t <? u.
Definition Since (now t : Z) : Z := now - t.

(** The zero [time.Time] (January 1, year 1, 00:00 UTC), which the graph
    store reports for a policy it does not have. *)
Definition zeroTime : Z := -62135596800 * 10 ^ 9.

(** ** Channel identifiers and policies *)

Record ShortChannelID := {
  BlockHeight : Z;   (* uint32, 24 bits used *)
  TxIndex : Z;       (* uint32, 24 bits used *)
  TxPosition : Z     (* uint16 *)
}.

(** Modelled from the spec: [lnwire.ShortChannelID.ToUint64] (package
    lnwire is not part of these sources); 64 bits = 24-bit block height,
    24-bit tx-index, 16-bit output-index. *)
Definition ToUint64 (c : ShortChannelID) : Z :=
  Z.lor (Z.lor (Z.shiftl (BlockHeight c) 40) (Z.shiftl (TxIndex c) 16))
        (TxPosition c).

(** Modelled from the spec: the two bits of [lnwire.ChanUpdateChanFlags]
    that the router inspects, the direction bit (bit 0: 0 = policy of
    node1, 1 = policy of node2) and the disabled bit (bit 1). *)
Definition ChanUpdateDirection : Z := 1.
Definition ChanUpdateDisabled : Z := 2.

(** [channeldb.ChannelEdgePolicy]: the fields the router reads, and the
    forwarding parameters it stores. *)
Record ChannelEdgePolicy := {
  ChannelID : Z;
  LastUpdate : Z;
  MessageFlags : Z;
  ChannelFlags : Z;
  TimeLockDelta : Z;
  MinHTLC : Z;
  MaxHTLC : Z;
  FeeBaseMSat : Z;
  FeeProportionalMillionths : Z
}.

(** [channeldb.ChannelEdgeInfo], as far as block pruning reports it. *)
Record ChannelEdgeInfo := {
  infoChannelID : Z;
  ChannelPoint : OutPoint;
  Capacity : Z
}.

(** ** The graph store

    What [Graph.HasChannelEdge] hands back:
    [(edge1Timestamp, edge2Timestamp, exists, isZombie, err)]. *)
Record HasChannelEdgeResult := {
  edge1Timestamp : Z;
  edge2Timestamp : Z;
  exists_ : bool;
  isZombie : bool;
  hceErr : option error
}.

(** Modelled from the spec: the graph store (package channeldb is not
    part of these sources), as the interface of the operations the router
    calls on [r.cfg.Graph] in the code below. Every operation is atomic:
    one that fails leaves the store as it was. *)
Class GraphStore (G : Type) := {
  HasChannelEdge : G -> Z -> HasChannelEdgeResult;
  UpdateEdgePolicy : G -> ChannelEdgePolicy -> result G;
  PruneGraph : G -> list OutPoint -> Hash -> Z ->
               result (list ChannelEdgeInfo * G)
}.

Definition ErrGraphNoEdgesFound : error := ErrSentinel "no graph edges exist".

(** ** Router configuration and state *)

Record Config := {
  ChannelPruneExpiry : Z;
  AssumeChannelValid : bool
}.

(** Calls that leave the router, in the order they are made. *)
Inductive event :=
| EvLogError (msg : string)
| EvPruneGraph (spent : list OutPoint) (hash : Hash) (height : Z)
| EvNotifyTopologyChange (height : Z) (closed : list ChannelEdgeInfo).

Record ChannelRouter (G : Type) := {
  bestHeight : Z;      (* uint32, used atomically *)
  cfg : Config;
  graph : G            (* cfg.Graph *)
}.
Arguments bestHeight {G} _.
Arguments cfg {G} _.
Arguments graph {G} _.

(** [chainview.FilteredBlock]. *)
Record FilteredBlock := {
  fbHash : Hash;
  fbHeight : Z;       (* uint32 *)
  fbTransactions : list MsgTx
}.

Section Router.
Context {G : Type} `{GraphStore G}.

(** ** processUpdate, the [*channeldb.ChannelEdgePolicy] arm
    (router.go 1226-1303).

    The per-channel mutex taken on entry makes the arm atomic with
    respect to other updates of the same channel, so it is a function of
    the store. [now] is the clock reading of [time.Since]. Returns the
    error ([None] for nil) and the store afterwards. *)
Definition processUpdate (r : ChannelRouter G) (now : Z)
    (msg : ChannelEdgePolicy) : option error * G :=
  let g := graph r in
  let res := HasChannelEdge g (ChannelID msg) in
  if match hceErr res with
     | Some e => negb (bool_decide (e = ErrGraphNoEdgesFound))
     | None => false
     end
  then (Some (ErrFmt "unable to check for edge existence"), g)
  else
    let isStaleUpdate :=
      ChannelPruneExpiry (cfg r) <? Since now (LastUpdate msg) in
    if isZombie res && isStaleUpdate
    then (Some (ErrRouter ErrIgnored), g)
    else if negb (exists_ res)
    then (Some (ErrRouter ErrIgnored), g)
    else
      let direction := Z.land (ChannelFlags msg) ChanUpdateDirection in
      let outdated :=
        if direction =? 0
        then negb (Before (edge1Timestamp res) (LastUpdate msg))
        else if direction =? 1
        then negb (Before (edge2Timestamp res) (LastUpdate msg))
        else false in
      if outdated
      then (Some (ErrRouter ErrOutdated), g)
      else
        match UpdateEdgePolicy g msg with
        | Err _ => (Some (ErrFmt "unable to add channel"), g)
        | Ok g' => (None, g')
        end.

(** ** IsStaleEdgePolicy (router.go 2253-2304) *)
Definition IsStaleEdgePolicy (r : ChannelRouter G) (now : Z)
    (chanID : ShortChannelID) (timestamp : Z) (flags : Z) : bool :=
  let res := HasChannelEdge (graph r) (ToUint64 chanID) in
  match hceErr res with
  | Some _ => false
  | None =>
    if isZombie res then
      if AssumeChannelValid (cfg r)
         && (Z.land flags ChanUpdateDisabled =? ChanUpdateDisabled)
      then true
      else ChannelPruneExpiry (cfg r) <? Since now timestamp
    else if negb (exists_ res) then false
    else if Z.land flags ChanUpdateDirection =? 0
    then negb (Before (edge1Timestamp res) timestamp)
    else if Z.land flags ChanUpdateDirection =? 1
    then negb (Before (edge2Timestamp res) timestamp)
    else false
  end.

(** ** networkHandler, the arm [case chainUpdate, ok := <-r.newBlocks]
    (router.go 944-1006), for a block that was received ([ok] true).
    Returns the router afterwards and the calls made, in order. *)
Definition networkHandler_newBlock (r : ChannelRouter G)
    (chainUpdate : FilteredBlock) : ChannelRouter G * list event :=
  let currentHeight := bestHeight r in
  if negb (fbHeight chainUpdate =? uint32 (currentHeight + 1))
  then (r, [EvLogError "out of order block"])
  else
    let blockHeight := uint32 (fbHeight chainUpdate) in
    let spentOutputs :=
      flat_map (fun tx => map PreviousOutPoint (txIn tx))
               (fbTransactions chainUpdate) in
    let pruneCall :=
      EvPruneGraph spentOutputs (fbHash chainUpdate) (fbHeight chainUpdate) in
    match PruneGraph (graph r) spentOutputs (fbHash chainUpdate)
                     (fbHeight chainUpdate) with
    | Err _ =>
      ({| bestHeight := blockHeight; cfg := cfg r; graph := graph r |},
       [pruneCall; EvLogError "unable to prune routing table"])
    | Ok (chansClosed, g') =>
      let r' := {| bestHeight := blockHeight; cfg := cfg r; graph := g' |} in
      if (length chansClosed =? 0)%nat
      then (r', [pruneCall])
      else (r', [pruneCall; EvNotifyTopologyChange blockHeight chansClosed])
    end.

End Router.

(** ** fetchChanPoint (router.go 1318-1353) *)

(** The two calls made on [r.cfg.Chain]. *)
Record BlockChainIO := {
  GetBlockHash : Z -> result Hash;
  GetBlock : Hash -> result MsgBlock
}.

Section FetchChanPoint.
(** [wire.MsgTx.TxHash]. *)
Variable TxHash : MsgTx -> Hash.

(** A Go slice index [s[i]] panics when [i] is not below [len(s)]; the
    lookup [!!] returns [None] exactly then. *)
Definition fetchChanPoint (chain : BlockChainIO) (chanID : ShortChannelID)
    : outcome (result (OutPoint * TxOut)) :=
  let blockNum := BlockHeight chanID in
  match GetBlockHash chain blockNum with
  | Err e => Returns (Err e)
  | Ok blockHash =>
    match GetBlock chain blockHash with
    | Err e => Returns (Err e)
    | Ok fundingBlock =>
      let numTxns := uint32 (Z.of_nat (length (Transactions fundingBlock))) in
      if uint32 (numTxns - 1) <? TxIndex chanID
      then Returns (Err (ErrFmt "tx_index is out of range"))
      else
        match Transactions fundingBlock !! Z.to_nat (TxIndex chanID) with
        | None => Panics "index out of range"
        | Some fundingTx =>
          let outPoint := {| opHash := TxHash fundingTx;
                             opIndex := uint32 (TxPosition chanID) |} in
          match txOut fundingTx !! Z.to_nat (TxPosition chanID) with
          | None => Panics "index out of range"
          | Some txOut => Returns (Ok (outPoint, txOut))
          end
        end
    end
  end.

End FetchChanPoint.

(** ** SendToRoute (router.go 1643-1697) and sendPayment (1715-1760) *)

Definition Preimage := Z.
Definition zeroPreimage : Preimage := 0.

(** Modelled from the spec: a route (package route is not part of these
    sources) carries its total amount and its total fees. *)
Record Route := {
  TotalAmount : Z;   (* lnwire.MilliSatoshi, uint64 *)
  TotalFees : Z
}.

Record PaymentCreationInfo := {
  pciPaymentHash : Hash;
  pciValue : Z;
  pciCreationDate : Z;
  pciPaymentRequest : option (list Z)
}.

Record LightningPayment := {
  PaymentHash : Hash;
  FinalCLTVDelta : Z;
  PayAttemptTimeout : Z
}.

Record paymentLifecycle (Sess Att : Type) := {
  plPayment : LightningPayment;
  plPaySession : Sess;
  plCurrentHeight : Z;
  plFinalCLTVDelta : Z;
  plAttempt : option Att;
  plLastError : option error;
  plTimeoutChan : option Z
}.
Arguments Build_paymentLifecycle {Sess Att}.

Section SendToRoute.
(** [W] is the state of the collaborators (control tower, switch, chain
    backend), [Sess] the type of payment sessions, [Att] the type of
    attempt records. The four calls that leave [router.go]: *)
Context {W Sess Att : Type}.
Variable NewPaymentSessionForRoute : Route -> Sess.
Variable InitPayment : W -> Hash -> PaymentCreationInfo -> option error * W.
Variable GetBestBlock : W -> result (Hash * Z).
Variable resumePayment :
  W -> paymentLifecycle Sess Att ->
  (Preimage * option Route * option error) * W.

Definition sendPayment (w : W) (existingAttempt : option Att)
    (payment : LightningPayment) (paySession : Sess)
    : (Preimage * option Route * option error) * W :=
  match GetBestBlock w with
  | Err e => ((zeroPreimage, None, Some e), w)
  | Ok (_, currentHeight) =>
    let p := {| plPayment := payment;
                plPaySession := paySession;
                plCurrentHeight := currentHeight;
                plFinalCLTVDelta := uint16 (FinalCLTVDelta payment);
                plAttempt := existingAttempt;
                plLastError := None;
                plTimeoutChan :=
                  if PayAttemptTimeout payment =? 0 then None
                  else Some (PayAttemptTimeout payment) |} in
    resumePayment w p
  end.

(** [now] is the reading of [time.Now()]. The type assertion
    [err.(errNoRoute)] succeeds exactly on the [ErrNoRoute] values. *)
Definition SendToRoute (w : W) (now : Z) (hash : Hash) (route : Route)
    : (Preimage * option error) * W :=
  let paySession := NewPaymentSessionForRoute route in
  let amt := uint64 (TotalAmount route - TotalFees route) in
  let info := {| pciPaymentHash := hash;
                 pciValue := amt;
                 pciCreationDate := now;
                 pciPaymentRequest := None |} in
  match InitPayment w hash info with
  | (Some err, w1) => ((zeroPreimage, Some err), w1)
  | (None, w1) =>
    let payment := {| PaymentHash := hash;
                      FinalCLTVDelta := 0;
                      PayAttemptTimeout := 0 |} in
    match sendPayment w1 None payment paySession with
    | ((preimage, _, Some err), w2) =>
      match err with
      | ErrNoRoute None =>
        ((zeroPreimage, Some (ErrFmt "failure message missing")), w2)
      | ErrNoRoute (Some lastError) =>
        ((zeroPreimage, Some (ErrForwarding lastError)), w2)
      | _ => ((zeroPreimage, Some err), w2)
      end
    | ((preimage, _, None), w2) => ((preimage, None), w2)
    end
  end.

End SendToRoute.

(** ** An in-memory graph store

    Modelled from the spec: a channel is either live or a zombie, the
    zombies being indexed separately; for each (channel-id, direction) at
    most one policy; pruning closes every channel whose funding outpoint
    appears among the spent outpoints and moves the prune tip. Used to
    run the router on concrete graphs. *)
Record memEdge := {
  meInfo : ChannelEdgeInfo;
  mePolicy1 : option ChannelEdgePolicy;
  mePolicy2 : option ChannelEdgePolicy
}.

Record memGraph := {
  edgeIndex : gmap Z memEdge;
  zombieIndex : gset Z;
  pruneTip : Hash * Z
}.

Definition policyTime (p : option ChannelEdgePolicy) : Z :=
  match p with
  | Some p => LastUpdate p
  | None => zeroTime
  end.

Definition memHasChannelEdge (g : memGraph) (chanID : Z)
    : HasChannelEdgeResult :=
  match edgeIndex g !! chanID with
  | Some e =>
    {| edge1Timestamp := policyTime (mePolicy1 e);
       edge2Timestamp := policyTime (mePolicy2 e);
       exists_ := true; isZombie := false; hceErr := None |}
  | None =>
    {| edge1Timestamp := zeroTime; edge2Timestamp := zeroTime;
       exists_ := false;
       isZombie := bool_decide (chanID ∈ zombieIndex g);
       hceErr := None |}
  end.

Definition memUpdateEdgePolicy (g : memGraph) (p : ChannelEdgePolicy)
    : result memGraph :=
  match edgeIndex g !! ChannelID p with
  | None => Err (ErrSentinel "edge not found")
  | Some e =>
    let e' :=
      if Z.land (ChannelFlags p) ChanUpdateDirection =? 0
      then {| meInfo := meInfo e; mePolicy1 := Some p;
              mePolicy2 := mePolicy2 e |}
      else {| meInfo := meInfo e; mePolicy1 := mePolicy1 e;
              mePolicy2 := Some p |} in
    Ok {| edgeIndex := <[ChannelID p := e']> (edgeIndex g);
          zombieIndex := zombieIndex g;
          pruneTip := pruneTip g |}
  end.

Definition isSpent (spent : list OutPoint) (e : memEdge) : bool :=
  bool_decide (ChannelPoint (meInfo e) ∈ spent).

Definition memPruneGraph (g : memGraph) (spent : list OutPoint)
    (hash : Hash) (height : Z) : result (list ChannelEdgeInfo * memGraph) :=
  let closed := filter (fun kv => isSpent spent kv.2 = true)
                       (map_to_list (edgeIndex g)) in
  Ok (map (fun kv => meInfo kv.2) closed,
      {| edgeIndex := filter (fun kv => isSpent spent kv.2 = false)
                             (edgeIndex g);
         zombieIndex := zombieIndex g;
         pruneTip := (hash, height) |}).

#[global] Instance memGraph_store : GraphStore memGraph := {
  HasChannelEdge := memHasChannelEdge;
  UpdateEdgePolicy := memUpdateEdgePolicy;
  PruneGraph := memPruneGraph
}.

End Routing.

(* ===================================================================== *)
(** * The UTXO sweeper ([sweep/sweeper.go]) *)
(* ===================================================================== *)

Module Sweep.

Definition DefaultMaxFeeRate : Z := 250 * 10 ^ 4.
Definition DefaultFeeRateBucketSize : Z := 10.
Definition DefaultMaxSweepAttempts : Z := 10.

Definition ErrRemoteSpend : error := ErrSentinel "remote party swept utxo".
Definition ErrTooManyAttempts : error :=
  ErrSentinel "sweep failed after max attempts".
Definition ErrSweeperShuttingDown : error :=
  ErrSentinel "utxo sweeper shutting down".
(** [lnwallet.ErrDoubleSpend]. *)
Definition ErrDoubleSpend : error := ErrSentinel "double spend".

(** ** Randomness

    The process-global source of [math/rand] is an unbounded sequence of
    raw draws. [rand.Int31n n] panics when [n <= 0] and otherwise returns
    a number in [[0, n)] and moves the source on. *)
Definition RNG := nat -> Z.

Definition Int31n (n : Z) (g : RNG) : outcome (Z * RNG) :=
  if n <=? 0 then Panics "invalid argument to Int31n"
  else Returns (g 0%nat mod n, fun i => g (S i)).

(** ** Data *)

(** Modelled from the spec: a fee preference is either an absolute fee
    rate in sat/kw or a confirmation target that the fee estimator
    translates. *)
Record FeePreference := {
  ConfTarget : Z;
  FeeRate : Z
}.

Record SignDescriptor := { Output : TxOut }.

(** The methods of the interface [input.Input] that the sweeper calls.
    [OutPoint()] and [SignDesc()] return pointers, [None] being nil. *)
Record Input := {
  inOutPoint : option OutPoint;
  inSignDesc : option SignDescriptor;
  inWitnessType : Z;
  inBlocksToMaturity : Z;
  inHeightHint : Z
}.

Record Result := {
  resErr : option error;
  resTx : option MsgTx
}.

(** A [chan Result] is known by its identity. *)
Definition ResultChan := nat.

Record pendingInput := {
  listeners : list ResultChan;
  input : Input;
  ntfnRegCancel : option nat;
  minPublishHeight : Z;      (* int32 *)
  publishAttempts : Z;       (* int *)
  feePreference : FeePreference;
  lastFeeRate : Z            (* lnwallet.SatPerKWeight, int64 *)
}.

(** [pendingInputs = map[wire.OutPoint]*pendingInput]. The sweeper's map
    is the only place where the [pendingInput] objects live, so a
    [*pendingInput] held anywhere else (in a cluster) is represented by
    its outpoint. *)
Record inputCluster := {
  sweepFeeRate : Z;
  inputs : gset OutPoint
}.

Record sweepInputMessage := {
  simInput : Input;
  simFeePreference : FeePreference;
  simResultChan : ResultChan
}.

(** [UtxoSweeperConfig], the fields that the code below reads. A
    function-valued field stands for what the dependency answers during
    the call under study. *)
Record UtxoSweeperConfig := {
  GenSweepScript : result (option Script);
  PublishTransaction : MsgTx -> option error;
  StoreNotifyPublishTx : MsgTx -> option error;   (* Store.NotifyPublishTx *)
  MaxInputsPerTx : Z;
  MaxSweepAttempts : Z;
  NextAttemptDeltaFunc : Z -> RNG -> outcome (Z * RNG);
  MaxFeeRate : Z;
  FeeRateBucketSize : Z
}.

(** [UtxoSweeper], the fields that the code below reads or writes. The
    unbuffered channel [newInputs] is the list of the messages that were
    handed to the main loop. *)
Record UtxoSweeper := {
  cfg : UtxoSweeperConfig;
  newInputs : list sweepInputMessage;
  pendingInputs : gmap OutPoint pendingInput;
  currentOutputScript : option Script;
  relayFeeRate : Z
}.

(** Calls that leave the sweeper, in the order they are made. *)
Inductive event :=
| EvGenSweepScript
| EvNotifyPublishTx (tx : MsgTx) (err : option error)
| EvPublishTransaction (tx : MsgTx)
| EvResult (listener : ResultChan) (res : Result)   (* resultChan <- result *)
| EvCancelSpendNtfn (handle : nat).

(** What lies outside the sweeper. Modelled from the spec: the sweeper
    store keeps the hashes of the transactions passed to
    [NotifyPublishTx] (package file store.go is not part of these
    sources). *)
Record World := {
  storeTxs : list Hash;
  rng : RNG;
  trace : list event
}.

Definition log (evs : list event) (w : World) : World :=
  {| storeTxs := storeTxs w; rng := rng w; trace := trace w ++ evs |}.

Definition recordTx (h : Hash) (w : World) : World :=
  {| storeTxs := storeTxs w ++ [h]; rng := rng w; trace := trace w |}.

Definition setRng (g : RNG) (w : World) : World :=
  {| storeTxs := storeTxs w; rng := g; trace := trace w |}.

Definition setPending (s : UtxoSweeper) (m : gmap OutPoint pendingInput)
    : UtxoSweeper :=
  {| cfg := cfg s; newInputs := newInputs s; pendingInputs := m;
     currentOutputScript := currentOutputScript s;
     relayFeeRate := relayFeeRate s |}.

Definition setScript (s : UtxoSweeper) (sc : option Script) : UtxoSweeper :=
  {| cfg := cfg s; newInputs := newInputs s;
     pendingInputs := pendingInputs s;
     currentOutputScript := sc;
     relayFeeRate := relayFeeRate s |}.

(** ** DefaultNextAttemptDeltaFunc (sweeper.go 1020-1022)

    [1 + rand.Int31n(1<<uint(attempts-1))]: the untyped constant 1 takes
    the type int32 of the parameter of [Int31n], the shift count is a
    uint (64 bits), and a shift by 32 or more yields 0. *)
Definition DefaultNextAttemptDeltaFunc (attempts : Z) (g : RNG)
    : outcome (Z * RNG) :=
  let count := uint64 (attempts - 1) in
  let n := if 32 <=? count then 0 else int32 (Z.shiftl 1 count) in
  r <-! Int31n n g;
  Returns (int32 (1 + r.1), r.2).

Section Sweeper.
(** [wire.MsgTx.TxHash], [sweep.DetermineFeePerKw] applied to
    [s.cfg.FeeEstimator], and [sweep.createSweepTx] (applied to
    [s.cfg.Signer]) live outside [sweeper.go]. *)
Variable TxHash : MsgTx -> Hash.
Variable DetermineFeePerKw : FeePreference -> result Z.
Variable createSweepTx :
  list Input -> option Script -> Z -> Z -> result MsgTx.

(** ** feeRateForPreference (sweeper.go 394-411) *)
Definition feeRateForPreference (s : UtxoSweeper)
    (feePreference : FeePreference) : result Z :=
  match DetermineFeePerKw feePreference with
  | Err e => Err e
  | Ok feeRate =>
    if feeRate <? relayFeeRate s
    then Err (ErrFmt "fee preference resulted in invalid fee rate, mininum")
    else if MaxFeeRate (cfg s) <? feeRate
    then Err (ErrFmt "fee preference resulted in invalid fee rate, maximum")
    else Ok feeRate
  end.

(** ** SweepInput (sweeper.go 359-390)

    [fresh] is the channel made by [make(chan Result, 1)]; [sel] is the
    arm of the [select] that fires. *)
Inductive selectArm := SendNewInput | QuitClosed.

Definition SweepInput (s : UtxoSweeper) (input : option Input)
    (feePreference : FeePreference) (fresh : ResultChan) (sel : selectArm)
    : result ResultChan * UtxoSweeper :=
  match input with
  | None => (Err (ErrFmt "nil input received"), s)
  | Some inp =>
    match inOutPoint inp, inSignDesc inp with
    | Some _, Some _ =>
      match feeRateForPreference s feePreference with
      | Err e => (Err e, s)
      | Ok _ =>
        let sweeperInput := {| simInput := inp;
                               simFeePreference := feePreference;
                               simResultChan := fresh |} in
        match sel with
        | SendNewInput =>
          (Ok fresh,
           {| cfg := cfg s;
              newInputs := newInputs s ++ [sweeperInput];
              pendingInputs := pendingInputs s;
              currentOutputScript := currentOutputScript s;
              relayFeeRate := relayFeeRate s |})
        | QuitClosed => (Err ErrSweeperShuttingDown, s)
        end
      end
    | _, _ => (Err (ErrFmt "nil input received"), s)
    end
  end.

(** ** bucketForFeeRate (sweeper.go 603-610)

    [math.Ceil(float64(feeRate) / float64(minBucket))] is the ceiling of
    the exact quotient whenever [minBucket] is positive and both operands
    are below 2^26 (the conversions are exact and the rounded quotient
    of a non-integral ratio stays strictly between its two neighbouring
    integers); fee rates are bounded by [MaxFeeRate], 2.5e6 by default.
    The definition is that exact ceiling. *)
Definition ceilDiv (a b : Z) : Z := - ((- a) / b).

Definition bucketForFeeRate (s : UtxoSweeper) (feeRate : Z) : Z :=
  let minBucket := int64 (relayFeeRate s + int64 (FeeRateBucketSize (cfg s))) in
  ceilDiv feeRate minBucket.

(** ** clusterBySweepFeeRate (sweeper.go 616-657) *)

Definition setLastFeeRate (pi : pendingInput) (feeRate : Z) : pendingInput :=
  {| listeners := listeners pi; input := input pi;
     ntfnRegCancel := ntfnRegCancel pi;
     minPublishHeight := minPublishHeight pi;
     publishAttempts := publishAttempts pi;
     feePreference := feePreference pi;
     lastFeeRate := feeRate |}.

(** The state of the first loop: [bucketInputs], [inputFeeRates] and the
    pending inputs (whose [lastFeeRate] the loop writes). *)
Definition clusterAcc : Type :=
  gmap Z (gset OutPoint) * gmap OutPoint Z * gmap OutPoint pendingInput.

(** One iteration of [for op, input := range s.pendingInputs]. *)
Definition clusterStep (s : UtxoSweeper) (op : OutPoint)
    (input : pendingInput) (acc : clusterAcc) : clusterAcc :=
  let '(bucketInputs, inputFeeRates, pend) := acc in
  match feeRateForPreference s (feePreference input) with
  | Err _ => acc
  | Ok feeRate =>
    let bucket := bucketForFeeRate s feeRate in
    let inputs := default ∅ (bucketInputs !! bucket) in
    (<[bucket := {[op]} ∪ inputs]> bucketInputs,
     <[op := feeRate]> inputFeeRates,
     <[op := setLastFeeRate input feeRate]> pend)
  end.

(** The body of the second loop: the sum of the fee rates of a bucket
    (int64 additions), divided by the number of its inputs (Go's integer
    division truncates; a bucket is never empty). *)
Definition averageFeeRate (inputFeeRates : gmap OutPoint Z)
    (inputs : gset OutPoint) : Z :=
  let sum := set_fold (fun op acc =>
                         int64 (acc + default 0 (inputFeeRates !! op)))
                      0 inputs in
  Z.quot sum (Z.of_nat (size inputs)).

(** Go iterates over a map in an unspecified order; the order of
    [map_fold] and [map_to_list] is one of the possible ones, and the set
    of clusters does not depend on it. Returns the clusters and the
    sweeper with the [lastFeeRate] fields written. *)
Definition clusterBySweepFeeRate (s : UtxoSweeper)
    : list inputCluster * UtxoSweeper :=
  let '(bucketInputs, inputFeeRates, pend) :=
    map_fold (clusterStep s) (∅, ∅, pendingInputs s) (pendingInputs s) in
  (map (fun kv => {| sweepFeeRate := averageFeeRate inputFeeRates kv.2;
                     inputs := kv.2 |})
       (map_to_list bucketInputs),
   setPending s pend).

(** ** signalAndRemove (sweeper.go 704-734)

    [s.pendingInputs[*outpoint]] is nil for an outpoint that is not
    pending, and reading [pendInput.listeners] then panics. *)
Definition signalAndRemove (s : UtxoSweeper) (w : World)
    (outpoint : OutPoint) (result : Result) : outcome (UtxoSweeper * World) :=
  match pendingInputs s !! outpoint with
  | None => Panics "nil pointer dereference"
  | Some pendInput =>
    let w1 := log (map (fun resultChan => EvResult resultChan result)
                       (listeners pendInput)) w in
    let w2 := match ntfnRegCancel pendInput with
              | Some cancel => log [EvCancelSpendNtfn cancel] w1
              | None => w1
              end in
    Returns (setPending s (delete outpoint (pendingInputs s)), w2)
  end.

(** ** sweep (sweeper.go 803-894) *)

Definition recordAttempt (pi : pendingInput) (attempts height : Z)
    : pendingInput :=
  {| listeners := listeners pi; input := input pi;
     ntfnRegCancel := ntfnRegCancel pi;
     minPublishHeight := height;
     publishAttempts := attempts;
     feePreference := feePreference pi;
     lastFeeRate := lastFeeRate pi |}.

(** The loop [for _, input := range tx.TxIn] that reschedules the inputs
    (sweeper.go 858-891). Go's [int] has 64 bits. The world is returned
    also when the loop panics, as it is at that moment. *)
Fixpoint reschedule (ins : list TxIn) (currentHeight : Z)
    (s : UtxoSweeper) (w : World) : World * outcome UtxoSweeper :=
  match ins with
  | [] => (w, Returns s)
  | input :: rest =>
    let op := PreviousOutPoint input in
    match pendingInputs s !! op with
    | None => reschedule rest currentHeight s w
    | Some pi =>
      let attempts := int64 (publishAttempts pi + 1) in
      match NextAttemptDeltaFunc (cfg s) attempts (rng w) with
      | Panics why => (w, Panics why)
      | Returns (nextAttemptDelta, g') =>
        let pi' := recordAttempt pi attempts
                     (int32 (currentHeight + nextAttemptDelta)) in
        let s1 := setPending s (<[op := pi']> (pendingInputs s)) in
        let w1 := setRng g' w in
        if MaxSweepAttempts (cfg s) <=? attempts
        then
          match signalAndRemove s1 w1 op
                  {| resErr := Some ErrTooManyAttempts; resTx := None |} with
          | Panics why => (w1, Panics why)
          | Returns (s2, w2) => reschedule rest currentHeight s2 w2
          end
        else reschedule rest currentHeight s1 w1
      end
    end
  end.

(** Returns the world afterwards and, unless the call panics, the error
    ([None] for nil) and the sweeper afterwards. The store holds the hash
    from the moment [NotifyPublishTx] has answered without error. *)
Definition sweep (s : UtxoSweeper) (w : World) (inputs : list Input)
    (feeRate : Z) (currentHeight : Z)
    : World * outcome (option error * UtxoSweeper) :=
  let generated :=
    match currentOutputScript s with
    | None => (GenSweepScript (cfg s), log [EvGenSweepScript] w)
    | Some pkScript => (Ok (Some pkScript), w)
    end in
  match generated with
  | (Err _, w0) => (w0, Returns (Some (ErrFmt "gen sweep script"), s))
  | (Ok pkScript, w0) =>
    let s1 := setScript s pkScript in
    match createSweepTx inputs (currentOutputScript s1)
                        (uint32 currentHeight) feeRate with
    | Err _ => (w0, Returns (Some (ErrFmt "create sweep tx"), s1))
    | Ok tx =>
      let notified := StoreNotifyPublishTx (cfg s) tx in
      let w1 := log [EvNotifyPublishTx tx notified] w0 in
      match notified with
      | Some _ => (w1, Returns (Some (ErrFmt "notify publish tx"), s1))
      | None =>
        let w2 := log [EvPublishTransaction tx] (recordTx (TxHash tx) w1) in
        let err := PublishTransaction (cfg s) tx in
        if match err with
           | Some e => negb (bool_decide (e = ErrDoubleSpend))
           | None => false
           end
        then (w2, Returns (Some (ErrFmt "publish tx"), s1))
        else
          let s2 := match err with
                    | None => setScript s1 None
                    | Some _ => s1
                    end in
          match reschedule (txIn tx) currentHeight s2 w2 with
          | (w3, Panics why) => (w3, Panics why)
          | (w3, Returns s3) => (w3, Returns (None, s3))
          end
      end
    end
  end.

End Sweeper.

End Sweep.

(* ===================================================================== *)
(** * Runs of the router, and concrete routers to run it on *)
(* ===================================================================== *)

Module RoutingRuns.
Import Routing.

Section Runs.
Context {G : Type} `{GraphStore G}.

(** The direction bit of a policy, and the timestamp the store holds for
    one direction of a channel. *)
Definition direction (msg : ChannelEdgePolicy) : Z :=
  Z.land (ChannelFlags msg) ChanUpdateDirection.

Definition storedTimestamp (g : G) (chanID : Z) (d : Z) : Z :=
  if d =? 0 then edge1Timestamp (HasChannelEdge g chanID)
  else edge2Timestamp (HasChannelEdge g chanID).

Definition withGraph (r : ChannelRouter G) (g : G) : ChannelRouter G :=
  {| bestHeight := bestHeight r; cfg := cfg r; graph := g |}.

(** A sequence of policy updates, each processed at its own clock
    reading, one after the other; every update is paired with the error
    [processUpdate] returned for it. *)
Fixpoint processUpdates (r : ChannelRouter G)
    (updates : list (Z * ChannelEdgePolicy))
    : list (ChannelEdgePolicy * option error) * ChannelRouter G :=
  match updates with
  | [] => ([], r)
  | (now, msg) :: rest =>
    let '(err, g') := processUpdate r now msg in
    let '(results, r') := processUpdates (withGraph r g') rest in
    ((msg, err) :: results, r')
  end.

(** The timestamps of the updates of one (channel, direction) pair that
    a run answered with [answer]. *)
Definition timestampsAnswered (answer : option error) (chanID d : Z)
    (results : list (ChannelEdgePolicy * option error)) : list Z :=
  map (fun res => LastUpdate res.1)
      (filter (fun res => ChannelID res.1 = chanID /\ direction res.1 = d
                          /\ res.2 = answer) results).

End Runs.

(** Fourteen days, in nanoseconds. *)
Definition DefaultChannelPruneExpiry : Z := 14 * 24 * 3600 * 10 ^ 9.

Definition defaultConfig : Config :=
  {| ChannelPruneExpiry := DefaultChannelPruneExpiry;
     AssumeChannelValid := false |}.

Definition policyAt (chanID t flags : Z) : ChannelEdgePolicy :=
  {| ChannelID := chanID; LastUpdate := t; MessageFlags := 0;
     ChannelFlags := flags; TimeLockDelta := 40; MinHTLC := 1;
     MaxHTLC := 1000000; FeeBaseMSat := 1000;
     FeeProportionalMillionths := 1 |}.

(** Channel 7 (block 0, transaction 0, output 7). *)
Definition chan7 : ShortChannelID :=
  {| BlockHeight := 0; TxIndex := 0; TxPosition := 7 |}.

Definition fundingOf7 : OutPoint := {| opHash := 77; opIndex := 7 |}.

(** A graph in which channel 7 is live and node1's policy carries
    timestamp 100. *)
Definition liveGraph : memGraph :=
  {| edgeIndex :=
       {[ 7 := {| meInfo := {| infoChannelID := 7;
                               ChannelPoint := fundingOf7;
                               Capacity := 50000 |};
                  mePolicy1 := Some (policyAt 7 100 0);
                  mePolicy2 := None |} ]};
     zombieIndex := ∅;
     pruneTip := (0, 100) |}.

(** A graph in which channel 7 is a zombie. *)
Definition zombieGraph : memGraph :=
  {| edgeIndex := ∅; zombieIndex := {[ 7 ]}; pruneTip := (0, 100) |}.

Definition routerOn (g : memGraph) : ChannelRouter memGraph :=
  {| bestHeight := 100; cfg := defaultConfig; graph := g |}.

(** A store whose reply for every channel is "exists, is a zombie",
    with both policies at timestamp 100: the other shape a reply with
    the zombie flag can take. *)
Definition flaggedStore : GraphStore unit :=
  {| HasChannelEdge := fun _ _ =>
       {| edge1Timestamp := 100; edge2Timestamp := 100;
          exists_ := true; isZombie := true; hceErr := None |};
     UpdateEdgePolicy := fun g _ => Ok g;
     PruneGraph := fun g _ _ _ => Ok ([], g) |}.

Definition flaggedRouter : ChannelRouter unit :=
  {| bestHeight := 100; cfg := defaultConfig; graph := tt |}.

(** A block at [height] that spends the funding output of channel 7. *)
Definition blockSpending7 (height : Z) : FilteredBlock :=
  {| fbHash := 500 + height; fbHeight := height;
     fbTransactions :=
       [ {| txIn := [ {| PreviousOutPoint := fundingOf7 |} ];
            txOut := [ {| Value := 49000; PkScript := [0; 20] |} ];
            LockTime := 0 |} ] |}.

(** A chain whose every block holds one transaction with one output,
    and a chain whose blocks are empty. *)
Definition oneTxBlock : MsgBlock :=
  {| Transactions :=
       [ {| txIn := []; txOut := [ {| Value := 50000; PkScript := [0; 32] |} ];
            LockTime := 0 |} ] |}.

Definition oneTxChain : BlockChainIO :=
  {| GetBlockHash := fun h => Ok (1000 + h);
     GetBlock := fun _ => Ok oneTxBlock |}.

Definition emptyBlockChain : BlockChainIO :=
  {| GetBlockHash := fun h => Ok (1000 + h);
     GetBlock := fun _ => Ok {| Transactions := [] |} |}.

Definition sampleTxHash (tx : MsgTx) : Hash :=
  Z.of_nat (length (txIn tx)) + 2 * Z.of_nat (length (txOut tx)).

(** Collaborators of [SendToRoute] for which the single attempt fails
    with the wire failure [lastError] (or with none recorded). *)
Definition sampleFailure : ForwardingError :=
  {| ErrorSource := 3; FailureMessage := 15%nat |}.

Definition failingLifecycle (lastError : option ForwardingError)
    (w : unit) (p : paymentLifecycle unit unit)
    : (Preimage * option Route * option error) * unit :=
  ((zeroPreimage, None, Some (ErrNoRoute lastError)), w).

Definition sampleRoute : Route := {| TotalAmount := 1010; TotalFees := 10 |}.

Definition sendToSampleRoute (lastError : option ForwardingError)
    : (Preimage * option error) * unit :=
  SendToRoute (fun _ => tt) (fun w _ _ => (None, w))
              (fun _ => Ok (0, 100)) (failingLifecycle lastError)
              tt 0 42 sampleRoute.

End RoutingRuns.

(* ===================================================================== *)
(** * Traces of the sweeper, and concrete sweepers to run it on *)
(* ===================================================================== *)

Module SweepRuns.
Import Sweep.

(** The outpoints spent by a transaction. *)
Definition outpoints (tx : MsgTx) : list OutPoint :=
  map PreviousOutPoint (txIn tx).

(** In a sequence of calls, every [PublishTransaction tx] comes after a
    [NotifyPublishTx tx] that the store answered without error. *)
Definition notifiedBeforePublished (evs : list event) : Prop :=
  forall pre tx post,
    evs = pre ++ EvPublishTransaction tx :: post ->
    In (EvNotifyPublishTx tx None) pre.

Definition isPublish (e : event) : bool :=
  match e with
  | EvPublishTransaction _ => true
  | _ => false
  end.

(** The script the sweeper builds the transaction with: the cached one,
    or else the one [GenSweepScript] hands out. *)
Definition scriptInUse (s : UtxoSweeper) : option Script :=
  match currentOutputScript s with
  | Some pkScript => Some pkScript
  | None =>
    match GenSweepScript (cfg s) with
    | Ok pkScript => pkScript
    | Err _ => None
    end
  end.

(** A fee preference that carries an absolute fee rate translates to
    that rate. *)
Definition absoluteFeeRate (p : FeePreference) : result Z :=
  if FeeRate p =? 0 then Err (ErrFmt "no fee preference specified")
  else Ok (FeeRate p).

Definition preferRate (rate : Z) : FeePreference :=
  {| ConfTarget := 0; FeeRate := rate |}.

Definition opA : OutPoint := {| opHash := 1; opIndex := 0 |}.
Definition opB : OutPoint := {| opHash := 2; opIndex := 0 |}.

Definition inputFor (op : OutPoint) : Input :=
  {| inOutPoint := Some op;
     inSignDesc :=
       Some {| Output := {| Value := 10000; PkScript := [0; 20] |} |};
     inWitnessType := 0; inBlocksToMaturity := 0; inHeightHint := 90 |}.

(** A pending input that was never published, with one listener. *)
Definition pendingAt (op : OutPoint) (rate : Z) (listener : ResultChan)
    : pendingInput :=
  {| listeners := [listener]; input := inputFor op;
     ntfnRegCancel := Some listener;
     minPublishHeight := 100; publishAttempts := 0;
     feePreference := preferRate rate; lastFeeRate := 0 |}.

Definition twoInputs (rateA rateB : Z) : gmap OutPoint pendingInput :=
  {[ opA := pendingAt opA rateA 1%nat; opB := pendingAt opB rateB 2%nat ]}.

(** A configuration with the default delta function whose publisher
    answers [publish] and whose store answers without error. *)
Definition cfgWith (publish : option error) (maxAttempts bucketSize : Z)
    : UtxoSweeperConfig :=
  {| GenSweepScript := Ok (Some [0; 20; 7]);
     PublishTransaction := fun _ => publish;
     StoreNotifyPublishTx := fun _ => None;
     MaxInputsPerTx := 100;
     MaxSweepAttempts := maxAttempts;
     NextAttemptDeltaFunc := DefaultNextAttemptDeltaFunc;
     MaxFeeRate := DefaultMaxFeeRate;
     FeeRateBucketSize := bucketSize |}.

Definition sweeperWith (c : UtxoSweeperConfig) (relay : Z)
    (pending : gmap OutPoint pendingInput) : UtxoSweeper :=
  {| cfg := c; newInputs := []; pendingInputs := pending;
     currentOutputScript := None; relayFeeRate := relay |}.

(** A transaction builder that spends exactly the inputs it is given. *)
Definition spendAll (ins : list Input) (pkScript : option Script)
    (lockTime feeRate : Z) : result MsgTx :=
  Ok {| txIn := flat_map (fun i => match inOutPoint i with
                                   | Some op => [ {| PreviousOutPoint := op |} ]
                                   | None => []
                                   end) ins;
        txOut := [ {| Value := 19000; PkScript := default [] pkScript |} ];
        LockTime := lockTime |}.

Definition hashOfTx (tx : MsgTx) : Hash :=
  LockTime tx + Z.of_nat (length (txIn tx)).

Definition world0 : World :=
  {| storeTxs := []; rng := fun _ => 5; trace := [] |}.

(** The sweeper with the inputs [opA] and [opB] (fee rates 10 and 12,
    relay fee rate 5, at most 3 attempts) whose publisher answers
    [publish], and its sweep of both inputs at height 100. *)
Definition sweeperAnswering (publish : option error) : UtxoSweeper :=
  sweeperWith (cfgWith publish 3 10) 5 (twoInputs 10 12).

Definition sweepBoth (publish : option error)
    : World * outcome (option error * UtxoSweeper) :=
  sweep hashOfTx spendAll (sweeperAnswering publish) world0
        [inputFor opA; inputFor opB] 11 100.

(** The same sweeper with at most 1 attempt and a publisher that
    accepts: the first publication of an input is its last. *)
Definition lastAttempt : UtxoSweeper :=
  sweeperWith (cfgWith None 1 10) 5 (twoInputs 10 12).

(** The error a run returned, if it returned. *)
Definition returnedError (o : outcome (option error * UtxoSweeper))
    : option (option error) :=
  match o with
  | Returns (err, _) => Some err
  | Panics _ => None
  end.

(** The sweeper a run returned (the initial one if the run panicked). *)
Definition sweeperAfter (publish : option error) : UtxoSweeper :=
  match (sweepBoth publish).2 with
  | Returns (_, s') => s'
  | Panics _ => sweeperAnswering publish
  end.

End SweepRuns.

(* ===================================================================== *)
(** * The main loop of the sweeper ([sweep/sweeper.go], collector) *)
(* ===================================================================== *)

Module Collector.
Import Sweep.

(** The sweeper together with its field [timer]: [None] is the nil
    channel (no batch timer is running), a running timer is known by the
    identity of its channel. *)
Record timedSweeper := {
  sweeper : UtxoSweeper;
  timer : option nat
}.

Definition setSweeper (st : timedSweeper) (s : UtxoSweeper) : timedSweeper :=
  {| sweeper := s; timer := timer st |}.

(** [chainntnfs.SpendDetail], the fields the loop reads; [None] is a nil
    pointer. *)
Record SpendDetail := {
  SpentOutPoint : option OutPoint;
  SpenderTxHash : option Hash;
  SpendingTx : option MsgTx
}.

(** What the main loop receives on [s.newInputs], on [s.spendChan]
    (together with the error of the store's read, if it fails) and on
    [blockEpochs]. *)
Inductive loopEvent :=
| NewInput (msg : sweepInputMessage)
| Spend (storeFailure : option error) (spend : SpendDetail)
| BlockEpoch (height : Z).

(** The exported view of a pending input ([sweep.PendingInput]). *)
Record PendingInput := {
  piOutPoint : OutPoint;
  piWitnessType : Z;
  piAmount : Z;
  piLastFeeRate : Z;
  piBroadcastAttempts : Z;
  piNextBroadcastHeight : Z      (* uint32 *)
}.

(** Modelled from the spec: [Store.IsOurTx] answers whether the hash was
    handed to [NotifyPublishTx] before; [failure] is the error of the
    database read, if it fails. *)
Definition IsOurTx (failure : option error) (w : World) (h : Hash)
    : result bool :=
  match failure with
  | Some e => Err e
  | None => Ok (bool_decide (h ∈ storeTxs w))
  end.

(** The results that were sent on result channels, in the order of the
    sends. *)
Definition deliveries (evs : list event) : list (ResultChan * Result) :=
  omap (fun e => match e with
                 | EvResult listener res => Some (listener, res)
                 | _ => None
                 end) evs.

(** An event that tells a listener or the notifier about the end of an
    input. *)
Definition isSignal (e : event) : bool :=
  match e with
  | EvResult _ _ | EvCancelSpendNtfn _ => true
  | _ => false
  end.

(** The spend notifications that were cancelled. *)
Definition cancellations (evs : list event) : list nat :=
  omap (fun e => match e with
                 | EvCancelSpendNtfn handle => Some handle
                 | _ => None
                 end) evs.

Section Loop.
(** [sweep.DetermineFeePerKw] and [sweep.generateInputPartitionings]
    live outside [sweeper.go]; [RegisterSpendNtfn] is the answer of
    [s.cfg.Notifier] (the cancel function is known by a handle) and
    [NewBatchTimer] the channel that [s.cfg.NewBatchTimer()] hands out. *)
Variable DetermineFeePerKw : FeePreference -> result Z.
Variable generateInputPartitionings :
  list Input -> Z -> Z -> Z -> result (list (list Input)).
Variable RegisterSpendNtfn : OutPoint -> Script -> Z -> result nat.
Variable NewBatchTimer : nat.

(** ** waitForSpend (sweeper.go 898-935)

    The goroutine that forwards the notification to [spendChan] runs
    beside the loop; the call itself registers and returns the cancel
    function. *)
Definition waitForSpend (outpoint : OutPoint) (script : Script)
    (heightHint : Z) : result nat :=
  match RegisterSpendNtfn outpoint script heightHint with
  | Err _ => Err (ErrFmt "register spend ntfn")
  | Ok cancel => Ok cancel
  end.

(** ** getInputLists (sweeper.go 741-799)

    A cluster holds pointers to pending inputs; they are looked up in
    the sweeper's map, where the objects of a cluster that was just
    computed live. *)

(** One iteration of [for _, input := range cluster.inputs], on the
    pair [(newInputs, retryInputs)]. *)
Definition sortInput (currentHeight : Z) (acc : list Input * list Input)
    (pi : pendingInput) : list Input * list Input :=
  if currentHeight <? minPublishHeight pi then acc
  else if publishAttempts pi =? 0 then (acc.1 ++ [input pi], acc.2)
  else (acc.1, acc.2 ++ [input pi]).

Definition clusterInputs (s : UtxoSweeper) (cluster : inputCluster)
    : list pendingInput :=
  omap (fun op => pendingInputs s !! op) (elements (inputs cluster)).

Definition getInputLists (s : UtxoSweeper) (cluster : inputCluster)
    (currentHeight : Z) : result (list (list Input)) :=
  let '(newInputs, retryInputs) :=
    fold_left (sortInput currentHeight) (clusterInputs s cluster) ([], []) in
  let allSets :=
    match retryInputs with
    | [] => Ok []
    | _ :: _ =>
      generateInputPartitionings (retryInputs ++ newInputs) (relayFeeRate s)
        (sweepFeeRate cluster) (MaxInputsPerTx (cfg s))
    end in
  match allSets with
  | Err _ => Err (ErrFmt "input partitionings")
  | Ok allSets =>
    match generateInputPartitionings newInputs (relayFeeRate s)
            (sweepFeeRate cluster) (MaxInputsPerTx (cfg s)) with
    | Err _ => Err (ErrFmt "input partitionings")
    | Ok newSets => Ok (allSets ++ newSets)
    end
  end.

(** ** scheduleSweep (sweeper.go 661-698) *)

(** The loop over the clusters: whether the timer is to be started. *)
Fixpoint startTimer (s : UtxoSweeper) (currentHeight : Z)
    (clusters : list inputCluster) : result bool :=
  match clusters with
  | [] => Ok false
  | cluster :: rest =>
    match getInputLists s cluster currentHeight with
    | Err _ => Err (ErrFmt "get input lists")
    | Ok inputLists =>
      match inputLists with
      | [] => startTimer s currentHeight rest
      | _ :: _ => Ok true
      end
    end
  end.

Definition scheduleSweep (st : timedSweeper) (currentHeight : Z)
    : option error * timedSweeper :=
  match timer st with
  | Some _ => (None, st)
  | None =>
    let '(clusters, s1) :=
      clusterBySweepFeeRate DetermineFeePerKw (sweeper st) in
    match startTimer s1 currentHeight clusters with
    | Err e => (Some e, setSweeper st s1)
    | Ok false => (None, setSweeper st s1)
    | Ok true => (None, {| sweeper := s1; timer := Some NewBatchTimer |})
    end
  end.

(** ** collector (sweeper.go 415-599), one arm of the [select] at a time

    Every arm takes the loop's variable [bestHeight]; an error of
    [scheduleSweep] is logged and dropped. *)

Definition addListener (pi : pendingInput) (resultChan : ResultChan)
    : pendingInput :=
  {| listeners := listeners pi ++ [resultChan]; input := input pi;
     ntfnRegCancel := ntfnRegCancel pi;
     minPublishHeight := minPublishHeight pi;
     publishAttempts := publishAttempts pi;
     feePreference := feePreference pi;
     lastFeeRate := lastFeeRate pi |}.

Definition setCancel (pi : pendingInput) (cancel : nat) : pendingInput :=
  {| listeners := listeners pi; input := input pi;
     ntfnRegCancel := Some cancel;
     minPublishHeight := minPublishHeight pi;
     publishAttempts := publishAttempts pi;
     feePreference := feePreference pi;
     lastFeeRate := lastFeeRate pi |}.

(** [case input := <-s.newInputs] (sweeper.go 423-468) for the message
    that was received. *)
Definition collector_newInput (st : timedSweeper) (w : World)
    (bestHeight : Z) (msg : sweepInputMessage)
    : outcome (timedSweeper * World) :=
  let s := sweeper st in
  match inOutPoint (simInput msg) with
  | None => Panics "nil pointer dereference"
  | Some outpoint =>
    match pendingInputs s !! outpoint with
    | Some pendInput =>
      Returns
        (setSweeper st
           (setPending s (<[outpoint := addListener pendInput
                                          (simResultChan msg)]>
                            (pendingInputs s))), w)
    | None =>
      let pendInput :=
        {| listeners := [simResultChan msg]; input := simInput msg;
           ntfnRegCancel := None;
           minPublishHeight := bestHeight;
           publishAttempts := 0;
           feePreference := simFeePreference msg;
           lastFeeRate := 0 |} in
      let s1 := setPending s (<[outpoint := pendInput]> (pendingInputs s)) in
      match inSignDesc (simInput msg) with
      | None => Panics "nil pointer dereference"
      | Some signDesc =>
        match waitForSpend outpoint (PkScript (Output signDesc))
                (inHeightHint (simInput msg)) with
        | Err _ =>
          r <-! signalAndRemove s1 w outpoint
                  {| resErr := Some (ErrFmt "wait for spend");
                     resTx := None |};
          Returns (setSweeper st r.1, r.2)
        | Ok cancel =>
          let s2 := setPending s1 (<[outpoint := setCancel pendInput cancel]>
                                     (pendingInputs s1)) in
          Returns ((scheduleSweep (setSweeper st s2) bestHeight).2, w)
        end
      end
    end
  end.


(** The loop [for _, txIn := range spend.SpendingTx.TxIn]
    (sweeper.go 498-522). *)
Fixpoint signalSpent (ins : list TxIn) (res : Result) (s : UtxoSweeper)
    (w : World) : outcome (UtxoSweeper * World) :=
  match ins with
  | [] => Returns (s, w)
  | txIn :: rest =>
    let outpoint := PreviousOutPoint txIn in
    match pendingInputs s !! outpoint with
    | None => signalSpent rest res s w
    | Some _ =>
      r <-! signalAndRemove s w outpoint res;
      signalSpent rest res r.1 r.2
    end
  end.

(** [case spend := <-s.spendChan] (sweeper.go 472-528); [testSpendChan]
    is nil outside the tests. *)
Definition collector_spend (st : timedSweeper) (w : World)
    (bestHeight : Z) (storeFailure : option error) (spend : SpendDetail)
    : outcome (timedSweeper * World) :=
  match SpenderTxHash spend with
  | None => Panics "nil pointer dereference"
  | Some spendHash =>
    match IsOurTx storeFailure w spendHash with
    | Err _ => Returns (st, w)
    | Ok isOurTx =>
      match SpendingTx spend with
      | None => Panics "nil pointer dereference"
      | Some tx =>
        let err := if isOurTx then None else Some ErrRemoteSpend in
        r <-! signalSpent (txIn tx) {| resErr := err; resTx := Some tx |}
                (sweeper st) w;
        Returns ((scheduleSweep (setSweeper st r.1) bestHeight).2, r.2)
      end
    end
  end.

(** [case epoch, ok := <-blockEpochs] (sweeper.go 581-593): [None] is
    the closed channel, on which the loop returns; otherwise the new
    best height is the epoch's. Returns the state, the best height and
    whether the loop goes on. *)
Definition collector_blockEpoch (st : timedSweeper) (bestHeight : Z)
    (epoch : option Z) : timedSweeper * Z * bool :=
  match epoch with
  | None => (st, bestHeight, false)
  | Some height => ((scheduleSweep st height).2, height, true)
  end.

(** ** handlePendingSweepsReq (sweeper.go 959-980) *)
Definition exportInput (pi : pendingInput)
    (acc : outcome (gmap OutPoint PendingInput))
    : outcome (gmap OutPoint PendingInput) :=
  m <-! acc;
  match inOutPoint (input pi), inSignDesc (input pi) with
  | Some op, Some signDesc =>
    Returns (<[op := {| piOutPoint := op;
                        piWitnessType := inWitnessType (input pi);
                        piAmount := Value (Output signDesc);
                        piLastFeeRate := lastFeeRate pi;
                        piBroadcastAttempts := publishAttempts pi;
                        piNextBroadcastHeight :=
                          uint32 (minPublishHeight pi) |}]> m)
  | _, _ => Panics "nil pointer dereference"
  end.

Definition handlePendingSweepsReq (s : UtxoSweeper)
    : outcome (gmap OutPoint PendingInput) :=
  map_fold (fun _ pi acc => exportInput pi acc) (Returns ∅)
           (pendingInputs s).

(** The loop on a sequence of received messages and notifications (the
    arms of the requests for the pending inputs, of the timer and of
    [quit] left aside); returns the sweeper, the world and the best
    height. *)
Fixpoint collector_run (evs : list loopEvent) (st : timedSweeper)
    (w : World) (bestHeight : Z) : outcome (timedSweeper * World * Z) :=
  match evs with
  | [] => Returns (st, w, bestHeight)
  | NewInput msg :: rest =>
    r <-! collector_newInput st w bestHeight msg;
    collector_run rest r.1 r.2 bestHeight
  | Spend storeFailure spend :: rest =>
    r <-! collector_spend st w bestHeight storeFailure spend;
    collector_run rest r.1 r.2 bestHeight
  | BlockEpoch height :: rest =>
    let r := collector_blockEpoch st bestHeight (Some height) in
    collector_run rest r.1.1 w r.1.2
  end.

End Loop.

(** An input whose [OutPoint()] and [SignDesc()] are not nil. *)
Definition validInput (i : Input) : Prop :=
  inOutPoint i <> None /\ inSignDesc i <> None.

(** Every pending input is filed under the outpoint it spends and has a
    sign descriptor. *)
Definition filedByOutPoint (s : UtxoSweeper) : Prop :=
  forall op pi,
    pendingInputs s !! op = Some pi ->
    inOutPoint (input pi) = Some op /\ inSignDesc (input pi) <> None.

(** A message or notification without nil pointers: an input as
    [SweepInput] lets it through, a spend that names the spending
    transaction and its hash. *)
Definition wellFormedEvent (ev : loopEvent) : Prop :=
  match ev with
  | NewInput msg => validInput (simInput msg)
  | Spend _ spend => SpenderTxHash spend <> None /\ SpendingTx spend <> None
  | BlockEpoch _ => True
  end.

(** The exported view of the pending input [pi] filed under [op], with
    the sign descriptor [signDesc]. *)
Definition exported (op : OutPoint) (pi : pendingInput)
    (signDesc : SignDescriptor) : PendingInput :=
  {| piOutPoint := op;
     piWitnessType := inWitnessType (input pi);
     piAmount := Value (Output signDesc);
     piLastFeeRate := lastFeeRate pi;
     piBroadcastAttempts := publishAttempts pi;
     piNextBroadcastHeight := uint32 (minPublishHeight pi) |}.

(** A pending input that may be published at [currentHeight] and was
    never published, and one that was published before. *)
Definition neverTried (currentHeight : Z) (pi : pendingInput) : bool :=
  (minPublishHeight pi <=? currentHeight) && (publishAttempts pi =? 0).

Definition triedBefore (currentHeight : Z) (pi : pendingInput) : bool :=
  (minPublishHeight pi <=? currentHeight) && negb (publishAttempts pi =? 0).

(** How often a result channel occurs: in a list, among the listeners of
    the pending inputs, among the channels that a result was sent on,
    and among the channels that came with a new input. *)
Definition occurrences (c : ResultChan) (l : list ResultChan) : nat :=
  count_occ Nat.eq_dec l c.

Definition listening (m : gmap OutPoint pendingInput) (c : ResultChan)
    : nat :=
  map_fold (fun _ pi n => (occurrences c (listeners pi) + n)%nat) 0%nat m.

Definition answered (evs : list event) (c : ResultChan) : nat :=
  occurrences c (map fst (deliveries evs)).

Definition offered (evs : list loopEvent) (c : ResultChan) : nat :=
  occurrences c (omap (fun e => match e with
                                | NewInput msg => Some (simResultChan msg)
                                | _ => None
                                end) evs).

(** [pi'] is [pi] but for the bookkeeping of the publication attempts
    ([publishAttempts] and [minPublishHeight]). *)
Definition rescheduled (pi pi' : pendingInput) : Prop :=
  listeners pi' = listeners pi /\ input pi' = input pi /\
  ntfnRegCancel pi' = ntfnRegCancel pi /\
  feePreference pi' = feePreference pi /\
  lastFeeRate pi' = lastFeeRate pi.

(** The fee rate of a pending input, if its preference yields a valid
    one. *)
Definition validRate (DetermineFeePerKw : FeePreference -> result Z)
    (s : UtxoSweeper) (pi : pendingInput) : option Z :=
  match feeRateForPreference DetermineFeePerKw s (feePreference pi) with
  | Ok feeRate => Some feeRate
  | Err _ => None
  end.

(** What the first loop of [clusterBySweepFeeRate] has built after it
    went through the inputs [m], having started from the pending inputs
    [pend0]. *)
Definition clustered (DetermineFeePerKw : FeePreference -> result Z)
    (s : UtxoSweeper) (pend0 : gmap OutPoint pendingInput)
    (acc : clusterAcc) (m : gmap OutPoint pendingInput) : Prop :=
  (forall b op, op ∈ default (∅ : gset OutPoint) (acc.1.1 !! b) <->
     exists pi feeRate,
       m !! op = Some pi /\ validRate DetermineFeePerKw s pi = Some feeRate /\
       bucketForFeeRate s feeRate = b) /\
  (forall b ops, acc.1.1 !! b = Some ops -> ops <> ∅) /\
  (forall op, acc.1.2 !! op = m !! op ≫= validRate DetermineFeePerKw s) /\
  (forall op, acc.2 !! op =
     match m !! op with
     | Some pi =>
       match validRate DetermineFeePerKw s pi with
       | Some feeRate => Some (setLastFeeRate pi feeRate)
       | None => pend0 !! op
       end
     | None => pend0 !! op
     end).

End Collector.

(* ===================================================================== *)
(** * Concrete runs of the main loop of the sweeper *)
(* ===================================================================== *)

Module CollectorRuns.
Import Sweep SweepRuns Collector.

(** A partitioner that puts all the inputs it is given into one set. *)
Definition oneSet (ins : list Input) (relayFeeRate feeRate maxInputs : Z)
    : result (list (list Input)) :=
  match ins with
  | [] => Ok []
  | _ :: _ => Ok [ins]
  end.

(** A notifier that registers every outpoint; the cancel function is
    known by the hash of the outpoint. *)
Definition registerAll (op : OutPoint) (script : Script) (heightHint : Z)
    : result nat :=
  Ok (Z.to_nat (opHash op)).


(** A sweeper without pending inputs and without a running timer. *)
Definition idle : timedSweeper :=
  {| sweeper := sweeperWith (cfgWith None 3 10) 5 ∅; timer := None |}.

(** The sweeper with the inputs [opA] and [opB], no timer running. *)
Definition busy : timedSweeper :=
  {| sweeper := sweeperAnswering None; timer := None |}.

Definition offer (op : OutPoint) (rate : Z) (resultChan : ResultChan)
    : sweepInputMessage :=
  {| simInput := inputFor op; simFeePreference := preferRate rate;
     simResultChan := resultChan |}.

(** A transaction of somebody else that spends [opA], and the
    notification of its confirmation. *)
Definition foreignTx : MsgTx :=
  {| txIn := [ {| PreviousOutPoint := opA |} ]; txOut := []; LockTime := 0 |}.

Definition foreignSpend : SpendDetail :=
  {| SpentOutPoint := Some opA; SpenderTxHash := Some 77;
     SpendingTx := Some foreignTx |}.

(** [opA] is offered twice and [opB] once, a block arrives, and [opA] is
    spent by somebody else. *)
Definition sampleEvents : list loopEvent :=
  [ NewInput (offer opA 10 1%nat); NewInput (offer opA 12 2%nat);
    NewInput (offer opB 12 3%nat); BlockEpoch 101;
    Spend None foreignSpend ].

Definition sampleRun : outcome (timedSweeper * World * Z) :=
  collector_run absoluteFeeRate oneSet registerAll 9%nat sampleEvents
    idle world0 100.

(** The transaction that [sweepBoth] builds, and the notification of
    its confirmation. *)
Definition sweepTx : MsgTx :=
  {| txIn := [ {| PreviousOutPoint := opA |}; {| PreviousOutPoint := opB |} ];
     txOut := [ {| Value := 19000; PkScript := [0; 20; 7] |} ];
     LockTime := 100 |}.

Definition ownSpend : SpendDetail :=
  {| SpentOutPoint := Some opA; SpenderTxHash := Some (hashOfTx sweepTx);
     SpendingTx := Some sweepTx |}.

(** Whether a run returned. *)
Definition returned {A : Type} (o : outcome A) : bool :=
  match o with
  | Returns _ => true
  | Panics _ => false
  end.

End CollectorRuns.

(* ===================================================================== *)
(** * The channel router: nodes, channels, reorganisations, zombies *)
(* ===================================================================== *)

Module RouterGraph.
Import Routing.

(** [route.Vertex], the 33 bytes of a compressed public key. *)
Definition Vertex := list Z.

(** [bytes.Compare]: the lexicographic comparison of two byte strings,
    -1, 0 or 1. *)
Fixpoint bytesCompare (a b : list Z) : Z :=
  match a, b with
  | [], [] => 0
  | [], _ :: _ => -1
  | _ :: _, [] => 1
  | x :: a', y :: b' =>
    if x <? y then -1
    else if y <? x then 1
    else bytesCompare a' b'
  end.

(** ** Edge locators (router.go 282-316) *)
Record EdgeLocator := {
  locChannelID : Z;     (* uint64 *)
  Direction : Z         (* uint8 *)
}.

Definition newEdgeLocatorByPubkeys (channelID : Z) (fromNode toNode : Vertex)
    : EdgeLocator :=
  let direction := if bytesCompare fromNode toNode =? 1 then 1 else 0 in
  {| locChannelID := channelID; Direction := direction |}.

Definition newEdgeLocator (edge : ChannelEdgePolicy) : EdgeLocator :=
  {| locChannelID := ChannelID edge;
     Direction := Z.land (ChannelFlags edge) ChanUpdateDirection mod 2 ^ 8 |}.

(** ** Nodes and channels of the graph *)

(** [channeldb.LightningNode], the fields the router reads. *)
Record LightningNode := {
  nodePubKeyBytes : Vertex;
  nodeLastUpdate : Z           (* time.Time *)
}.

(** [channeldb.ChannelEdgeInfo] with the keys of the announcement. *)
Record EdgeInfo := {
  edgeChannelID : Z;           (* uint64 *)
  NodeKey1Bytes : Vertex;
  NodeKey2Bytes : Vertex;
  BitcoinKey1Bytes : Vertex;
  BitcoinKey2Bytes : Vertex;
  edgeCapacity : Z;            (* btcutil.Amount *)
  edgeChannelPoint : OutPoint
}.

(** A channel as the store hands it out: the edge and the policies of
    its two directions, [None] for a policy that is not known. *)
Definition channel : Type :=
  EdgeInfo * option ChannelEdgePolicy * option ChannelEdgePolicy.

Definition ErrRouterShuttingDown : error :=
  ErrSentinel "router shutting down".
Definition ErrGraphNodesNotFound : error :=
  ErrSentinel "no graph nodes exist".
Definition ErrGraphNeverPruned : error :=
  ErrSentinel "graph never pruned".
Definition ErrGraphNotFound : error :=
  ErrSentinel "graph bucket not initialized".

(** Modelled from the spec: the further operations of the graph store
    (package channeldb is not part of these sources) that the code below
    calls on [r.cfg.Graph]. [HasLightningNode] answers
    [(lastUpdate, exists, err)], [PruneTip] answers
    [(hash, height, err)], the hash being a pointer. [ForEachChannel] is
    given by the channels that it visits. Every operation is atomic: one
    that fails leaves the store as it was. *)
Class ChannelGraph (G : Type) := {
  HasLightningNode : G -> Vertex -> Z * bool * option error;
  AddLightningNode : G -> LightningNode -> result G;
  AddChannelEdge : G -> EdgeInfo -> result G;
  FetchChannelEdgesByID : G -> Z -> result channel;
  ForEachChannel : G -> result (list channel);
  DeleteChannelEdges : G -> list Z -> result G;
  PruneGraphNodes : G -> result G;
  DisconnectBlockAtHeight : G -> Z -> result (list ChannelEdgeInfo * G);
  PruneTip : G -> option Hash * Z * option error
}.

(** Modelled from the spec: [lnwire.NewShortChanIDFromInt], the inverse
    of [ToUint64]. *)
Definition NewShortChanIDFromInt (chanID : Z) : ShortChannelID :=
  {| BlockHeight := uint32 (Z.shiftr chanID 40);
     TxIndex := Z.land (uint32 (Z.shiftr chanID 16)) (2 ^ 24 - 1);
     TxPosition := uint16 chanID |}.

(** Modelled from the spec: [channeldb.ChannelEdgePolicy.IsDisabled],
    the disabled bit of the channel flags. *)
Definition IsDisabled (p : ChannelEdgePolicy) : bool :=
  Z.land (ChannelFlags p) ChanUpdateDisabled =? ChanUpdateDisabled.

(** [channeldb.EdgePoint], and the call that hands edge points to the
    chain view. *)
Record EdgePoint := {
  FundingPkScript : Script;
  epOutPoint : OutPoint
}.

Inductive chainViewCall :=
| EvUpdateFilter (ops : list EdgePoint) (height : Z).

Section Graph.
Context {G : Type} `{GraphStore G} `{ChannelGraph G}.

(** ** assertNodeAnnFreshness (router.go 1060-1089) *)
Definition assertNodeAnnFreshness (r : ChannelRouter G) (node : Vertex)
    (msgTimestamp : Z) : option error :=
  let '(lastUpdate, known, err) := HasLightningNode (graph r) node in
  match err with
  | Some _ => Some (ErrFmt "unable to query for the existence of node")
  | None =>
    if negb known then Some (ErrRouter ErrIgnored)
    else if negb (Before lastUpdate msgTimestamp)
    then Some (ErrRouter ErrOutdated)
    else None
  end.

(** ** IsStaleNode (router.go 2226-2230) *)
Definition IsStaleNode (r : ChannelRouter G) (node : Vertex)
    (timestamp : Z) : bool :=
  match assertNodeAnnFreshness r node timestamp with
  | Some _ => true
  | None => false
  end.

(** ** IsKnownEdge (router.go 2244-2247) *)
Definition IsKnownEdge (r : ChannelRouter G) (chanID : ShortChannelID)
    : bool :=
  let res := HasChannelEdge (graph r) (ToUint64 chanID) in
  exists_ res || isZombie res.

(** ** processUpdate, the [*channeldb.LightningNode] arm
    (router.go 1097-1111). Returns the error ([None] for nil) and the
    store afterwards. *)
Definition processUpdate_node (r : ChannelRouter G) (msg : LightningNode)
    : option error * G :=
  match assertNodeAnnFreshness r (nodePubKeyBytes msg)
          (nodeLastUpdate msg) with
  | Some err => (Some err, graph r)
  | None =>
    match AddLightningNode (graph r) msg with
    | Err _ => (Some (ErrFmt "unable to add node to the graph"), graph r)
    | Ok g' => (None, g')
    end
  end.

(** ** processUpdate, the [*channeldb.ChannelEdgeInfo] arm
    (router.go 1113-1224).

    [input.GenMultiSigScript] and [input.WitnessScriptHash] live outside
    [router.go]; [GetUtxo] is the answer of [r.cfg.Chain] and
    [UpdateFilter] the answer of [r.cfg.ChainView]. Returns the error,
    the store afterwards and the calls made on the chain view, unless
    [fetchChanPoint] panics. *)
Section EdgeArm.
Variable TxHash : MsgTx -> Hash.
Variable GenMultiSigScript : Vertex -> Vertex -> result Script.
Variable WitnessScriptHash : Script -> result Script.
Variable GetUtxo : OutPoint -> Script -> Z -> result TxOut.
Variable UpdateFilter : list EdgePoint -> Z -> option error.

Definition withPoint (msg : EdgeInfo) (capacity : Z) (point : OutPoint)
    : EdgeInfo :=
  {| edgeChannelID := edgeChannelID msg;
     NodeKey1Bytes := NodeKey1Bytes msg;
     NodeKey2Bytes := NodeKey2Bytes msg;
     BitcoinKey1Bytes := BitcoinKey1Bytes msg;
     BitcoinKey2Bytes := BitcoinKey2Bytes msg;
     edgeCapacity := capacity;
     edgeChannelPoint := point |}.

Definition processUpdate_edge (r : ChannelRouter G) (chain : BlockChainIO)
    (msg : EdgeInfo) : outcome (option error * G * list chainViewCall) :=
  let g := graph r in
  let res := HasChannelEdge g (edgeChannelID msg) in
  if match hceErr res with
     | Some e => negb (bool_decide (e = ErrGraphNoEdgesFound))
     | None => false
     end
  then Returns (Some (ErrFmt "unable to check for edge existence"), g, [])
  else if isZombie res then Returns (Some (ErrRouter ErrIgnored), g, [])
  else if exists_ res then Returns (Some (ErrRouter ErrIgnored), g, [])
  else if AssumeChannelValid (cfg r) then
    match AddChannelEdge g msg with
    | Err _ => Returns (Some (ErrFmt "unable to add edge"), g, [])
    | Ok g' => Returns (None, g', [])
    end
  else
    let channelID := NewShortChanIDFromInt (edgeChannelID msg) in
    fetched <-! fetchChanPoint TxHash chain channelID;
    match fetched with
    | Err _ => Returns (Some (ErrFmt "unable to fetch chan point"), g, [])
    | Ok (fundingPoint, _) =>
      match GenMultiSigScript (BitcoinKey1Bytes msg)
              (BitcoinKey2Bytes msg) with
      | Err e => Returns (Some e, g, [])
      | Ok witnessScript =>
        match WitnessScriptHash witnessScript with
        | Err e => Returns (Some e, g, [])
        | Ok fundingPkScript =>
          match GetUtxo fundingPoint fundingPkScript
                  (BlockHeight channelID) with
          | Err _ => Returns (Some (ErrFmt "unable to fetch utxo"), g, [])
          | Ok chanUtxo =>
            if negb (bool_decide (fundingPkScript = PkScript chanUtxo))
            then Returns (Some (ErrFmt "pkScript mismatch"), g, [])
            else
              match AddChannelEdge g
                      (withPoint msg (Value chanUtxo) fundingPoint) with
              | Err _ => Returns (Some (ErrFmt "unable to add edge"), g, [])
              | Ok g' =>
                let filterUpdate :=
                  [ {| FundingPkScript := fundingPkScript;
                       epOutPoint := fundingPoint |} ] in
                let call := EvUpdateFilter filterUpdate (bestHeight r) in
                match UpdateFilter filterUpdate (bestHeight r) with
                | Some _ =>
                  Returns (Some (ErrFmt "unable to update chain view"),
                           g', [call])
                | None => Returns (None, g', [call])
                end
              end
          end
        end
      end
    end.

End EdgeArm.

(** ** networkHandler, the arm [case chainUpdate, ok := <-r.staleBlocks]
    (router.go 919-938), for a block that was received. Returns the
    router afterwards and the calls made. *)
Definition networkHandler_staleBlock (r : ChannelRouter G)
    (chainUpdate : FilteredBlock) : ChannelRouter G * list event :=
  let blockHeight := uint32 (fbHeight chainUpdate) in
  let best := uint32 (blockHeight - 1) in
  match DisconnectBlockAtHeight (graph r) blockHeight with
  | Err _ =>
    ({| bestHeight := best; cfg := cfg r; graph := graph r |},
     [EvLogError "unable to prune graph with stale block"])
  | Ok (_, g') =>
    ({| bestHeight := best; cfg := cfg r; graph := g' |}, [])
  end.

(** ** pruneZombieChans (router.go 728-834)

    [selfNode] is the public key of [r.selfNode], [now] the reading of
    the clock (the readings of one pass are taken to be the same). *)

(** The closure [filterPruneChans]: whether the channel is collected. *)
Definition filterPruneChans (c : Config) (now : Z) (selfNode : Vertex)
    (ch : channel) : bool :=
  let '(info, e1, e2) := ch in
  if bool_decide (NodeKey1Bytes info = selfNode)
     || bool_decide (NodeKey2Bytes info = selfNode)
  then false
  else
    let chanExpiry := ChannelPruneExpiry c in
    let e1Zombie := match e1 with
                    | Some e => chanExpiry <=? Since now (LastUpdate e)
                    | None => false
                    end in
    let e2Zombie := match e2 with
                    | Some e => chanExpiry <=? Since now (LastUpdate e)
                    | None => false
                    end in
    let isZombieChan := e1Zombie && e2Zombie in
    if AssumeChannelValid c && negb isZombieChan
    then
      let e1Disabled := match e1 with
                        | Some e => IsDisabled e
                        | None => false
                        end in
      let e2Disabled := match e2 with
                        | Some e => IsDisabled e
                        | None => false
                        end in
      e1Disabled && e2Disabled
    else isZombieChan.

(** The channel ids that one pass collects, in the order of the visit. *)
Definition chansToPrune (c : Config) (now : Z) (selfNode : Vertex)
    (channels : list channel) : list Z :=
  map (fun ch : channel => edgeChannelID ch.1.1)
      (List.filter (filterPruneChans c now selfNode) channels).

Definition pruneZombieChans (r : ChannelRouter G) (now : Z)
    (selfNode : Vertex) : option error * G :=
  match ForEachChannel (graph r) with
  | Err _ =>
    (Some (ErrFmt "unable to filter local zombie channels"), graph r)
  | Ok channels =>
    match DeleteChannelEdges (graph r)
            (chansToPrune (cfg r) now selfNode channels) with
    | Err _ => (Some (ErrFmt "unable to delete zombie channels"), graph r)
    | Ok g1 =>
      match PruneGraphNodes g1 with
      | Err e =>
        if bool_decide (e = ErrGraphNodesNotFound) then (None, g1)
        else (Some (ErrFmt "unable to prune graph nodes"), g1)
      | Ok g2 => (None, g2)
      end
    end
  end.

End Graph.

End RouterGraph.

(* ===================================================================== *)
(** * The channel router: failures of payment attempts *)
(* ===================================================================== *)

Module PaymentErrors.
Import Routing RouterGraph.

(** ** Routes with their hops (package route) *)
Record Hop := {
  PubKeyBytes : Vertex;
  hopChannelID : Z;          (* uint64 *)
  OutgoingTimeLock : Z;      (* uint32 *)
  AmtToForward : Z           (* lnwire.MilliSatoshi *)
}.

(** [route.Route], the fields that [getFailedEdge] reads. *)
Record HopRoute := {
  routeTotalAmount : Z;      (* lnwire.MilliSatoshi *)
  SourcePubKey : Vertex;
  Hops : list Hop
}.

(** The type [edge] of the package: a directed channel. *)
Record edge := {
  edgeFrom : Vertex;
  edgeTo : Vertex;
  edgeChannel : Z            (* uint64 *)
}.

(** ** getFailedEdge (router.go 1987-2023)

    The loop [for i, hop := range route.Hops] on the hops that are left,
    with the index [i] of the first of them and the variables [fromNode]
    and [amt]. *)
Fixpoint failedEdgeFrom (errSource : Vertex) (hopCount i : Z)
    (fromNode : Vertex) (amt : Z) (hops : list Hop) : result (edge * Z) :=
  match hops with
  | [] => Err (ErrFmt "cannot find error source node in route")
  | hop :: rest =>
    let toNode := PubKeyBytes hop in
    let finalHopFailing :=
      (i =? hopCount - 1) && bool_decide (errSource = toNode) in
    if bool_decide (errSource = fromNode) || finalHopFailing
    then Ok ({| edgeFrom := fromNode; edgeTo := toNode;
                edgeChannel := hopChannelID hop |}, amt)
    else failedEdgeFrom errSource hopCount (i + 1) toNode
                        (AmtToForward hop) rest
  end.

Definition getFailedEdge (route : HopRoute) (errSource : Vertex)
    : result (edge * Z) :=
  failedEdgeFrom errSource (Z.of_nat (length (Hops route))) 0
                 (SourcePubKey route) (routeTotalAmount route) (Hops route).

(** ** Failure messages and channel updates (package lnwire) *)

Record ChannelUpdate := {
  cuShortChannelID : ShortChannelID;
  Timestamp : Z;             (* uint32, seconds *)
  cuMessageFlags : Z;
  cuChannelFlags : Z;
  cuTimeLockDelta : Z;
  HtlcMinimumMsat : Z;
  HtlcMaximumMsat : Z;
  BaseFee : Z;               (* uint32 *)
  FeeRate : Z                (* uint32 *)
}.

(** The failure messages that [processSendError] tells apart; the
    update of [FailTemporaryChannelFailure] is a pointer that may be
    nil. [FailOther] is any other failure message. *)
Inductive FailureMessage :=
| FailUnknownPaymentHash
| FailIncorrectPaymentAmount
| FailFinalIncorrectCltvExpiry
| FailFinalIncorrectHtlcAmount
| FailFinalExpiryTooSoon
| FailInvalidRealm
| FailExpiryTooSoon (update : ChannelUpdate)
| FailInvalidOnionVersion
| FailInvalidOnionHmac
| FailInvalidOnionKey
| FailAmountBelowMinimum (update : ChannelUpdate)
| FailFeeInsufficient (update : ChannelUpdate)
| FailIncorrectCltvExpiry (update : ChannelUpdate)
| FailChannelDisabled (update : ChannelUpdate)
| FailTemporaryChannelFailure (update : option ChannelUpdate)
| FailRequiredNodeFeatureMissing
| FailRequiredChannelFeatureMissing
| FailUnknownNextPeer
| FailTemporaryNodeFailure
| FailPermanentNodeFailure
| FailExpiryTooFar
| FailPermanentChannelFailure
| FailOther (code : nat).

(** [htlcswitch.ForwardingError] with its failure message; the source
    is carried by its vertex. *)
Record ForwardingFailure := {
  failureSource : Vertex;
  failureMessage : FailureMessage
}.

(** The calls made on the payment session, in the order they are
    made. *)
Inductive report :=
| ReportVertexFailure (v : Vertex)
| ReportEdgeFailure (e : edge) (minPenalizeAmt : Z)
| ReportEdgePolicyFailure (e : edge).

(** What becomes of a message handed to [r.networkUpdates]: the router
    has quit before it is taken, or [processUpdate] runs and its answer
    is read, or the router quits before the answer is read, the message
    having been processed or not. *)
Inductive delivery :=
| QuitBeforeSend
| Answered
| QuitBeforeAnswer (processed : bool).

Section PaymentErrors.
Context {G : Type} `{GraphStore G} `{ChannelGraph G}.

(** [routing.ValidateChannelUpdateAnn] lives outside [router.go]. *)
Variable ValidateChannelUpdateAnn :
  Vertex -> Z -> ChannelUpdate -> option error.

(** ** UpdateEdge (router.go 2118-2135), with the arm of
    [networkHandler] that serves it (router.go 857-912). Returns the
    error and the store afterwards. *)
Definition UpdateEdge (r : ChannelRouter G) (now : Z) (d : delivery)
    (update : ChannelEdgePolicy) : option error * G :=
  match d with
  | QuitBeforeSend => (Some ErrRouterShuttingDown, graph r)
  | Answered => processUpdate r now update
  | QuitBeforeAnswer true =>
    (Some ErrRouterShuttingDown, (processUpdate r now update).2)
  | QuitBeforeAnswer false => (Some ErrRouterShuttingDown, graph r)
  end.

(** The policy that [applyChannelUpdate] builds from a channel update
    ([time.Unix(int64(msg.Timestamp), 0)] in nanoseconds). *)
Definition policyOfUpdate (msg : ChannelUpdate) : ChannelEdgePolicy :=
  {| ChannelID := ToUint64 (cuShortChannelID msg);
     LastUpdate := Timestamp msg * 10 ^ 9;
     MessageFlags := cuMessageFlags msg;
     ChannelFlags := cuChannelFlags msg;
     TimeLockDelta := cuTimeLockDelta msg;
     MinHTLC := HtlcMinimumMsat msg;
     MaxHTLC := HtlcMaximumMsat msg;
     FeeBaseMSat := BaseFee msg;
     FeeProportionalMillionths := FeeRate msg |}.

(** [IsError(err, ErrIgnored, ErrOutdated)]. *)
Definition isIgnoredOrOutdated (err : error) : bool :=
  match err with
  | ErrRouter ErrIgnored | ErrRouter ErrOutdated => true
  | _ => false
  end.

(** ** applyChannelUpdate (router.go 2027-2064); [msg] is [None] for a
    nil update. *)
Definition applyChannelUpdate (r : ChannelRouter G) (now : Z)
    (d : delivery) (msg : option ChannelUpdate) (pubKey : Vertex)
    : bool * G :=
  match msg with
  | None => (true, graph r)
  | Some msg =>
    match FetchChannelEdgesByID (graph r)
            (ToUint64 (cuShortChannelID msg)) with
    | Err _ => (false, graph r)
    | Ok (ch, _, _) =>
      match ValidateChannelUpdateAnn pubKey (edgeCapacity ch) msg with
      | Some _ => (false, graph r)
      | None =>
        match UpdateEdge r now d (policyOfUpdate msg) with
        | (Some err, g') =>
          if negb (isIgnoredOrOutdated err) then (false, g') else (true, g')
        | (None, g') => (true, g')
        end
      end
    end
  end.

(** ** processSendError (router.go 1767-1981). Returns whether the
    failure is final, the calls made on the payment session and the
    store afterwards. *)
Definition processChannelUpdateAndRetry (r : ChannelRouter G) (now : Z)
    (d : delivery) (failedEdge : edge) (update : ChannelUpdate)
    (pubKey : Vertex) : list report * G :=
  let '(updateOk, g') := applyChannelUpdate r now d (Some update) pubKey in
  ((if negb updateOk then [ReportEdgeFailure failedEdge 0] else [])
   ++ [ReportEdgePolicyFailure failedEdge], g').

Definition processSendError (r : ChannelRouter G) (now : Z) (d : delivery)
    (rt : HopRoute) (fErr : ForwardingFailure) : bool * list report * G :=
  let errSource := failureSource fErr in
  let errVertex := errSource in
  match getFailedEdge rt errVertex with
  | Err _ => (true, [], graph r)
  | Ok (failedEdge, failedAmt) =>
    match failureMessage fErr with
    | FailUnknownPaymentHash
    | FailIncorrectPaymentAmount
    | FailFinalIncorrectCltvExpiry
    | FailFinalIncorrectHtlcAmount
    | FailFinalExpiryTooSoon
    | FailInvalidRealm => (true, [], graph r)
    | FailExpiryTooSoon update =>
      let g' := (applyChannelUpdate r now d (Some update) errSource).2 in
      (false, [ReportVertexFailure errVertex], g')
    | FailInvalidOnionVersion
    | FailInvalidOnionHmac
    | FailInvalidOnionKey => (true, [], graph r)
    | FailAmountBelowMinimum update
    | FailFeeInsufficient update
    | FailIncorrectCltvExpiry update =>
      let '(reports, g') :=
        processChannelUpdateAndRetry r now d failedEdge update errSource in
      (false, reports, g')
    | FailChannelDisabled update =>
      let g' := (applyChannelUpdate r now d (Some update) errSource).2 in
      (false, [ReportEdgeFailure failedEdge 0], g')
    | FailTemporaryChannelFailure update =>
      let g' := (applyChannelUpdate r now d update errSource).2 in
      (false, [ReportEdgeFailure failedEdge failedAmt], g')
    | FailRequiredNodeFeatureMissing
    | FailRequiredChannelFeatureMissing =>
      (false, [ReportVertexFailure errVertex], graph r)
    | FailUnknownNextPeer =>
      (false, [ReportEdgeFailure failedEdge 0], graph r)
    | FailTemporaryNodeFailure
    | FailPermanentNodeFailure
    | FailExpiryTooFar =>
      (false, [ReportVertexFailure errVertex], graph r)
    | FailPermanentChannelFailure =>
      (false,
       [ReportEdgeFailure failedEdge 0;
        ReportEdgeFailure {| edgeFrom := edgeTo failedEdge;
                             edgeTo := edgeFrom failedEdge;
                             edgeChannel := edgeChannel failedEdge |} 0],
       graph r)
    | FailOther _ => (true, [], graph r)
    end
  end.

End PaymentErrors.

(** The update that a failure message carries, if any. *)
Definition carriedUpdate (m : FailureMessage) : option ChannelUpdate :=
  match m with
  | FailExpiryTooSoon u | FailAmountBelowMinimum u | FailFeeInsufficient u
  | FailIncorrectCltvExpiry u | FailChannelDisabled u => Some u
  | FailTemporaryChannelFailure u => u
  | _ => None
  end.

(** The channel and the vertices that a report is about. *)
Definition reportChannel (rep : report) : option Z :=
  match rep with
  | ReportVertexFailure _ => None
  | ReportEdgeFailure e _ | ReportEdgePolicyFailure e => Some (edgeChannel e)
  end.

Definition reportVertex (rep : report) : option Vertex :=
  match rep with
  | ReportVertexFailure v => Some v
  | _ => None
  end.

(** The vertex that pays the hop with index [i] of a route, and the
    amount that is sent over that hop. *)
Definition hopSource (rt : HopRoute) (i : nat) : Vertex :=
  match i with
  | O => SourcePubKey rt
  | S j => default [] (PubKeyBytes <$> Hops rt !! j)
  end.

Definition hopAmount (rt : HopRoute) (i : nat) : Z :=
  match i with
  | O => routeTotalAmount rt
  | S j => default 0 (AmtToForward <$> Hops rt !! j)
  end.

End PaymentErrors.

(* ===================================================================== *)
(** * The channel router: synchronising the graph with the chain *)
(* ===================================================================== *)

Module ChainSync.
Import Routing RouterGraph.

(** Modelled from the spec: [chainhash.Hash.IsEqual] on two pointers
    (package chainhash is not part of these sources); two nil pointers
    are equal, a nil pointer and a hash are not. *)
Definition IsEqual (a b : option Hash) : bool :=
  match a, b with
  | None, None => true
  | Some x, Some y => x =? y
  | _, _ => false
  end.

(** A loop that has not ended when the fuel is used up. *)
Inductive ran (A : Type) :=
| Finished (a : A)
| OutOfFuel.
Arguments Finished {A} a.
Arguments OutOfFuel {A}.

(** The errors of [PruneTip] that [syncGraphWithChain] does not treat
    as errors. *)
Definition neverPruned (e : error) : bool :=
  bool_decide (e = ErrGraphNeverPruned) || bool_decide (e = ErrGraphNotFound).

Definition spentOutputs (blk : FilteredBlock) : list OutPoint :=
  flat_map (fun tx => map PreviousOutPoint (txIn tx)) (fbTransactions blk).

Section Sync.
Context {G : Type} `{GraphStore G} `{ChannelGraph G}.

(** [GetBestBlock] and [chain] are the answers of [r.cfg.Chain],
    [FilterBlock] the answer of [r.cfg.ChainView]; [quitAt h] tells
    whether [r.quit] is closed when the rescan reaches height [h]. *)
Variable GetBestBlock : result (Hash * Z).
Variable chain : BlockChainIO.
Variable FilterBlock : Hash -> result FilteredBlock.
Variable quitAt : Z -> bool.

(** ** syncGraphWithChain (router.go 583-720) *)

(** The loop [for !pruneHash.IsEqual(mainBlockHash)] (router.go
    630-659): either the function returns from inside the loop, with an
    error or nil, or the loop ends with a prune tip on the main chain. *)
Fixpoint walkBack (fuel : nat) (g : G) (pruneHash : option Hash)
    (pruneHeight : Z) (mainBlockHash : Hash)
    : ran ((option error * G) + (G * Z)) :=
  if IsEqual pruneHash (Some mainBlockHash)
  then Finished (inr (g, pruneHeight))
  else
    match fuel with
    | O => OutOfFuel
    | S fuel' =>
      match DisconnectBlockAtHeight g pruneHeight with
      | Err e => Finished (inl (Some e, g))
      | Ok (_, g1) =>
        let '(pruneHash', pruneHeight', err) := PruneTip g1 in
        match err with
        | Some e =>
          if neverPruned e then Finished (inl (None, g1))
          else Finished (inl (Some e, g1))
        | None =>
          match GetBlockHash chain pruneHeight' with
          | Err e => Finished (inl (Some e, g1))
          | Ok mainBlockHash' =>
            walkBack fuel' g1 pruneHash' pruneHeight' mainBlockHash'
          end
        end
      end
    end.

(** The loop [for nextHeight := pruneHeight + 1;
    nextHeight <= uint32(bestHeight); nextHeight++] (router.go
    668-715). *)
Fixpoint walkForward (fuel : nat) (g : G) (nextHeight best : Z)
    : ran (option error * G) :=
  if best <? nextHeight then Finished (None, g)
  else
    match fuel with
    | O => OutOfFuel
    | S fuel' =>
      if quitAt nextHeight
      then Finished (Some ErrRouterShuttingDown, g)
      else
        match GetBlockHash chain nextHeight with
        | Err e => Finished (Some e, g)
        | Ok nextHash =>
          match FilterBlock nextHash with
          | Err e => Finished (Some e, g)
          | Ok filterBlock =>
            match PruneGraph g (spentOutputs filterBlock) nextHash
                    nextHeight with
            | Err e => Finished (Some e, g)
            | Ok (_, g') =>
              walkForward fuel' g' (uint32 (nextHeight + 1)) best
            end
          end
        end
    end.

Definition syncGraphWithChain (fuel : nat) (r : ChannelRouter G)
    : ran (option error * ChannelRouter G) :=
  match GetBestBlock with
  | Err e => Finished (Some e, r)
  | Ok (bestHash, bestHeight0) =>
    let best := uint32 bestHeight0 in
    let r1 := {| bestHeight := best; cfg := cfg r; graph := graph r |} in
    let '(pruneHash, pruneHeight, err) := PruneTip (graph r) in
    match match err with
          | Some e => if neverPruned e then None else Some e
          | None => None
          end with
    | Some e => Finished (Some e, r1)
    | None =>
      if (pruneHeight =? 0) || bool_decide (pruneHash = None)
      then Finished (None, r1)
      else if IsEqual (Some bestHash) pruneHash && (best =? pruneHeight)
      then Finished (None, r1)
      else
        match GetBlockHash chain pruneHeight with
        | Err e => Finished (Some e, r1)
        | Ok mainBlockHash =>
          match walkBack fuel (graph r) pruneHash pruneHeight
                  mainBlockHash with
          | OutOfFuel => OutOfFuel
          | Finished (inl (err, g)) =>
            Finished (err, {| bestHeight := best; cfg := cfg r;
                              graph := g |})
          | Finished (inr (g, pruneHeight')) =>
            match walkForward fuel g (uint32 (pruneHeight' + 1)) best with
            | OutOfFuel => OutOfFuel
            | Finished (err, g') =>
              Finished (err, {| bestHeight := best; cfg := cfg r;
                                graph := g' |})
            end
          end
        end
    end
  end.

End Sync.

End ChainSync.

(* ===================================================================== *)
(** * An in-memory graph with nodes, and concrete routers on it *)
(* ===================================================================== *)

Module RouterGraphRuns.
Import Routing RouterGraph PaymentErrors ChainSync RoutingRuns.

(** Modelled from the spec: the in-memory graph of the channels with,
    beside it, the last update of every known node, the announcement of
    every channel, and the blocks the graph was pruned with, the newest
    first. Adding a channel makes its two nodes known; deleting a
    channel makes it a zombie; disconnecting a block forgets the
    channels funded at its height or above and the prunings from that
    height on. *)
Record memStore := {
  msGraph : memGraph;
  msNodes : gmap Vertex Z;
  msEdges : gmap Z EdgeInfo;
  msPruneLog : list (Hash * Z)
}.

Definition withMsGraph (s : memStore) (g : memGraph) : memStore :=
  {| msGraph := g; msNodes := msNodes s; msEdges := msEdges s;
     msPruneLog := msPruneLog s |}.

Definition msUpdateEdgePolicy (s : memStore) (p : ChannelEdgePolicy)
    : result memStore :=
  match memUpdateEdgePolicy (msGraph s) p with
  | Ok g' => Ok (withMsGraph s g')
  | Err e => Err e
  end.

Definition msPruneGraph (s : memStore) (spent : list OutPoint)
    (hash : Hash) (height : Z) : result (list ChannelEdgeInfo * memStore) :=
  match memPruneGraph (msGraph s) spent hash height with
  | Ok (closed, g') =>
    Ok (closed,
        {| msGraph := g'; msNodes := msNodes s;
           msEdges := filter (fun kv => is_Some (edgeIndex g' !! kv.1))
                             (msEdges s);
           msPruneLog := (hash, height) :: msPruneLog s |})
  | Err e => Err e
  end.

#[global] Instance memStore_store : GraphStore memStore := {
  HasChannelEdge := fun s => memHasChannelEdge (msGraph s);
  UpdateEdgePolicy := msUpdateEdgePolicy;
  PruneGraph := msPruneGraph
}.

Definition msHasLightningNode (s : memStore) (v : Vertex)
    : Z * bool * option error :=
  match msNodes s !! v with
  | Some t => (t, true, None)
  | None => (zeroTime, false, None)
  end.

Definition msAddLightningNode (s : memStore) (n : LightningNode)
    : result memStore :=
  Ok {| msGraph := msGraph s;
        msNodes := <[nodePubKeyBytes n := nodeLastUpdate n]> (msNodes s);
        msEdges := msEdges s; msPruneLog := msPruneLog s |}.

Definition knowNode (v : Vertex) (nodes : gmap Vertex Z) : gmap Vertex Z :=
  match nodes !! v with
  | Some _ => nodes
  | None => <[v := zeroTime]> nodes
  end.

Definition msAddChannelEdge (s : memStore) (e : EdgeInfo)
    : result memStore :=
  let g := msGraph s in
  Ok {| msGraph :=
          {| edgeIndex :=
               <[edgeChannelID e :=
                   {| meInfo := {| infoChannelID := edgeChannelID e;
                                   ChannelPoint := edgeChannelPoint e;
                                   Capacity := edgeCapacity e |};
                      mePolicy1 := None; mePolicy2 := None |}]>
                 (edgeIndex g);
             zombieIndex := zombieIndex g;
             pruneTip := pruneTip g |};
        msNodes := knowNode (NodeKey1Bytes e)
                     (knowNode (NodeKey2Bytes e) (msNodes s));
        msEdges := <[edgeChannelID e := e]> (msEdges s);
        msPruneLog := msPruneLog s |}.

Definition msChannel (s : memStore) (chanID : Z) : option channel :=
  match msEdges s !! chanID, edgeIndex (msGraph s) !! chanID with
  | Some e, Some me => Some (e, mePolicy1 me, mePolicy2 me)
  | _, _ => None
  end.

Definition msFetchChannelEdgesByID (s : memStore) (chanID : Z)
    : result channel :=
  match msChannel s chanID with
  | Some ch => Ok ch
  | None => Err (ErrSentinel "edge not found")
  end.

Definition msForEachChannel (s : memStore) : result (list channel) :=
  Ok (omap (fun kv => msChannel s kv.1) (map_to_list (msEdges s))).

Definition msDeleteChannelEdges (s : memStore) (chanIDs : list Z)
    : result memStore :=
  let g := msGraph s in
  Ok {| msGraph :=
          {| edgeIndex := filter (fun kv => kv.1 ∉ chanIDs) (edgeIndex g);
             zombieIndex := zombieIndex g ∪ list_to_set chanIDs;
             pruneTip := pruneTip g |};
        msNodes := msNodes s;
        msEdges := filter (fun kv => kv.1 ∉ chanIDs) (msEdges s);
        msPruneLog := msPruneLog s |}.

Definition msPruneGraphNodes (s : memStore) : result memStore :=
  if decide (msNodes s = ∅) then Err ErrGraphNodesNotFound else Ok s.

Definition msDisconnectBlockAtHeight (s : memStore) (height : Z)
    : result (list ChannelEdgeInfo * memStore) :=
  let g := msGraph s in
  let below := fun chanID : Z => Z.shiftr chanID 40 <? height in
  Ok ([],
      {| msGraph :=
           {| edgeIndex := filter (fun kv => below kv.1 = true) (edgeIndex g);
              zombieIndex := zombieIndex g;
              pruneTip := pruneTip g |};
         msNodes := msNodes s;
         msEdges := filter (fun kv => below kv.1 = true) (msEdges s);
         msPruneLog := List.filter (fun tip : Hash * Z => tip.2 <? height)
                                   (msPruneLog s) |}).

Definition msPruneTip (s : memStore) : option Hash * Z * option error :=
  match msPruneLog s with
  | [] => (None, 0, Some ErrGraphNeverPruned)
  | (hash, height) :: _ => (Some hash, height, None)
  end.

#[global] Instance memStore_graph : ChannelGraph memStore := {
  HasLightningNode := msHasLightningNode;
  AddLightningNode := msAddLightningNode;
  AddChannelEdge := msAddChannelEdge;
  FetchChannelEdgesByID := msFetchChannelEdgesByID;
  ForEachChannel := msForEachChannel;
  DeleteChannelEdges := msDeleteChannelEdges;
  PruneGraphNodes := msPruneGraphNodes;
  DisconnectBlockAtHeight := msDisconnectBlockAtHeight;
  PruneTip := msPruneTip
}.

(** Three nodes, and channel 7 between the first two with a policy of
    each direction (timestamps 100 and 200 seconds), pruned up to
    block 100. *)
Definition alice : Vertex := [2; 1].
Definition bob : Vertex := [2; 2].
Definition carol : Vertex := [3; 3].

Definition edge7 : EdgeInfo :=
  {| edgeChannelID := 7; NodeKey1Bytes := alice; NodeKey2Bytes := bob;
     BitcoinKey1Bytes := [2; 11]; BitcoinKey2Bytes := [2; 12];
     edgeCapacity := 50000; edgeChannelPoint := fundingOf7 |}.

Definition sampleStore : memStore :=
  {| msGraph :=
       {| edgeIndex :=
            {[ 7 := {| meInfo := {| infoChannelID := 7;
                                    ChannelPoint := fundingOf7;
                                    Capacity := 50000 |};
                       mePolicy1 := Some (policyAt 7 (100 * 10 ^ 9) 0);
                       mePolicy2 := Some (policyAt 7 (200 * 10 ^ 9) 1) |} ]};
          zombieIndex := ∅;
          pruneTip := (1100, 100) |};
     msNodes := {[ alice := 50; bob := 60 ]};
     msEdges := {[ 7 := edge7 ]};
     msPruneLog := [(1100, 100)] |}.

Definition sampleRouter : ChannelRouter memStore :=
  {| bestHeight := 100; cfg := defaultConfig; graph := sampleStore |}.

(** An announcement of channel 1 (block 0, transaction 0, output 1)
    between bob and carol, and the scripts and the chain that go with
    it. *)
Definition edge1 : EdgeInfo :=
  {| edgeChannelID := 1; NodeKey1Bytes := bob; NodeKey2Bytes := carol;
     BitcoinKey1Bytes := [2; 21]; BitcoinKey2Bytes := [2; 22];
     edgeCapacity := 1; edgeChannelPoint := {| opHash := 0; opIndex := 0 |} |}.

Definition concatKeys (k1 k2 : Vertex) : result Script := Ok (k1 ++ k2).
Definition scriptHash (script : Script) : result Script := Ok [0; 32].

Definition twoOutputChain : BlockChainIO :=
  {| GetBlockHash := fun h => Ok (1000 + h);
     GetBlock := fun _ =>
       Ok {| Transactions :=
               [ {| txIn := [];
                    txOut := [ {| Value := 40000; PkScript := [0; 20] |};
                               {| Value := 50000; PkScript := [0; 32] |} ];
                    LockTime := 0 |} ] |} |}.

Definition unspent (op : OutPoint) (script : Script) (height : Z)
    : result TxOut :=
  Ok {| Value := 50000; PkScript := script |}.

Definition acceptFilter (ops : list EdgePoint) (height : Z) : option error :=
  None.

(** A chain of 102 blocks without transactions of interest, the block
    at height [h] having the hash [1000 + h]. *)
Definition bestBlock102 : result (Hash * Z) := Ok (1102, 102).

Definition plainBlock (hash : Hash) : result FilteredBlock :=
  Ok {| fbHash := hash; fbHeight := hash - 1000; fbTransactions := [] |}.

Definition neverQuit (height : Z) : bool := false.

(** A route from alice over bob to carol, and a failure that bob sends
    with an update of channel 7 (direction 1, timestamp 300). *)
Definition sampleHops : HopRoute :=
  {| routeTotalAmount := 1010; SourcePubKey := alice;
     Hops := [ {| PubKeyBytes := bob; hopChannelID := 7;
                  OutgoingTimeLock := 140; AmtToForward := 1000 |};
               {| PubKeyBytes := carol; hopChannelID := 1;
                  OutgoingTimeLock := 100; AmtToForward := 1000 |} ] |}.

Definition update7 : ChannelUpdate :=
  {| cuShortChannelID := chan7; Timestamp := 300; cuMessageFlags := 0;
     cuChannelFlags := 1; cuTimeLockDelta := 40; HtlcMinimumMsat := 1;
     HtlcMaximumMsat := 1000000; BaseFee := 2000; FeeRate := 1 |}.

Definition acceptUpdate (pubKey : Vertex) (capacity : Z)
    (update : ChannelUpdate) : option error := None.

End RouterGraphRuns.

(* ===================================================================== *)
(** * Properties of the router *)
(* ===================================================================== *)

Module RoutingProps.
Import Routing RoutingRuns.

(** The direction bit is 0 or 1. *)
Lemma direction_bit (flags : Z) :
  Z.land flags ChanUpdateDirection = 0 \/ Z.land flags ChanUpdateDirection = 1.
Proof.
  unfold ChanUpdateDirection.
  assert (Hland : Z.land flags 1 = flags mod 2)
    by (apply (Z.land_ones flags 1); lia).
  rewrite Hland.
  pose proof (Z.mod_pos_bound flags 2). lia.
Qed.

Ltac case_direction flags :=
  let Hd := fresh "Hdir" in
  destruct (direction_bit flags) as [Hd | Hd]; rewrite Hd; simpl.

Section WithStore.
Context {G : Type} `{GraphStore G}.

(** What [processUpdate] answers once the store has reported a channel
    without error, as existing, and the zombie check does not fire:
    [Outdated] exactly when the timestamp is not after the stored one. *)
Lemma processUpdate_known (r : ChannelRouter G) (now : Z)
    (msg : ChannelEdgePolicy) :
  hceErr (HasChannelEdge (graph r) (ChannelID msg)) = None ->
  exists_ (HasChannelEdge (graph r) (ChannelID msg)) = true ->
  isZombie (HasChannelEdge (graph r) (ChannelID msg))
    && (ChannelPruneExpiry (cfg r) <? Since now (LastUpdate msg)) = false ->
  processUpdate r now msg =
    if LastUpdate msg <=? storedTimestamp (graph r) (ChannelID msg) (direction msg)
    then (Some (ErrRouter ErrOutdated), graph r)
    else match UpdateEdgePolicy (graph r) msg with
         | Err _ => (Some (ErrFmt "unable to add channel"), graph r)
         | Ok g' => (None, g')
         end.
Proof.
  intros Herr Hex Hz.
  unfold processUpdate, storedTimestamp, direction, Before.
  rewrite Herr, Hz, Hex. simpl.
  case_direction (ChannelFlags msg);
    rewrite Z.ltb_antisym, negb_involutive; reflexivity.
Qed.

(** When [IsStaleEdgePolicy] answers true: the lookup succeeded, and
    either the store flags the channel as a zombie and the update is
    older than [ChannelPruneExpiry] or, under [AssumeChannelValid],
    carries the disabled bit; or the channel is not flagged, exists, and
    the timestamp is not after the stored one of the direction. *)
Lemma IsStaleEdgePolicy_true_iff (r : ChannelRouter G) (now : Z)
    (chanID : ShortChannelID) (t flags : Z) :
  let res := HasChannelEdge (graph r) (ToUint64 chanID) in
  IsStaleEdgePolicy r now chanID t flags = true <->
  hceErr res = None /\
  (isZombie res = true /\
   (ChannelPruneExpiry (cfg r) < Since now t \/
    AssumeChannelValid (cfg r) = true /\
    Z.land flags ChanUpdateDisabled = ChanUpdateDisabled) \/
   isZombie res = false /\ exists_ res = true /\
   t <= storedTimestamp (graph r) (ToUint64 chanID)
          (Z.land flags ChanUpdateDirection)).
Proof.
  intros res. subst res. unfold IsStaleEdgePolicy, storedTimestamp, Before.
  destruct (hceErr (HasChannelEdge (graph r) (ToUint64 chanID))) as [e|].
  { split; [discriminate | intros [Hnone _]; discriminate]. }
  destruct (isZombie (HasChannelEdge (graph r) (ToUint64 chanID))).
  - destruct (AssumeChannelValid (cfg r));
      destruct (Z.eqb_spec (Z.land flags ChanUpdateDisabled)
                           ChanUpdateDisabled) as [Hdis | Hdis];
      simpl; rewrite ?Z.ltb_lt; intuition congruence.
  - destruct (exists_ (HasChannelEdge (graph r) (ToUint64 chanID)));
      simpl; [| intuition congruence].
    case_direction flags; rewrite negb_true_iff, Z.ltb_ge;
      intuition congruence.
Qed.

(** When [processUpdate] answers a policy update with [Outdated]: the
    lookup did not fail (other than with [ErrGraphNoEdgesFound]), the
    update is not one for a zombie that is older than
    [ChannelPruneExpiry], the channel exists, and the timestamp is not
    after the stored one of the direction. *)
Lemma processUpdate_Outdated_iff (r : ChannelRouter G) (now : Z)
    (msg : ChannelEdgePolicy) :
  let res := HasChannelEdge (graph r) (ChannelID msg) in
  (processUpdate r now msg).1 = Some (ErrRouter ErrOutdated) <->
  (forall e, hceErr res = Some e -> e = ErrGraphNoEdgesFound) /\
  ~ (isZombie res = true /\
     ChannelPruneExpiry (cfg r) < Since now (LastUpdate msg)) /\
  exists_ res = true /\
  LastUpdate msg <= storedTimestamp (graph r) (ChannelID msg) (direction msg).
Proof.
  intros res. subst res.
  unfold processUpdate, storedTimestamp, direction, Before.
  assert (Hlookup :
            (forall e, hceErr (HasChannelEdge (graph r) (ChannelID msg))
                       = Some e -> e = ErrGraphNoEdgesFound) <->
            match hceErr (HasChannelEdge (graph r) (ChannelID msg)) with
            | Some e => negb (bool_decide (e = ErrGraphNoEdgesFound))
            | None => false
            end = false).
  { destruct (hceErr (HasChannelEdge (graph r) (ChannelID msg))) as [e|].
    - rewrite negb_false_iff, bool_decide_eq_true.
      split; [intros Hall; apply Hall; reflexivity
             | intros -> e' [= <-]; reflexivity].
    - split; [reflexivity | discriminate]. }
  rewrite Hlookup. clear Hlookup.
  destruct (match hceErr (HasChannelEdge (graph r) (ChannelID msg)) with
            | Some e => negb (bool_decide (e = ErrGraphNoEdgesFound))
            | None => false
            end).
  { simpl. split; [discriminate | intros [Hno _]; discriminate]. }
  destruct (isZombie (HasChannelEdge (graph r) (ChannelID msg)));
    destruct (Z.ltb_spec (ChannelPruneExpiry (cfg r))
                         (Since now (LastUpdate msg))) as [Hexp | Hexp];
    destruct (exists_ (HasChannelEdge (graph r) (ChannelID msg)));
    simpl; case_direction (ChannelFlags msg);
    try match goal with
        | |- context [?a <? ?b] => destruct (Z.ltb_spec a b) as [Hlt | Hge]
        end; simpl;
    try destruct (UpdateEdgePolicy (graph r) msg); simpl;
    split;
    try (intros Hout; try discriminate Hout;
         repeat split; try reflexivity; try lia;
         intros [Hz Hlt']; first [discriminate Hz | lia]);
    try (intros (_ & Hz & Hex & Hold);
         try discriminate Hex; try reflexivity; try lia;
         exfalso; apply Hz; split; [reflexivity | assumption]).
Qed.

(** C2, as amended. For every channel id, timestamp and flags,
    [IsStaleEdgePolicy id t flags] is true if and only if
    [processUpdate], given an update of the same channel, direction and
    timestamp on the same graph and at the same clock reading, returns
    [Outdated], except in exactly two kinds of cases. In the first,
    [staleOnly], the lookup succeeds with the zombie flag and the zombie
    test of [IsStaleEdgePolicy] holds (the update is older than
    [ChannelPruneExpiry] or, under [AssumeChannelValid], carries the
    disabled bit), while [processUpdate] does not reach its timestamp
    test or that test fails: [IsStaleEdgePolicy] is true and
    [processUpdate] does not return [Outdated]. In the second,
    [outdatedOnly], [processUpdate] reaches its timestamp test and the
    test holds (the store reports the channel as existing with a stored
    timestamp not before [t], and not as a zombie with an update older
    than [ChannelPruneExpiry]) although the lookup returned
    [ErrGraphNoEdgesFound] or a zombie flag on which the zombie test of
    [IsStaleEdgePolicy] fails: [processUpdate] returns [Outdated] and
    [IsStaleEdgePolicy] is false. In particular the two agree whenever
    the lookup fails with an error other than [ErrGraphNoEdgesFound],
    and whenever it succeeds without the zombie flag. For a store that
    reports a channel as existing only when the lookup succeeded without
    the zombie flag, the second kind does not arise and the two agree
    exactly unless the channel is a zombie on which the zombie test
    holds. *)
Theorem IsStaleEdgePolicy_iff_Outdated (r : ChannelRouter G) (now : Z)
    (chanID : ShortChannelID) (t flags : Z) (msg : ChannelEdgePolicy) :
  ChannelID msg = ToUint64 chanID ->
  LastUpdate msg = t ->
  ChannelFlags msg = flags ->
  let res := HasChannelEdge (graph r) (ToUint64 chanID) in
  let stale := IsStaleEdgePolicy r now chanID t flags = true in
  let outdated :=
    (processUpdate r now msg).1 = Some (ErrRouter ErrOutdated) in
  let expired := ChannelPruneExpiry (cfg r) < Since now t in
  let zombieStale :=
    expired \/
    (AssumeChannelValid (cfg r) = true /\
     Z.land flags ChanUpdateDisabled = ChanUpdateDisabled) in
  let knownOld :=
    exists_ res = true /\
    t <= storedTimestamp (graph r) (ToUint64 chanID)
           (Z.land flags ChanUpdateDirection) in
  let staleOnly :=
    hceErr res = None /\ isZombie res = true /\ zombieStale /\
    ~ (knownOld /\ ~ expired) in
  let outdatedOnly :=
    knownOld /\ ~ (isZombie res = true /\ expired) /\
    (hceErr res = Some ErrGraphNoEdgesFound \/
     (hceErr res = None /\ isZombie res = true /\ ~ zombieStale)) in
  (stale /\ ~ outdated <-> staleOnly) /\
  (outdated /\ ~ stale <-> outdatedOnly) /\
  ((stale <-> outdated) <-> ~ staleOnly /\ ~ outdatedOnly) /\
  ((exists e, hceErr res = Some e /\ e <> ErrGraphNoEdgesFound) ->
   (stale <-> outdated)) /\
  (hceErr res = None -> isZombie res = false -> (stale <-> outdated)) /\
  ((exists_ res = true -> hceErr res = None /\ isZombie res = false) ->
   ((stale <-> outdated) <->
    ~ (hceErr res = None /\ isZombie res = true /\ zombieStale))).
Proof.
  intros Hid Ht Hf. cbv zeta.
  pose proof (IsStaleEdgePolicy_true_iff r now chanID t flags) as Hs.
  pose proof (processUpdate_Outdated_iff r now msg) as Ho.
  cbv zeta in Hs, Ho. unfold direction in Ho. rewrite Hid, Ht, Hf in Ho.
  set (res := HasChannelEdge (graph r) (ToUint64 chanID)) in *.
  set (stale := IsStaleEdgePolicy r now chanID t flags = true) in *.
  set (outdated := (processUpdate r now msg).1 = Some (ErrRouter ErrOutdated))
    in *.
  set (old := t <= storedTimestamp (graph r) (ToUint64 chanID)
                     (Z.land flags ChanUpdateDirection)) in *.
  set (expired := ChannelPruneExpiry (cfg r) < Since now t) in *.
  set (disabled := Z.land flags ChanUpdateDisabled = ChanUpdateDisabled) in *.
  set (found := hceErr res = None) in *.
  set (noEdges := hceErr res = Some ErrGraphNoEdgesFound) in *.
  set (zombie := isZombie res = true) in *.
  set (known := exists_ res = true) in *.
  set (assumed := AssumeChannelValid (cfg r) = true) in *.
  assert (Hstale : stale \/ ~ stale)
    by (subst stale; destruct (IsStaleEdgePolicy r now chanID t flags);
        intuition congruence).
  assert (Houtdated : outdated \/ ~ outdated)
    by (subst outdated;
        destruct (decide ((processUpdate r now msg).1
                          = Some (ErrRouter ErrOutdated))); auto).
  assert (Hzombie : zombie \/ ~ zombie)
    by (subst zombie; destruct (isZombie res); intuition congruence).
  assert (Hnot : isZombie res = false <-> ~ zombie)
    by (subst zombie; destruct (isZombie res); intuition congruence).
  assert (Hexcl : ~ (found /\ noEdges))
    by (subst found noEdges; intros [-> [=]]).
  assert (Hpass : (forall e, hceErr res = Some e -> e = ErrGraphNoEdgesFound)
                  <-> found \/ noEdges).
  { subst found noEdges. destruct (hceErr res) as [e |].
    - split; [intros Hall; right; rewrite (Hall e eq_refl); reflexivity
             | intros [Hnone | [= ->]] e' [= <-];
               [discriminate | reflexivity]].
    - split; [left; reflexivity | intros _ e' [=]]. }
  assert (Hfatal : (exists e, hceErr res = Some e /\ e <> ErrGraphNoEdgesFound)
                   <-> ~ found /\ ~ noEdges).
  { subst found noEdges. destruct (hceErr res) as [e |].
    - split.
      + intros (e' & [= <-] & Hne).
        split; [discriminate | intros [= ->]; apply Hne; reflexivity].
      + intros [_ Hne]. exists e. split; [reflexivity |].
        intros ->. apply Hne. reflexivity.
    - split; [intros (e' & [=] & _) | intros [Hnone _]; exfalso; auto]. }
  assert (Hs' : stale <->
                found /\ (zombie /\ (expired \/ assumed /\ disabled) \/
                          ~ zombie /\ known /\ old))
    by (rewrite Hs, Hnot; reflexivity).
  assert (Ho' : outdated <->
                (found \/ noEdges) /\ ~ (zombie /\ expired) /\ known /\ old)
    by (rewrite Ho, Hpass; reflexivity).
  assert (Hgoal4 : (isZombie res = false -> (stale <-> outdated))
                   <-> (~ zombie -> (stale <-> outdated)))
    by (rewrite Hnot; reflexivity).
  assert (Hgoal5 : (known -> found /\ isZombie res = false)
                   <-> (known -> found /\ ~ zombie))
    by (rewrite Hnot; reflexivity).
  rewrite Hfatal, Hgoal4, Hgoal5.
  clear Hs Ho Hnot Hpass Hfatal Hgoal4 Hgoal5.
  clearbody stale outdated old expired disabled found noEdges zombie known
            assumed.
  assert (H1 : stale /\ ~ outdated <->
               found /\ zombie /\ (expired \/ assumed /\ disabled) /\
               ~ ((known /\ old) /\ ~ expired)) by tauto.
  assert (H2 : outdated /\ ~ stale <->
               (known /\ old) /\ ~ (zombie /\ expired) /\
               (noEdges \/
                found /\ zombie /\ ~ (expired \/ assumed /\ disabled)))
    by (clear H1 Hstale Houtdated; destruct Hzombie; tauto).
  split; [exact H1 |]. split; [exact H2 |].
  split; [| split; [| split]].
  - revert H1 H2 Hstale Houtdated. clear.
    generalize (found /\ zombie /\ (expired \/ assumed /\ disabled) /\
                ~ ((known /\ old) /\ ~ expired)).
    generalize ((known /\ old) /\ ~ (zombie /\ expired) /\
                (noEdges \/
                 found /\ zombie /\ ~ (expired \/ assumed /\ disabled))).
    intros outdatedOnly staleOnly. tauto.
  - clear H1 H2 Hstale Houtdated Hzombie. tauto.
  - clear H1 H2 Hstale Houtdated Hzombie. tauto.
  - clear H1 H2 Hstale Houtdated Hzombie. tauto.
Qed.

End WithStore.

(** On the graph with live channel 7 a second update with the stored
    timestamp 100 is stale and is answered with [Outdated]; on the graph
    in which channel 7 is a zombie an update within [ChannelPruneExpiry]
    is neither stale nor answered with [Outdated]. *)
Lemma IsStaleEdgePolicy_iff_Outdated_witness :
  (IsStaleEdgePolicy (routerOn liveGraph) 200 chan7 100 0 = true <->
   (processUpdate (routerOn liveGraph) 200 (policyAt 7 100 0)).1
     = Some (ErrRouter ErrOutdated)) /\
  (IsStaleEdgePolicy (routerOn zombieGraph) 200 chan7 100 0 = true <->
   (processUpdate (routerOn zombieGraph) 200 (policyAt 7 100 0)).1
     = Some (ErrRouter ErrOutdated)).
Proof.
  split.
  - destruct (IsStaleEdgePolicy_iff_Outdated (routerOn liveGraph) 200 chan7
                100 0 (policyAt 7 100 0) eq_refl eq_refl eq_refl)
      as (_ & _ & _ & _ & Hlive & _).
    apply Hlive; reflexivity.
  - destruct (IsStaleEdgePolicy_iff_Outdated (routerOn zombieGraph) 200 chan7
                100 0 (policyAt 7 100 0) eq_refl eq_refl eq_refl)
      as (_ & _ & _ & _ & _ & Hzombie).
    apply Hzombie.
    + intros Hex. vm_compute in Hex. discriminate.
    + intros (_ & _ & [Hexp | [Hacv _]]).
      * vm_compute in Hexp. discriminate.
      * discriminate.
Defined.

(** C2, as stated, fails on a zombie channel: an update older than
    [ChannelPruneExpiry] is stale for [IsStaleEdgePolicy], while
    [processUpdate] answers it with [Ignored], not [Outdated]. *)
Lemma IsStaleEdgePolicy_zombie_not_Outdated :
  let now := 20 * 24 * 3600 * 10 ^ 9 in
  ~ (IsStaleEdgePolicy (routerOn zombieGraph) now chan7 0 0 = true <->
     (processUpdate (routerOn zombieGraph) now (policyAt 7 0 0)).1
       = Some (ErrRouter ErrOutdated)).
Proof.
  intros now [Hto _].
  assert (Hs : IsStaleEdgePolicy (routerOn zombieGraph) now chan7 0 0 = true)
    by (vm_compute; reflexivity).
  specialize (Hto Hs).
  assert (Hp : (processUpdate (routerOn zombieGraph) now (policyAt 7 0 0)).1
               = Some (ErrRouter ErrIgnored)) by (vm_compute; reflexivity).
  rewrite Hp in Hto. discriminate.
Qed.

Section ZombieUpdates.
Context {G : Type} `{GraphStore G}.

(** C3, as amended. [processUpdate] rejects a policy update, leaving the
    graph as it was, when the store reports the channel as not existing,
    and when the store flags the channel as a zombie and the update is
    older than [ChannelPruneExpiry]. An update for a zombie channel that
    is within [ChannelPruneExpiry] only passes the zombie check: it is
    still rejected with [Ignored] when the store reports the channel as
    not existing and with [Outdated] when its timestamp is not after the
    stored one of its direction, and it is applied when the channel
    exists, the timestamp is strictly newer and the store takes the
    write. *)
Theorem processUpdate_unknown_and_zombie (r : ChannelRouter G) (now : Z)
    (msg : ChannelEdgePolicy) :
  let res := HasChannelEdge (graph r) (ChannelID msg) in
  let fresh := Since now (LastUpdate msg) <= ChannelPruneExpiry (cfg r) in
  let stored := storedTimestamp (graph r) (ChannelID msg) (direction msg) in
  (exists_ res = false ->
   exists e, processUpdate r now msg = (Some e, graph r)) /\
  (isZombie res = true -> ~ fresh ->
   exists e, processUpdate r now msg = (Some e, graph r)) /\
  (isZombie res = true -> fresh -> hceErr res = None ->
   exists_ res = false ->
   processUpdate r now msg = (Some (ErrRouter ErrIgnored), graph r)) /\
  (isZombie res = true -> fresh -> hceErr res = None ->
   exists_ res = true -> LastUpdate msg <= stored ->
   processUpdate r now msg = (Some (ErrRouter ErrOutdated), graph r)) /\
  (isZombie res = true -> fresh -> hceErr res = None ->
   exists_ res = true -> stored < LastUpdate msg ->
   forall g', UpdateEdgePolicy (graph r) msg = Ok g' ->
   processUpdate r now msg = (None, g')).
Proof.
  intros res fresh stored. subst res fresh stored.
  repeat split.
  - intros Hex. unfold processUpdate. rewrite Hex. simpl.
    destruct (hceErr (HasChannelEdge (graph r) (ChannelID msg))) as [e|];
      repeat match goal with
             | |- context [if ?c then _ else _] => destruct c
             end; eauto.
  - intros Hz Hstale. unfold processUpdate. rewrite Hz. simpl.
    assert (Hlt : (ChannelPruneExpiry (cfg r) <? Since now (LastUpdate msg))
                  = true) by (apply Z.ltb_lt; lia).
    rewrite Hlt.
    destruct (hceErr (HasChannelEdge (graph r) (ChannelID msg))) as [e|];
      [destruct (negb (bool_decide (e = ErrGraphNoEdgesFound)))|]; eauto.
  - intros Hz Hfresh Herr Hex. unfold processUpdate.
    assert (Hlt : (ChannelPruneExpiry (cfg r) <? Since now (LastUpdate msg))
                  = false) by (apply Z.ltb_ge; lia).
    rewrite Herr, Hz, Hlt, Hex. reflexivity.
  - intros Hz Hfresh Herr Hex Hold.
    assert (Hlt : (ChannelPruneExpiry (cfg r) <? Since now (LastUpdate msg))
                  = false) by (apply Z.ltb_ge; lia).
    rewrite processUpdate_known
      by (rewrite ?Herr, ?Hex, ?Hz, ?Hlt; reflexivity).
    apply Z.leb_le in Hold. rewrite Hold. reflexivity.
  - intros Hz Hfresh Herr Hex Hnew g' Hup.
    assert (Hlt : (ChannelPruneExpiry (cfg r) <? Since now (LastUpdate msg))
                  = false) by (apply Z.ltb_ge; lia).
    rewrite processUpdate_known
      by (rewrite ?Herr, ?Hex, ?Hz, ?Hlt; reflexivity).
    assert (Hleb : (LastUpdate msg <=?
                    storedTimestamp (graph r) (ChannelID msg) (direction msg))
                   = false) by (apply Z.leb_gt; lia).
    rewrite Hleb, Hup. reflexivity.
Qed.

End ZombieUpdates.

(** The five cases at concrete routers: channel 9 is unknown to the
    graph with channel 7 (first case), channel 7 is a zombie of
    [zombieGraph] (second and third case), and the store of
    [flaggedRouter] flags an existing channel as a zombie (fourth and
    fifth case). *)
Lemma processUpdate_unknown_and_zombie_witness :
  (exists e, processUpdate (routerOn liveGraph) 200 (policyAt 9 150 0)
             = (Some e, liveGraph)) /\
  (exists e, processUpdate (routerOn zombieGraph) (20 * 24 * 3600 * 10 ^ 9)
                           (policyAt 7 0 0)
             = (Some e, zombieGraph)) /\
  processUpdate (routerOn zombieGraph) 200 (policyAt 7 150 0)
    = (Some (ErrRouter ErrIgnored), zombieGraph) /\
  @processUpdate unit flaggedStore flaggedRouter 200 (policyAt 7 100 0)
    = (Some (ErrRouter ErrOutdated), tt) /\
  @processUpdate unit flaggedStore flaggedRouter 200 (policyAt 7 150 0)
    = (None, tt).
Proof.
  split; [| split; [| split; [| split]]].
  - destruct (processUpdate_unknown_and_zombie (routerOn liveGraph) 200
                (policyAt 9 150 0)) as (Hunknown & _).
    apply Hunknown. reflexivity.
  - destruct (processUpdate_unknown_and_zombie (routerOn zombieGraph)
                (20 * 24 * 3600 * 10 ^ 9) (policyAt 7 0 0))
      as (_ & Hstale & _).
    apply Hstale; [reflexivity | vm_compute; intros Hle; apply Hle; reflexivity].
  - destruct (processUpdate_unknown_and_zombie (routerOn zombieGraph) 200
                (policyAt 7 150 0)) as (_ & _ & Hignored & _).
    apply Hignored; try reflexivity. vm_compute. discriminate.
  - destruct (@processUpdate_unknown_and_zombie unit flaggedStore
                flaggedRouter 200 (policyAt 7 100 0))
      as (_ & _ & _ & Houtdated & _).
    apply Houtdated; try reflexivity; vm_compute; discriminate.
  - destruct (@processUpdate_unknown_and_zombie unit flaggedStore
                flaggedRouter 200 (policyAt 7 150 0))
      as (_ & _ & _ & _ & Happlied).
    apply Happlied; try reflexivity; vm_compute; try discriminate; reflexivity.
Defined.

(** C3, as stated, fails in its third part: an update for a zombie
    channel that is within [ChannelPruneExpiry] is not accepted. On
    [zombieGraph] (the store reports a zombie as not existing) it is
    rejected with [Ignored] and the graph stays as it was; with a store
    that reports the zombie as existing, an update carrying the stored
    timestamp is rejected with [Outdated]. *)
Lemma fresh_zombie_update_rejected :
  isZombie (HasChannelEdge zombieGraph 7) = true /\
  Since 200 150 <= ChannelPruneExpiry defaultConfig /\
  processUpdate (routerOn zombieGraph) 200 (policyAt 7 150 0)
    = (Some (ErrRouter ErrIgnored), zombieGraph) /\
  isZombie (@HasChannelEdge unit flaggedStore tt 7) = true /\
  Since 200 100 <= ChannelPruneExpiry defaultConfig /\
  @processUpdate unit flaggedStore flaggedRouter 200 (policyAt 7 100 0)
    = (Some (ErrRouter ErrOutdated), tt).
Proof.
  repeat split; vm_compute; try reflexivity; discriminate.
Qed.

(** The in-memory store keeps the timestamp of the policy it is given,
    under the direction of that policy, and nothing else changes. *)
Lemma memGraph_stores (g : memGraph) (msg : ChannelEdgePolicy) (g' : memGraph) :
  UpdateEdgePolicy g msg = Ok g' ->
  forall chanID d, d = 0 \/ d = 1 ->
  storedTimestamp g' chanID d =
    if bool_decide (chanID = ChannelID msg /\ d = direction msg)
    then LastUpdate msg
    else storedTimestamp g chanID d.
Proof.
  simpl. unfold memUpdateEdgePolicy.
  destruct (edgeIndex g !! ChannelID msg) as [e|] eqn:He; [|discriminate].
  intros Hg' chanID d Hd. injection Hg' as <-.
  unfold storedTimestamp, direction. simpl. unfold memHasChannelEdge. simpl.
  destruct (decide (chanID = ChannelID msg)) as [->|Hne].
  - rewrite lookup_insert_eq, He.
    destruct (direction_bit (ChannelFlags msg)) as [Hb|Hb]; rewrite Hb.
    all: destruct Hd as [->| ->]; simpl.
    all: case_bool_decide; simpl.
    all: try reflexivity.
    all: match goal with
         | Hn : ~ (_ /\ _) |- _ => exfalso; apply Hn; split; reflexivity
         | Hp : _ /\ _ |- _ => destruct Hp as [_ Hp]; lia
         end.
  - rewrite lookup_insert_ne by congruence.
    rewrite (bool_decide_eq_false_2 (chanID = ChannelID msg /\ _))
      by (intros [Heq _]; congruence).
    reflexivity.
Qed.

Section IncreasingTimestamps.
Context {G : Type} `{GraphStore G}.

(** The store keeps the timestamp of a policy it accepts under the
    direction of that policy, and changes no other timestamp. *)
Hypothesis UpdateEdgePolicy_stores :
  forall (g : G) (msg : ChannelEdgePolicy) (g' : G),
  UpdateEdgePolicy g msg = Ok g' ->
  forall chanID d, d = 0 \/ d = 1 ->
  storedTimestamp g' chanID d =
    if bool_decide (chanID = ChannelID msg /\ d = direction msg)
    then LastUpdate msg
    else storedTimestamp g chanID d.

(** One call: an update is applied only when it is strictly newer than
    the stored policy of its direction; a rejected update leaves the
    graph as it was; one rejected with [Outdated] is not newer. *)
Lemma processUpdate_step (r : ChannelRouter G) (now : Z)
    (msg : ChannelEdgePolicy) (err : option error) (g' : G) :
  processUpdate r now msg = (err, g') ->
  match err with
  | None =>
    UpdateEdgePolicy (graph r) msg = Ok g' /\
    storedTimestamp (graph r) (ChannelID msg) (direction msg) < LastUpdate msg
  | Some e =>
    g' = graph r /\
    (e = ErrRouter ErrOutdated ->
     LastUpdate msg <=
     storedTimestamp (graph r) (ChannelID msg) (direction msg))
  end.
Proof.
  intros Hstep. unfold processUpdate in Hstep. cbv zeta in Hstep.
  unfold storedTimestamp, direction, Before in *.
  destruct (direction_bit (ChannelFlags msg)) as [Hbit|Hbit];
    rewrite Hbit in Hstep |- *; simpl in Hstep |- *;
  repeat match type of Hstep with
         | context [if ?c then _ else _] => destruct c eqn:?
         end;
    try destruct (UpdateEdgePolicy (graph r) msg) as [g1|e1] eqn:Hupd;
    injection Hstep as <- <-;
    repeat match goal with
           | Hc : negb _ = true |- _ => apply negb_true_iff in Hc
           | Hc : negb _ = false |- _ => apply negb_false_iff in Hc
           | Hc : (_ <? _) = true |- _ => apply Z.ltb_lt in Hc
           | Hc : (_ <? _) = false |- _ => apply Z.ltb_ge in Hc
           | Hc : (_ =? _) = true |- _ => apply Z.eqb_eq in Hc
           | Hc : (_ =? _) = false |- _ => apply Z.eqb_neq in Hc
           end;
    try (split; [reflexivity | try discriminate; intros _; try lia]);
    try (split; [reflexivity | lia]);
    try discriminate; try lia.
Qed.

(** C5, as amended. An update of an existing channel that passes the
    zombie check and whose timestamp is not strictly newer than the
    stored policy's timestamp for its direction is rejected with
    [Outdated], and the graph stays as it was. In every run of policy
    updates, for each (channel, direction) pair the timestamps of the
    applied updates are strictly increasing and all above the timestamp
    stored before the run, the stored timestamp never decreases, and at
    the end of the run it is greater than or equal to (not necessarily
    strictly greater than) the timestamp of every update of the pair
    that was rejected as [Outdated]. *)
Theorem applied_timestamps_increase (r : ChannelRouter G)
    (updates : list (Z * ChannelEdgePolicy)) (chanID d : Z) :
  d = 0 \/ d = 1 ->
  (forall now msg,
     hceErr (HasChannelEdge (graph r) (ChannelID msg)) = None ->
     exists_ (HasChannelEdge (graph r) (ChannelID msg)) = true ->
     isZombie (HasChannelEdge (graph r) (ChannelID msg))
       && (ChannelPruneExpiry (cfg r) <? Since now (LastUpdate msg)) = false ->
     LastUpdate msg
       <= storedTimestamp (graph r) (ChannelID msg) (direction msg) ->
     processUpdate r now msg = (Some (ErrRouter ErrOutdated), graph r)) /\
  StronglySorted Z.lt
    (timestampsAnswered None chanID d (processUpdates r updates).1) /\
  Forall (fun t => storedTimestamp (graph r) chanID d < t)
    (timestampsAnswered None chanID d (processUpdates r updates).1) /\
  storedTimestamp (graph r) chanID d
    <= storedTimestamp (graph (processUpdates r updates).2) chanID d /\
  Forall (fun t =>
            t <= storedTimestamp (graph (processUpdates r updates).2) chanID d)
    (timestampsAnswered (Some (ErrRouter ErrOutdated)) chanID d
       (processUpdates r updates).1).
Proof.
  intros Hd. split.
  { intros now msg Herr Hex Hz Hold.
    rewrite processUpdate_known by assumption.
    apply Z.leb_le in Hold. rewrite Hold. reflexivity. }
  revert r. induction updates as [|[now msg] rest IH]; intros r.
  { simpl. repeat split; try constructor; lia. }
  simpl.
  destruct (processUpdate r now msg) as [err g'] eqn:Hstep.
  specialize (IH (withGraph r g')).
  destruct (processUpdates (withGraph r g') rest) as [results r'] eqn:Hrest.
  simpl in IH. destruct IH as (Hsorted & Habove & Hmono & Hout).
  apply processUpdate_step in Hstep.
  unfold timestampsAnswered in *. simpl.
  rewrite !filter_cons. simpl.
  destruct err as [e|].
  - (* rejected: the graph is unchanged *)
    destruct Hstep as [-> Hold].
    rewrite (decide_False (P := ChannelID msg = chanID /\ direction msg = d
                                /\ Some e = None))
      by (intros (_ & _ & [=])).
    repeat split; try assumption.
    destruct (decide (ChannelID msg = chanID /\ direction msg = d
                      /\ Some e = Some (ErrRouter ErrOutdated)))
      as [Hmatch|Hmatch]; [|assumption].
    destruct Hmatch as (<- & <- & [= ->]).
    simpl. constructor; [|assumption].
    specialize (Hold eq_refl). lia.
  - (* applied *)
    destruct Hstep as [Hupd Hnew].
    pose proof (UpdateEdgePolicy_stores _ _ _ Hupd chanID d Hd) as Hst.
    rewrite (decide_False (P := ChannelID msg = chanID /\ direction msg = d
                                /\ None = Some (ErrRouter ErrOutdated)))
      by (intros (_ & _ & [=])).
    destruct (decide (ChannelID msg = chanID /\ direction msg = d
                      /\ None = None)) as [Hmatch|Hmatch].
    + destruct Hmatch as (<- & <- & _).
      rewrite bool_decide_eq_true_2 in Hst by (split; reflexivity).
      rewrite Hst in Habove, Hmono. simpl.
      repeat split.
      * constructor; assumption.
      * constructor; [assumption|].
        eapply Forall_impl; [exact Habove|]. simpl. intros; lia.
      * lia.
      * assumption.
    + rewrite bool_decide_eq_false_2 in Hst
        by (intros [-> ->]; apply Hmatch; repeat split; reflexivity).
      rewrite Hst in Habove, Hmono.
      repeat split; assumption.
Qed.

End IncreasingTimestamps.

(** A run on the graph with live channel 7 (node1's policy at timestamp
    100): the updates with timestamps 150 and 180 are applied, the
    second 150 and the 100 are rejected as outdated. *)
Lemma applied_timestamps_increase_witness :
  let run := [(200, policyAt 7 150 0); (300, policyAt 7 150 0);
              (400, policyAt 7 180 0); (500, policyAt 7 100 0)] in
  timestampsAnswered None 7 0 (processUpdates (routerOn liveGraph) run).1
    = [150; 180] /\
  StronglySorted Z.lt
    (timestampsAnswered None 7 0 (processUpdates (routerOn liveGraph) run).1) /\
  Forall (fun t => t <= storedTimestamp
                         (graph (processUpdates (routerOn liveGraph) run).2) 7 0)
    (timestampsAnswered (Some (ErrRouter ErrOutdated)) 7 0
       (processUpdates (routerOn liveGraph) run).1).
Proof.
  intros run.
  destruct (applied_timestamps_increase memGraph_stores (routerOn liveGraph)
              run 7 0 (or_introl eq_refl))
    as (_ & Hsorted & _ & _ & Hout).
  split; [vm_compute; reflexivity | split; assumption].
Defined.

(** C5, as stated, fails in its last part: an update that carries the
    stored timestamp itself is rejected as [Outdated], so the stored
    timestamp is not strictly greater than that of every update rejected
    as outdated. *)
Lemma outdated_update_with_equal_timestamp :
  processUpdate (routerOn liveGraph) 200 (policyAt 7 100 0)
    = (Some (ErrRouter ErrOutdated), liveGraph) /\
  ~ (LastUpdate (policyAt 7 100 0) < storedTimestamp liveGraph 7 0).
Proof.
  split; [vm_compute; reflexivity | vm_compute; discriminate].
Qed.

(** C4. A new-block notification whose height is not the successor of
    [bestHeight] (computed, as the code does, in uint32) is dropped: the
    router is left exactly as it was (same best height, same graph) and
    the only thing that happens is the log line, so [PruneGraph] is not
    called and no topology notification is sent. A notification with the
    successor height sets [bestHeight] to that height and calls
    [PruneGraph] with the outpoints spent in the block. Below the top
    of the uint32 range the successor is [bestHeight + 1]. *)
Theorem out_of_order_block_dropped {G : Type} `{GraphStore G}
    (r : ChannelRouter G) (b : FilteredBlock) :
  (fbHeight b <> uint32 (bestHeight r + 1) ->
   networkHandler_newBlock r b = (r, [EvLogError "out of order block"])) /\
  (fbHeight b = uint32 (bestHeight r + 1) ->
   bestHeight (networkHandler_newBlock r b).1 = fbHeight b /\
   exists rest,
     (networkHandler_newBlock r b).2 =
     EvPruneGraph (flat_map (fun tx => map PreviousOutPoint (txIn tx))
                            (fbTransactions b))
                  (fbHash b) (fbHeight b) :: rest) /\
  (0 <= bestHeight r < 2 ^ 32 - 1 ->
   uint32 (bestHeight r + 1) = bestHeight r + 1).
Proof.
  split; [|split].
  - intros Hne. unfold networkHandler_newBlock.
    apply Z.eqb_neq in Hne. rewrite Hne. reflexivity.
  - intros Heq. unfold networkHandler_newBlock.
    assert (Hidem : uint32 (fbHeight b) = fbHeight b).
    { rewrite Heq. unfold uint32. apply Z.mod_mod. lia. }
    apply Z.eqb_eq in Heq. rewrite Heq. simpl. rewrite Hidem.
    destruct (PruneGraph (graph r) _ (fbHash b) (fbHeight b))
      as [[chansClosed g']|e]; simpl.
    + destruct (length chansClosed =? 0)%nat; simpl; eauto.
    + eauto.
  - intros Hrange. unfold uint32. apply Z.mod_small. lia.
Qed.

(** On the router at height 100 over the graph with channel 7: the block
    at height 102 is dropped, the block at height 101 is processed. *)
Lemma out_of_order_block_dropped_witness :
  networkHandler_newBlock (routerOn liveGraph) (blockSpending7 102)
    = (routerOn liveGraph, [EvLogError "out of order block"]) /\
  bestHeight (networkHandler_newBlock (routerOn liveGraph)
                (blockSpending7 101)).1 = 101 /\
  uint32 (bestHeight (routerOn liveGraph) + 1) = 101.
Proof.
  destruct (out_of_order_block_dropped (routerOn liveGraph)
              (blockSpending7 102)) as (Hdrop & _ & Hsucc).
  destruct (out_of_order_block_dropped (routerOn liveGraph)
              (blockSpending7 101)) as (_ & Hnext & _).
  split; [|split].
  - apply Hdrop. vm_compute. discriminate.
  - apply Hnext. vm_compute. reflexivity.
  - apply Hsucc. vm_compute. split; [discriminate | reflexivity].
Defined.

(** The bound check on the transaction index does its work on a block
    that holds at least one transaction: an index past the last
    transaction yields an error. *)
Lemma fetchChanPoint_tx_index_checked (TxHash : MsgTx -> Hash)
    (chain : BlockChainIO) (chanID : ShortChannelID) (h : Hash)
    (blk : MsgBlock) :
  GetBlockHash chain (BlockHeight chanID) = Ok h ->
  GetBlock chain h = Ok blk ->
  (0 < length (Transactions blk))%nat ->
  Z.of_nat (length (Transactions blk)) < 2 ^ 32 ->
  Z.of_nat (length (Transactions blk)) <= TxIndex chanID ->
  fetchChanPoint TxHash chain chanID
    = Returns (Err (ErrFmt "tx_index is out of range")).
Proof.
  intros Hh Hb Hpos Hlen Hidx. unfold fetchChanPoint.
  rewrite Hh, Hb.
  assert (Hn : uint32 (Z.of_nat (length (Transactions blk)))
               = Z.of_nat (length (Transactions blk)))
    by (unfold uint32; apply Z.mod_small; lia).
  rewrite Hn.
  assert (Hm : uint32 (Z.of_nat (length (Transactions blk)) - 1)
               = Z.of_nat (length (Transactions blk)) - 1)
    by (unfold uint32; apply Z.mod_small; lia).
  rewrite Hm.
  assert (Hlt : (Z.of_nat (length (Transactions blk)) - 1 <? TxIndex chanID)
                = true) by (apply Z.ltb_lt; lia).
  rewrite Hlt. reflexivity.
Qed.

(** C9 does not hold of the code. [fetchChanPoint] indexes the outputs
    of the funding transaction with the advertised output index without
    any check: for the channel id (block 1, transaction 0, output 1) and
    a block whose transaction 0 has a single output, the call panics.
    The check of the transaction index computes [numTxns-1] in uint32,
    which wraps for a block without transactions, so that the call
    panics there as well instead of returning the error. *)
Theorem fetchChanPoint_index_out_of_range :
  fetchChanPoint sampleTxHash oneTxChain
    {| BlockHeight := 1; TxIndex := 0; TxPosition := 1 |}
    = Panics "index out of range" /\
  fetchChanPoint sampleTxHash emptyBlockChain
    {| BlockHeight := 1; TxIndex := 0; TxPosition := 0 |}
    = Panics "index out of range".
Proof.
  split; vm_compute; reflexivity.
Qed.

Section SendToRouteProps.
Context {W Sess Att : Type}.
Variable NewPaymentSessionForRoute : Route -> Sess.
Variable InitPayment : W -> Hash -> PaymentCreationInfo -> option error * W.
Variable GetBestBlock : W -> result (Hash * Z).
Variable resumePayment :
  W -> paymentLifecycle Sess Att ->
  (Preimage * option Route * option error) * W.

(** C8. Once the control tower has accepted the payment, [SendToRoute]
    never returns a no-route error; when the payment attempt ends with a
    no-route error it returns the wire failure recorded in that error,
    and the error "failure message missing" when none is recorded. *)
Theorem SendToRoute_surfaces_wire_failure (w w1 : W) (now : Z) (hash : Hash)
    (route : Route) :
  InitPayment w hash
    {| pciPaymentHash := hash;
       pciValue := uint64 (TotalAmount route - TotalFees route);
       pciCreationDate := now;
       pciPaymentRequest := None |} = (None, w1) ->
  (forall lastError,
     (SendToRoute NewPaymentSessionForRoute InitPayment GetBestBlock
        resumePayment w now hash route).1.2 <> Some (ErrNoRoute lastError)) /\
  (forall preimage rt lastError w2,
     sendPayment GetBestBlock resumePayment w1 None
       {| PaymentHash := hash; FinalCLTVDelta := 0; PayAttemptTimeout := 0 |}
       (NewPaymentSessionForRoute route)
       = ((preimage, rt, Some (ErrNoRoute lastError)), w2) ->
     SendToRoute NewPaymentSessionForRoute InitPayment GetBestBlock
       resumePayment w now hash route
     = ((zeroPreimage,
         Some match lastError with
              | Some failure => ErrForwarding failure
              | None => ErrFmt "failure message missing"
              end), w2)).
Proof.
  intros Hinit. split.
  - intros lastError. unfold SendToRoute. rewrite Hinit.
    destruct (sendPayment _ _ w1 None _ _) as [[[preimage rt] [err|]] w2];
      simpl; [|discriminate].
    destruct err as [name|m|code|[failure|]|failure]; simpl; discriminate.
  - intros preimage rt lastError w2 Hsend. unfold SendToRoute.
    rewrite Hinit, Hsend. destruct lastError; reflexivity.
Qed.

End SendToRouteProps.

(** With collaborators whose single attempt ends in a no-route error:
    the recorded wire failure comes back, and "failure message missing"
    when there is none. *)
Lemma SendToRoute_surfaces_wire_failure_witness :
  sendToSampleRoute (Some sampleFailure)
    = ((zeroPreimage, Some (ErrForwarding sampleFailure)), tt) /\
  sendToSampleRoute None
    = ((zeroPreimage, Some (ErrFmt "failure message missing")), tt).
Proof.
  unfold sendToSampleRoute. split.
  - destruct (SendToRoute_surfaces_wire_failure
                (fun _ => tt) (fun w _ _ => (None, w)) (fun _ => Ok (0, 100))
                (failingLifecycle (Some sampleFailure))
                tt tt 0 42 sampleRoute eq_refl) as [_ Hsurf].
    apply (Hsurf zeroPreimage None (Some sampleFailure) tt). reflexivity.
  - destruct (SendToRoute_surfaces_wire_failure
                (fun _ => tt) (fun w _ _ => (None, w)) (fun _ => Ok (0, 100))
                (failingLifecycle None)
                tt tt 0 42 sampleRoute eq_refl) as [_ Hsurf].
    apply (Hsurf zeroPreimage None None tt). reflexivity.
Defined.

End RoutingProps.

(* ===================================================================== *)
(** * Properties of the sweeper *)
(* ===================================================================== *)

Module SweepProps.
Import Sweep SweepRuns.

Lemma int64_small (z : Z) : - 2 ^ 63 <= z < 2 ^ 63 -> int64 z = z.
Proof. intros Hz. unfold int64. rewrite Z.mod_small; lia. Qed.

Lemma int32_small (z : Z) : - 2 ^ 31 <= z < 2 ^ 31 -> int32 z = z.
Proof. intros Hz. unfold int32. rewrite Z.mod_small; lia. Qed.

(** ** Clustering *)

(** A positive fee rate that does not exceed [relayFeeRate +
    FeeRateBucketSize] lies in bucket 1. *)
Lemma bucketForFeeRate_first (s : UtxoSweeper) (feeRate : Z) :
  0 <= relayFeeRate s < 2 ^ 62 ->
  0 <= FeeRateBucketSize (cfg s) < 2 ^ 62 ->
  0 < feeRate <= relayFeeRate s + FeeRateBucketSize (cfg s) ->
  bucketForFeeRate s feeRate = 1.
Proof.
  intros Hrelay Hsize Hrate. unfold bucketForFeeRate, ceilDiv.
  rewrite (int64_small (FeeRateBucketSize (cfg s))) by lia.
  rewrite int64_small by lia.
  assert (Hdiv : - feeRate / (relayFeeRate s + FeeRateBucketSize (cfg s)) = -1).
  { symmetry.
    apply (Z.div_unique_pos _ _ _
             (relayFeeRate s + FeeRateBucketSize (cfg s) - feeRate)); lia. }
  rewrite Hdiv. reflexivity.
Qed.

(** With a bucket size of 10 and any non-negative relay fee rate, the
    fee rate 10 lies in bucket 1, never in bucket 2. *)
Lemma bucketForFeeRate_10 (s : UtxoSweeper) :
  FeeRateBucketSize (cfg s) = 10 ->
  0 <= relayFeeRate s < 2 ^ 62 ->
  bucketForFeeRate s 10 = 1.
Proof.
  intros Hsize Hrelay. apply bucketForFeeRate_first; rewrite ?Hsize; lia.
Qed.

Section Clustering.
Variable DetermineFeePerKw : FeePreference -> result Z.

(** The first loop of [clusterBySweepFeeRate] when every input has a
    valid fee rate and all of them fall into the bucket [b]: a single
    bucket that holds all outpoints, and every fee rate recorded. *)
Lemma clusterStep_single_bucket (s : UtxoSweeper) (b : Z)
    (rateOf : pendingInput -> Z) (pend0 : gmap OutPoint pendingInput)
    (m : gmap OutPoint pendingInput) :
  (forall op pi, m !! op = Some pi ->
     feeRateForPreference DetermineFeePerKw s (feePreference pi)
       = Ok (rateOf pi) /\
     bucketForFeeRate s (rateOf pi) = b) ->
  (map_fold (clusterStep DetermineFeePerKw s) (∅, ∅, pend0) m).1
    = (if decide (m = ∅) then ∅ else {[ b := dom m ]}, rateOf <$> m).
Proof.
  revert m.
  apply (map_fold_weak_ind
           (fun (r : clusterAcc) (m : gmap OutPoint pendingInput) =>
              (forall op pi, m !! op = Some pi ->
                 feeRateForPreference DetermineFeePerKw s (feePreference pi)
                   = Ok (rateOf pi) /\
                 bucketForFeeRate s (rateOf pi) = b) ->
              r.1 = (if decide (m = ∅) then ∅ else {[ b := dom m ]},
                     rateOf <$> m))).
  - intros _. simpl. rewrite decide_True by reflexivity.
    rewrite fmap_empty. reflexivity.
  - intros op pi m' [[bucketInputs inputFeeRates] pend] Hfresh IH Hall.
    assert (IH' : (bucketInputs, inputFeeRates)
                  = (if decide (m' = ∅) then ∅ else {[ b := dom m' ]},
                     rateOf <$> m')).
    { apply IH. intros op' pi' Hin. apply (Hall op' pi').
      rewrite lookup_insert_ne; [exact Hin | intros ->; congruence]. }
    injection IH' as -> ->.
    destruct (Hall op pi (lookup_insert_eq _ _ _)) as [Hrate Hbucket].
    unfold clusterStep. rewrite Hrate, Hbucket. simpl.
    rewrite (decide_False (P := <[op:=pi]> m' = ∅))
      by apply insert_non_empty.
    rewrite fmap_insert, dom_insert_L. f_equal.
    destruct (decide (m' = ∅)) as [->|Hne].
    + rewrite lookup_empty, dom_empty_L. simpl. apply insert_empty.
    + rewrite lookup_singleton_eq. simpl. apply insert_singleton_eq.
Qed.

(** C1, as amended. Two pending inputs whose fee preferences translate
    to the fee rates 10 and 12, with a bucket size of 10 and a relay fee
    rate between 2 and 10, both fall into bucket 1 (not 2), this being
    [ceil(rate / (relay_fee_rate + FeeRateBucketSize))], and
    [clusterBySweepFeeRate] produces a single cluster holding both
    inputs whose sweep fee rate is the integer-division mean 11. *)
Theorem fee_rates_10_and_12_share_bucket_1 (s : UtxoSweeper)
    (op1 op2 : OutPoint) (pi1 pi2 : pendingInput) :
  op1 <> op2 ->
  pendingInputs s = <[op1 := pi1]> {[ op2 := pi2 ]} ->
  DetermineFeePerKw (feePreference pi1) = Ok 10 ->
  DetermineFeePerKw (feePreference pi2) = Ok 12 ->
  FeeRateBucketSize (cfg s) = 10 ->
  2 <= relayFeeRate s <= 10 ->
  12 <= MaxFeeRate (cfg s) ->
  bucketForFeeRate s 10 = 1 /\
  bucketForFeeRate s 12 = 1 /\
  (clusterBySweepFeeRate DetermineFeePerKw s).1
    = [ {| sweepFeeRate := 11; inputs := {[ op1; op2 ]} |} ].
Proof.
  intros Hne Hpend H10 H12 Hsize Hrelay Hmax.
  assert (Hb10 : bucketForFeeRate s 10 = 1)
    by (apply bucketForFeeRate_first; rewrite ?Hsize; lia).
  assert (Hb12 : bucketForFeeRate s 12 = 1)
    by (apply bucketForFeeRate_first; rewrite ?Hsize; lia).
  split; [exact Hb10 | split; [exact Hb12 |]].
  set (rateOf := fun pi : pendingInput =>
                   match DetermineFeePerKw (feePreference pi) with
                   | Ok r => r
                   | Err _ => 0
                   end).
  assert (Hr1 : rateOf pi1 = 10) by (unfold rateOf; rewrite H10; reflexivity).
  assert (Hr2 : rateOf pi2 = 12) by (unfold rateOf; rewrite H12; reflexivity).
  assert (Hfee1 : feeRateForPreference DetermineFeePerKw s (feePreference pi1)
                  = Ok 10).
  { unfold feeRateForPreference. rewrite H10.
    destruct (Z.ltb_spec 10 (relayFeeRate s)); [lia|].
    destruct (Z.ltb_spec (MaxFeeRate (cfg s)) 10); [lia | reflexivity]. }
  assert (Hfee2 : feeRateForPreference DetermineFeePerKw s (feePreference pi2)
                  = Ok 12).
  { unfold feeRateForPreference. rewrite H12.
    destruct (Z.ltb_spec 12 (relayFeeRate s)); [lia|].
    destruct (Z.ltb_spec (MaxFeeRate (cfg s)) 12); [lia | reflexivity]. }
  pose proof (clusterStep_single_bucket s 1 rateOf (pendingInputs s)
                (pendingInputs s)) as Hfold.
  unfold clusterBySweepFeeRate.
  destruct (map_fold (clusterStep DetermineFeePerKw s)
              (∅, ∅, pendingInputs s) (pendingInputs s))
    as [[bucketInputs inputFeeRates] pend].
  simpl in Hfold.
  assert (Hacc : (bucketInputs, inputFeeRates)
                 = (if decide (pendingInputs s = ∅) then ∅
                    else {[ 1 := dom (pendingInputs s) ]},
                    rateOf <$> pendingInputs s)).
  { apply Hfold. intros op pi Hin. rewrite Hpend in Hin.
    apply lookup_insert_Some in Hin as [[<- <-] | [_ Hin]].
    - rewrite Hr1. split; assumption.
    - apply lookup_singleton_Some in Hin as [<- <-].
      rewrite Hr2. split; assumption. }
  clear Hfold. injection Hacc as -> ->. rewrite Hpend.
  rewrite decide_False by apply insert_non_empty.
  rewrite dom_insert_L, dom_singleton_L, map_to_list_singleton. simpl.
  f_equal. f_equal.
  unfold averageFeeRate.
  rewrite size_union, !size_singleton by set_solver.
  assert (Hl1 : (rateOf <$> (<[op1:=pi1]> {[op2 := pi2]}
                              : gmap OutPoint pendingInput)) !! op1
                = Some 10).
  { rewrite lookup_fmap, lookup_insert_eq. simpl. congruence. }
  assert (Hl2 : (rateOf <$> (<[op1:=pi1]> {[op2 := pi2]}
                              : gmap OutPoint pendingInput)) !! op2
                = Some 12).
  { rewrite lookup_fmap, lookup_insert_ne, lookup_singleton_eq by assumption.
    simpl. congruence. }
  unfold set_fold. simpl.
  assert (Hperm : elements ({[op1]} ∪ {[op2]} : gset OutPoint)
                    ≡ₚ [op1; op2]).
  { rewrite elements_disj_union by set_solver.
    rewrite !elements_singleton. reflexivity. }
  symmetry in Hperm.
  apply Permutation_length_2_inv in Hperm as [-> | ->]; simpl;
    rewrite Hl1, Hl2; reflexivity.
Qed.

End Clustering.

(** Two inputs paying 10 and 12 under a relay fee rate of 5. *)
Lemma fee_rates_10_and_12_share_bucket_1_witness :
  let s := sweeperWith (cfgWith None 10 10) 5 (twoInputs 10 12) in
  bucketForFeeRate s 10 = 1 /\
  bucketForFeeRate s 12 = 1 /\
  (clusterBySweepFeeRate absoluteFeeRate s).1
    = [ {| sweepFeeRate := 11; inputs := {[ opA; opB ]} |} ].
Proof.
  intros s.
  apply (fee_rates_10_and_12_share_bucket_1 absoluteFeeRate s opA opB
           (pendingAt opA 10 1%nat) (pendingAt opB 12 2%nat)).
  - discriminate.
  - reflexivity.
  - reflexivity.
  - reflexivity.
  - reflexivity.
  - simpl. lia.
  - vm_compute. discriminate.
Defined.

(** C1, as stated, fails: with a bucket size of 10 the fee rate 10 is
    not in bucket 2. Under a relay fee rate of 1 the rates 10 and 12
    fall into the buckets 1 and 2 and form two clusters, swept at 12 and
    at 10; in the units of the code (sat/kw: 2500 and 3000 under a
    relay fee rate of 250) they fall into the buckets 10 and 12 and
    again form two clusters. *)
Lemma fee_rates_10_and_12_not_in_bucket_2 :
  let s := sweeperWith (cfgWith None 10 10) 1 (twoInputs 10 12) in
  let skw := sweeperWith (cfgWith None 10 10) 250 (twoInputs 2500 3000) in
  bucketForFeeRate s 10 = 1 /\
  bucketForFeeRate s 12 = 2 /\
  (clusterBySweepFeeRate absoluteFeeRate s).1
    = [ {| sweepFeeRate := 12; inputs := {[ opB ]} |};
        {| sweepFeeRate := 10; inputs := {[ opA ]} |} ] /\
  bucketForFeeRate skw 2500 = 10 /\
  bucketForFeeRate skw 3000 = 12 /\
  (clusterBySweepFeeRate absoluteFeeRate skw).1
    = [ {| sweepFeeRate := 2500; inputs := {[ opA ]} |};
        {| sweepFeeRate := 3000; inputs := {[ opB ]} |} ].
Proof.
  repeat split; vm_compute; reflexivity.
Qed.

(** ** SweepInput *)

Section SweepInputProps.
Variable DetermineFeePerKw : FeePreference -> result Z.

(** C10. [SweepInput] returns an error and leaves the sweeper exactly as
    it was (no pending input, no listener, nothing handed to the loop)
    when the input is nil, when its outpoint or its sign descriptor is
    nil, and when the fee preference translates to a fee rate below the
    relay fee rate or above [MaxFeeRate]. It never touches the pending
    inputs, and whatever it hands to the loop has passed all of these
    checks. *)
Theorem SweepInput_rejects_invalid (s : UtxoSweeper) (input : option Input)
    (feePreference : FeePreference) (fresh : ResultChan) (sel : selectArm) :
  (input = None \/
   (exists inp, input = Some inp /\
                (inOutPoint inp = None \/ inSignDesc inp = None)) \/
   (exists rate, DetermineFeePerKw feePreference = Ok rate /\
                 (rate < relayFeeRate s \/ MaxFeeRate (cfg s) < rate)) ->
   exists e,
     SweepInput DetermineFeePerKw s input feePreference fresh sel
     = (Err e, s)) /\
  pendingInputs
    (SweepInput DetermineFeePerKw s input feePreference fresh sel).2
    = pendingInputs s /\
  (newInputs (SweepInput DetermineFeePerKw s input feePreference fresh sel).2
     <> newInputs s ->
   exists inp op sd rate,
     input = Some inp /\ inOutPoint inp = Some op /\
     inSignDesc inp = Some sd /\
     DetermineFeePerKw feePreference = Ok rate /\
     relayFeeRate s <= rate <= MaxFeeRate (cfg s) /\
     newInputs (SweepInput DetermineFeePerKw s input feePreference fresh sel).2
       = newInputs s ++ [ {| simInput := inp;
                             simFeePreference := feePreference;
                             simResultChan := fresh |} ]).
Proof.
  split; [|split].
  - intros [-> | [(inp & -> & Hnil) | (rate & Hrate & Hbad)]].
    + eauto.
    + simpl. destruct Hnil as [-> | Hsd].
      * eauto.
      * rewrite Hsd. destruct (inOutPoint inp); eauto.
    + unfold SweepInput, feeRateForPreference. rewrite Hrate.
      destruct input as [inp|]; [|eauto].
      destruct (inOutPoint inp); [|eauto].
      destruct (inSignDesc inp); [|eauto].
      destruct (Z.ltb_spec rate (relayFeeRate s)); [eauto|].
      destruct (Z.ltb_spec (MaxFeeRate (cfg s)) rate); [eauto | lia].
  - unfold SweepInput.
    destruct input as [inp|]; [|reflexivity].
    destruct (inOutPoint inp); [|reflexivity].
    destruct (inSignDesc inp); [|reflexivity].
    destruct (feeRateForPreference _ s feePreference); [|reflexivity].
    destruct sel; reflexivity.
  - unfold SweepInput, feeRateForPreference.
    destruct input as [inp|]; [|intros Hc; contradiction Hc; reflexivity].
    destruct (inOutPoint inp) as [op|] eqn:Hop;
      [|intros Hc; contradiction Hc; reflexivity].
    destruct (inSignDesc inp) as [sd|] eqn:Hsd;
      [|intros Hc; contradiction Hc; reflexivity].
    destruct (DetermineFeePerKw feePreference) as [rate|e] eqn:Hrate;
      [|intros Hc; contradiction Hc; reflexivity].
    destruct (Z.ltb_spec rate (relayFeeRate s));
      [intros Hc; contradiction Hc; reflexivity|].
    destruct (Z.ltb_spec (MaxFeeRate (cfg s)) rate);
      [intros Hc; contradiction Hc; reflexivity|].
    destruct sel; simpl; [|intros Hc; contradiction Hc; reflexivity].
    intros _. exists inp, op, sd, rate. repeat split; try assumption; lia.
Qed.

End SweepInputProps.

(** A sweeper with a relay fee rate of 250: an input that offers 100 is
    turned down and nothing changes; an input that offers 2500 is handed
    to the loop. *)
Lemma SweepInput_rejects_invalid_witness :
  let s := sweeperWith (cfgWith None 10 10) 250 ∅ in
  (exists e, SweepInput absoluteFeeRate s (Some (inputFor opA))
               (preferRate 100) 1%nat SendNewInput = (Err e, s)) /\
  (exists inp,
     newInputs (SweepInput absoluteFeeRate s (Some (inputFor opA))
                  (preferRate 2500) 1%nat SendNewInput).2
     = newInputs s ++ [ {| simInput := inp;
                           simFeePreference := preferRate 2500;
                           simResultChan := 1%nat |} ]).
Proof.
  intros s. split.
  - destruct (SweepInput_rejects_invalid absoluteFeeRate s
                (Some (inputFor opA)) (preferRate 100) 1%nat SendNewInput)
      as (Hreject & _).
    apply Hreject. right. right. exists 100. split; [reflexivity|].
    left. reflexivity.
  - destruct (SweepInput_rejects_invalid absoluteFeeRate s
                (Some (inputFor opA)) (preferRate 2500) 1%nat SendNewInput)
      as (_ & _ & Hdelivered).
    destruct Hdelivered as (inp & op & sd & rate & _ & _ & _ & _ & _ & Hq).
    + vm_compute. discriminate.
    + exists inp. exact Hq.
Defined.

(** ** Publication *)

Lemma no_publish_In (evs : list event) (tx : MsgTx) :
  Forall (fun e => isPublish e = false) evs ->
  In (EvPublishTransaction tx) evs -> False.
Proof.
  induction 1 as [|e evs He _ IH]; simpl; [tauto|].
  intros [-> | Hin]; [discriminate | exact (IH Hin)].
Qed.

Lemma results_no_publish (res : Result) (chans : list ResultChan) :
  Forall (fun e => isPublish e = false)
         (map (fun c => EvResult c res) chans).
Proof. induction chans; simpl; constructor; auto. Qed.

(** What [signalAndRemove] and the rescheduling loop leave alone: they
    only append results and cancellations to the trace, never touch the
    store, and keep every field of the sweeper but the pending inputs. *)
Lemma signalAndRemove_frame (s : UtxoSweeper) (w : World) (op : OutPoint)
    (res : Result) (s' : UtxoSweeper) (w' : World) :
  signalAndRemove s w op res = Returns (s', w') ->
  exists evs,
    trace w' = trace w ++ evs /\
    Forall (fun e => isPublish e = false) evs /\
    storeTxs w' = storeTxs w /\ rng w' = rng w /\
    cfg s' = cfg s /\ currentOutputScript s' = currentOutputScript s.
Proof.
  unfold signalAndRemove.
  destruct (pendingInputs s !! op) as [pi|]; [|discriminate].
  intros [= <- <-].
  destruct (ntfnRegCancel pi) as [cancel|]; simpl.
  - exists (map (fun c => EvResult c res) (listeners pi)
            ++ [EvCancelSpendNtfn cancel]).
    rewrite app_assoc. repeat split; try reflexivity.
    apply Forall_app. split; [apply results_no_publish | repeat constructor].
  - exists (map (fun c => EvResult c res) (listeners pi)).
    repeat split; try reflexivity. apply results_no_publish.
Qed.

Lemma reschedule_frame (ins : list TxIn) (h : Z) :
  forall (s : UtxoSweeper) (w w' : World) (o : outcome UtxoSweeper),
  reschedule ins h s w = (w', o) ->
  exists evs,
    trace w' = trace w ++ evs /\
    Forall (fun e => isPublish e = false) evs /\
    storeTxs w' = storeTxs w /\
    match o with
    | Returns s' =>
      cfg s' = cfg s /\ currentOutputScript s' = currentOutputScript s
    | Panics _ => True
    end.
Proof.
  induction ins as [|input rest IH]; intros s w w' o; simpl.
  - intros [= <- <-]. exists []. rewrite app_nil_r. repeat split. constructor.
  - destruct (pendingInputs s !! PreviousOutPoint input) as [pi|];
      [|apply IH].
    destruct (NextAttemptDeltaFunc (cfg s) _ (rng w)) as [[d g']|why].
    2:{ intros [= <- <-]. exists []. rewrite app_nil_r.
        repeat split. constructor. }
    destruct (MaxSweepAttempts (cfg s) <=? _).
    + destruct (signalAndRemove _ _ _ _) as [[s2 w2]|why] eqn:Hsig.
      2:{ intros [= <- <-]. exists []. rewrite app_nil_r.
          repeat split. constructor. }
      apply signalAndRemove_frame in Hsig
        as (evs1 & Ht1 & Hp1 & Hs1 & _ & Hc1 & Hsc1).
      intros Hrest. apply IH in Hrest as (evs2 & Ht2 & Hp2 & Hs2 & Ho).
      exists (evs1 ++ evs2). simpl in *.
      rewrite Ht2, Ht1, Hs2, Hs1, app_assoc.
      repeat split; [apply Forall_app; split; assumption|].
      destruct o as [s'|]; [|exact I].
      destruct Ho as [-> ->]. rewrite Hc1, Hsc1. split; reflexivity.
    + intros Hrest. apply IH in Hrest as (evs2 & Ht2 & Hp2 & Hs2 & Ho).
      exists evs2. simpl in *. repeat split; assumption.
Qed.

(** A sequence of calls made of a prefix without publication, a
    successful [NotifyPublishTx tx], the publication of [tx], and a
    suffix without publication. *)
Lemma notifiedBeforePublished_once (before after : list event) (tx : MsgTx) :
  Forall (fun e => isPublish e = false) before ->
  Forall (fun e => isPublish e = false) after ->
  notifiedBeforePublished
    (before ++ EvNotifyPublishTx tx None :: EvPublishTransaction tx :: after).
Proof.
  intros Hbefore Hafter. unfold notifiedBeforePublished.
  induction Hbefore as [|e before He Hbefore IH]; intros pre tx' post Heq.
  - simpl in Heq. destruct pre as [|a pre]; [discriminate|].
    injection Heq as <- Heq.
    destruct pre as [|b pre].
    + injection Heq as <- _. left. reflexivity.
    + injection Heq as <- Heq. exfalso.
      rewrite Heq in Hafter. apply Forall_app in Hafter as [_ Hafter].
      apply Forall_cons_1 in Hafter as [Hpub _]. discriminate.
  - simpl in Heq. destruct pre as [|a pre].
    + injection Heq as -> _. discriminate.
    + injection Heq as <- Heq. right. apply (IH pre tx' post Heq).
Qed.

Lemma notifiedBeforePublished_none (evs : list event) :
  Forall (fun e => isPublish e = false) evs ->
  notifiedBeforePublished evs.
Proof.
  intros Hnone pre tx post ->. exfalso.
  apply Forall_app in Hnone as [_ Hnone].
  apply Forall_cons_1 in Hnone as [Hpub _]. discriminate.
Qed.

Section Publication.
Variable TxHash : MsgTx -> Hash.
Variable createSweepTx :
  list Input -> option Script -> Z -> Z -> result MsgTx.

(** The two shapes an execution of [sweep] can take: nothing was
    published, or exactly one transaction was. *)
Lemma sweep_unpublished (s : UtxoSweeper) (w w' : World)
    (o : outcome (option error * UtxoSweeper)) (evs : list event) :
  trace w' = trace w ++ evs ->
  Forall (fun e => isPublish e = false) evs ->
  (forall err s', o = Returns (err, s') ->
     currentOutputScript s' = scriptInUse s) ->
  exists evs,
    trace w' = trace w ++ evs /\
    notifiedBeforePublished evs /\
    (forall tx, In (EvPublishTransaction tx) evs ->
       In (TxHash tx) (storeTxs w')) /\
    (forall err s', o = Returns (err, s') ->
       (forall tx, In (EvPublishTransaction tx) evs ->
          PublishTransaction (cfg s) tx = Some ErrDoubleSpend ->
          err = None) /\
       (forall tx, In (EvPublishTransaction tx) evs ->
          PublishTransaction (cfg s) tx = None ->
          err = None /\ currentOutputScript s' = None) /\
       ((forall tx, In (EvPublishTransaction tx) evs ->
           PublishTransaction (cfg s) tx <> None) ->
        currentOutputScript s' = scriptInUse s)).
Proof.
  intros Htrace Hnone Hscript. exists evs.
  split; [exact Htrace|].
  split; [apply notifiedBeforePublished_none; exact Hnone|].
  split; [intros tx Hin; exfalso; exact (no_publish_In _ _ Hnone Hin)|].
  intros err s' Hret.
  split; [intros tx Hin; exfalso; exact (no_publish_In _ _ Hnone Hin)|].
  split; [intros tx Hin; exfalso; exact (no_publish_In _ _ Hnone Hin)|].
  intros _. exact (Hscript err s' Hret).
Qed.

Lemma sweep_published (s : UtxoSweeper) (w w' : World)
    (o : outcome (option error * UtxoSweeper))
    (before after : list event) (tx : MsgTx) :
  trace w' = trace w ++ before ++ EvNotifyPublishTx tx None
                               :: EvPublishTransaction tx :: after ->
  Forall (fun e => isPublish e = false) before ->
  Forall (fun e => isPublish e = false) after ->
  In (TxHash tx) (storeTxs w') ->
  (forall err s', o = Returns (err, s') ->
     (PublishTransaction (cfg s) tx = Some ErrDoubleSpend -> err = None) /\
     (PublishTransaction (cfg s) tx = None ->
      err = None /\ currentOutputScript s' = None) /\
     (PublishTransaction (cfg s) tx <> None ->
      currentOutputScript s' = scriptInUse s)) ->
  exists evs,
    trace w' = trace w ++ evs /\
    notifiedBeforePublished evs /\
    (forall tx, In (EvPublishTransaction tx) evs ->
       In (TxHash tx) (storeTxs w')) /\
    (forall err s', o = Returns (err, s') ->
       (forall tx, In (EvPublishTransaction tx) evs ->
          PublishTransaction (cfg s) tx = Some ErrDoubleSpend ->
          err = None) /\
       (forall tx, In (EvPublishTransaction tx) evs ->
          PublishTransaction (cfg s) tx = None ->
          err = None /\ currentOutputScript s' = None) /\
       ((forall tx, In (EvPublishTransaction tx) evs ->
           PublishTransaction (cfg s) tx <> None) ->
        currentOutputScript s' = scriptInUse s)).
Proof.
  intros Htrace Hbefore Hafter Hstore Hret.
  assert (Honly : forall tx',
            In (EvPublishTransaction tx')
               (before ++ EvNotifyPublishTx tx None
                       :: EvPublishTransaction tx :: after) ->
            tx' = tx).
  { intros tx' Hin.
    apply in_app_or in Hin as [Hin | [Hin | [Hin | Hin]]].
    - exfalso. exact (no_publish_In _ _ Hbefore Hin).
    - discriminate.
    - congruence.
    - exfalso. exact (no_publish_In _ _ Hafter Hin). }
  exists (before ++ EvNotifyPublishTx tx None
                 :: EvPublishTransaction tx :: after).
  split; [exact Htrace|].
  split; [apply notifiedBeforePublished_once; assumption|].
  split; [intros tx' Hin; apply Honly in Hin as ->; exact Hstore|].
  intros err s' Ho. destruct (Hret err s' Ho) as (Hds & Hok & Herr).
  split; [intros tx' Hin; apply Honly in Hin as ->; exact Hds|].
  split; [intros tx' Hin; apply Honly in Hin as ->; exact Hok|].
  intros Hnever. apply Herr. apply Hnever.
  apply in_or_app. right. right. left. reflexivity.
Qed.

(** C7. In every execution of [sweep], returning or panicking, each call
    of [PublishTransaction] on a transaction comes after a call of
    [NotifyPublishTx] on that transaction which the store answered
    without error, and the hash of a published transaction is in the
    store. When [sweep] returns: a [DoubleSpend] answer of the publisher
    is not an error of [sweep]; after a publication without error the
    cached output script is cleared; and in every other case (an error
    of any kind, [DoubleSpend] included, or no publication at all) the
    cached output script is the script the call worked with. *)
Theorem sweep_records_before_publishing (s : UtxoSweeper) (w : World)
    (inputs : list Input) (feeRate currentHeight : Z)
    (w' : World) (o : outcome (option error * UtxoSweeper)) :
  sweep TxHash createSweepTx s w inputs feeRate currentHeight = (w', o) ->
  exists evs,
    trace w' = trace w ++ evs /\
    notifiedBeforePublished evs /\
    (forall tx, In (EvPublishTransaction tx) evs ->
       In (TxHash tx) (storeTxs w')) /\
    (forall err s', o = Returns (err, s') ->
       (forall tx, In (EvPublishTransaction tx) evs ->
          PublishTransaction (cfg s) tx = Some ErrDoubleSpend ->
          err = None) /\
       (forall tx, In (EvPublishTransaction tx) evs ->
          PublishTransaction (cfg s) tx = None ->
          err = None /\ currentOutputScript s' = None) /\
       ((forall tx, In (EvPublishTransaction tx) evs ->
           PublishTransaction (cfg s) tx <> None) ->
        currentOutputScript s' = scriptInUse s)).
Proof.
  unfold sweep.
  assert (Hgen : forall pk w0,
            match currentOutputScript s with
            | None => (GenSweepScript (cfg s), log [EvGenSweepScript] w)
            | Some pkScript => (Ok (Some pkScript), w)
            end = (pk, w0) ->
            exists before,
              trace w0 = trace w ++ before /\
              Forall (fun e => isPublish e = false) before /\
              storeTxs w0 = storeTxs w /\
              match pk with
              | Ok pkScript => pkScript = scriptInUse s
              | Err _ => scriptInUse s = currentOutputScript s
              end).
  { intros pk w0. unfold scriptInUse.
    destruct (currentOutputScript s) as [pkScript|]; intros [= <- <-].
    - exists []. rewrite app_nil_r. repeat split. constructor.
    - exists [EvGenSweepScript].
      split; [reflexivity|]. split; [repeat constructor|].
      split; [reflexivity|]. destruct (GenSweepScript (cfg s)); reflexivity. }
  destruct (match currentOutputScript s with
            | None => (GenSweepScript (cfg s), log [EvGenSweepScript] w)
            | Some pkScript => (Ok (Some pkScript), w)
            end) as [pk w0] eqn:Hpk.
  destruct (Hgen pk w0 eq_refl) as (before & Htb & Hpb & Hsb & Hscript).
  clear Hgen Hpk.
  destruct pk as [pkScript|e0].
  2:{ (* GenSweepScript failed *)
      intros [= <- <-].
      apply (sweep_unpublished s w w0 _ before Htb Hpb).
      intros err s' [= _ <-]. symmetry. exact Hscript. }
  simpl.
  destruct (createSweepTx inputs pkScript (uint32 currentHeight) feeRate)
    as [tx|e1].
  2:{ (* createSweepTx failed *)
      intros [= <- <-].
      apply (sweep_unpublished s w w0 _ before Htb Hpb).
      intros err s' [= _ <-]. exact Hscript. }
  destruct (StoreNotifyPublishTx (cfg s) tx) as [e2|] eqn:Hnotify.
  { (* the store refused the transaction *)
    intros [= <- <-].
    apply (sweep_unpublished s w _ _
             (before ++ [EvNotifyPublishTx tx (Some e2)])).
    - simpl. rewrite Htb, app_assoc. reflexivity.
    - apply Forall_app. split; [assumption | repeat constructor].
    - intros err s' [= _ <-]. exact Hscript. }
  (* the transaction is published *)
  destruct (PublishTransaction (cfg s) tx) as [e3|] eqn:Hpublish.
  - destruct (negb (bool_decide (e3 = ErrDoubleSpend))) eqn:Hds.
    + (* an error other than DoubleSpend *)
      intros [= <- <-].
      apply (sweep_published s w _ _ before [] tx).
      * simpl. rewrite Htb, <- !app_assoc. reflexivity.
      * assumption.
      * constructor.
      * simpl. apply in_or_app. right. left. reflexivity.
      * intros err s' [= <- <-]. rewrite Hpublish.
        split; [|split].
        -- intros [= ->].
           rewrite bool_decide_eq_true_2 in Hds by reflexivity. discriminate.
        -- discriminate.
        -- intros _. exact Hscript.
    + (* DoubleSpend *)
      destruct (reschedule (txIn tx) currentHeight _ _) as [w3 o3] eqn:Hres.
      apply reschedule_frame in Hres as (after & Hta & Hpa & Hsa & Ho3).
      simpl in Hta, Hsa.
      intros Hout.
      assert (Hw3 : w' = w3) by (destruct o3; injection Hout; congruence).
      subst w3.
      apply (sweep_published s w w' o before after tx).
      * rewrite Hta, Htb, <- !app_assoc. reflexivity.
      * assumption.
      * assumption.
      * rewrite Hsa. apply in_or_app. right. left. reflexivity.
      * intros err s' ->. destruct o3 as [s3|]; [|discriminate].
        injection Hout as <- <-. destruct Ho3 as [_ Hsc].
        rewrite Hpublish.
        split; [reflexivity | split; [discriminate |]].
        intros _. rewrite Hsc. exact Hscript.
  - (* published without error *)
    destruct (reschedule (txIn tx) currentHeight _ _) as [w3 o3] eqn:Hres.
    apply reschedule_frame in Hres as (after & Hta & Hpa & Hsa & Ho3).
    simpl in Hta, Hsa.
    intros Hout.
    assert (Hw3 : w' = w3) by (destruct o3; injection Hout; congruence).
    subst w3.
    apply (sweep_published s w w' o before after tx).
    + rewrite Hta, Htb, <- !app_assoc. reflexivity.
    + assumption.
    + assumption.
    + rewrite Hsa. apply in_or_app. right. left. reflexivity.
    + intros err s' ->. destruct o3 as [s3|]; [|discriminate].
      injection Hout as <- <-. destruct Ho3 as [_ Hsc].
      rewrite Hpublish.
      split; [reflexivity | split; [|congruence]].
      intros _. split; [reflexivity | exact Hsc].
Qed.

End Publication.

(** ** Retry accounting *)

(** The default delta function returns only for 1 to 31 attempts, and
    then a delta between 1 and 2^(attempts-1). *)
Lemma DefaultNextAttemptDeltaFunc_bounds (attempts : Z) (g : RNG)
    (d : Z) (g' : RNG) :
  - 2 ^ 63 <= attempts < 2 ^ 63 ->
  DefaultNextAttemptDeltaFunc attempts g = Returns (d, g') ->
  1 <= attempts <= 31 /\ 1 <= d <= 2 ^ (attempts - 1).
Proof.
  intros Hint. unfold DefaultNextAttemptDeltaFunc, Int31n, uint64.
  destruct (Z.ltb_spec attempts 1) as [Hlow|Hlow].
  { (* uint(attempts-1) wraps to a count of at least 2^63 *)
    assert (Hwrap : (attempts - 1) mod 2 ^ 64 = attempts - 1 + 2 ^ 64).
    { symmetry. apply (Z.mod_unique_pos _ _ (-1)); lia. }
    rewrite Hwrap.
    destruct (Z.leb_spec 32 (attempts - 1 + 2 ^ 64)); [|lia].
    simpl. discriminate. }
  rewrite (Z.mod_small (attempts - 1)) by lia.
  destruct (Z.leb_spec 32 (attempts - 1)) as [Hbig|Hsmall].
  { simpl. discriminate. }
  rewrite Z.shiftl_1_l.
  destruct (Z.eq_dec attempts 32) as [->|Hne].
  { simpl. discriminate. }
  assert (Hpow : 1 <= 2 ^ (attempts - 1) <= 2 ^ 30).
  { split; [apply (Z.pow_le_mono_r 2 0); lia
           | apply Z.pow_le_mono_r; lia]. }
  rewrite int32_small by lia.
  destruct (Z.leb_spec (2 ^ (attempts - 1)) 0); [lia|].
  simpl. intros [= <- _].
  pose proof (Z.mod_pos_bound (g 0%nat) (2 ^ (attempts - 1))).
  rewrite int32_small by lia. lia.
Qed.

(** The rescheduling loop over distinct outpoints: an outpoint that the
    transaction does not spend keeps its entry; for one that it spends
    and that is pending, the delta function is asked about the
    incremented attempt count, and the input is either rescheduled with
    that count or, at [MaxSweepAttempts], removed after
    [ErrTooManyAttempts] went to each of its listeners. *)
Lemma reschedule_accounting (ins : list TxIn) (h : Z) :
  forall (s : UtxoSweeper) (w w' : World) (s' : UtxoSweeper),
  List.NoDup (map PreviousOutPoint ins) ->
  reschedule ins h s w = (w', Returns s') ->
  forall op,
    (~ In op (map PreviousOutPoint ins) ->
     pendingInputs s' !! op = pendingInputs s !! op) /\
    (In op (map PreviousOutPoint ins) ->
     forall pi, pendingInputs s !! op = Some pi ->
     exists g d g',
       NextAttemptDeltaFunc (cfg s) (int64 (publishAttempts pi + 1)) g
         = Returns (d, g') /\
       if MaxSweepAttempts (cfg s) <=? int64 (publishAttempts pi + 1)
       then pendingInputs s' !! op = None /\
            exists evs, trace w' = trace w ++ evs /\
              forall l, In l (listeners pi) ->
                In (EvResult l {| resErr := Some ErrTooManyAttempts;
                                  resTx := None |}) evs
       else pendingInputs s' !! op
            = Some (recordAttempt pi (int64 (publishAttempts pi + 1))
                                  (int32 (h + d)))).
Proof.
  induction ins as [|input rest IH]; intros s w w' s' Hnodup; simpl.
  - intros [= <- <-] op. split; [reflexivity | contradiction].
  - apply List.NoDup_cons_iff in Hnodup as [Hfresh Hnodup].
    destruct (pendingInputs s !! PreviousOutPoint input) as [pi0|] eqn:Hpi0.
    2:{ intros Hrest op. destruct (IH s w w' s' Hnodup Hrest op) as [Hout Hin].
        split.
        - intros Hnot. apply Hout. tauto.
        - intros [Heq | Hop] pi Hpi; [subst op; congruence | exact (Hin Hop pi Hpi)]. }
    destruct (NextAttemptDeltaFunc (cfg s) _ (rng w)) as [[d g']|why] eqn:Hd;
      [|discriminate].
    set (pi0' := recordAttempt pi0 (int64 (publishAttempts pi0 + 1))
                               (int32 (h + d))).
    destruct (MaxSweepAttempts (cfg s) <=? int64 (publishAttempts pi0 + 1))
      eqn:Hmax.
    + (* removed *)
      unfold signalAndRemove. simpl. rewrite lookup_insert_eq.
      set (w2 := match ntfnRegCancel pi0' with
                 | Some cancel => _
                 | None => _
                 end).
      intros Hrest op.
      destruct (reschedule_frame _ _ _ _ _ _ Hrest)
        as (evs2 & Ht2 & _ & _ & _).
      destruct (IH _ _ _ _ Hnodup Hrest op) as [Hout Hin]. simpl in Hout, Hin.
      assert (Hw2 : exists evs1,
                trace w2 = trace w ++ evs1 /\
                forall l, In l (listeners pi0) ->
                  In (EvResult l {| resErr := Some ErrTooManyAttempts;
                                    resTx := None |}) evs1).
      { subst w2. simpl.
        destruct (ntfnRegCancel pi0) as [cancel|]; simpl;
          eexists; (split; [rewrite <- ?app_assoc; reflexivity|]);
          intros l Hl; try apply in_or_app; try left;
          apply in_map_iff; eauto. }
      destruct Hw2 as (evs1 & Ht1 & Hl1).
      split.
      * intros Hnot. rewrite Hout by tauto.
        rewrite lookup_delete_ne, lookup_insert_ne by tauto. reflexivity.
      * intros [Heq | Hop] pi Hpi.
        -- subst op. rewrite Hpi0 in Hpi. injection Hpi as <-.
           exists (rng w), d, g'. split; [exact Hd|]. rewrite Hmax.
           split.
           ++ rewrite Hout by exact Hfresh. apply lookup_delete_eq.
           ++ exists (evs1 ++ evs2). rewrite Ht2, Ht1, app_assoc.
              split; [reflexivity|]. intros l Hl. apply in_or_app. left.
              exact (Hl1 l Hl).
        -- assert (Hne : PreviousOutPoint input <> op)
             by (intros Heq; apply Hfresh; rewrite Heq; exact Hop).
           specialize (Hin Hop pi).
           rewrite lookup_delete_ne, lookup_insert_ne in Hin by assumption.
           destruct (Hin Hpi) as (g1 & d1 & g1' & Hd1 & Hcase).
           exists g1, d1, g1'. split; [exact Hd1|].
           destruct (MaxSweepAttempts (cfg s)
                       <=? int64 (publishAttempts pi + 1)); [|exact Hcase].
           destruct Hcase as [Hgone (evs & Hte & Hle)].
           split; [exact Hgone|].
           exists (evs1 ++ evs). rewrite Hte, Ht1, app_assoc.
           split; [reflexivity|]. intros l Hl. apply in_or_app. right.
           exact (Hle l Hl).
    + (* rescheduled *)
      intros Hrest op.
      destruct (IH _ _ _ _ Hnodup Hrest op) as [Hout Hin]. simpl in Hout, Hin.
      split.
      * intros Hnot. rewrite Hout by tauto.
        rewrite lookup_insert_ne by tauto. reflexivity.
      * intros [Heq | Hop] pi Hpi.
        -- subst op. rewrite Hpi0 in Hpi. injection Hpi as <-.
           exists (rng w), d, g'. split; [exact Hd|]. rewrite Hmax.
           rewrite Hout by exact Hfresh. apply lookup_insert_eq.
        -- assert (Hne : PreviousOutPoint input <> op)
             by (intros Heq; apply Hfresh; rewrite Heq; exact Hop).
           specialize (Hin Hop pi).
           rewrite lookup_insert_ne in Hin by assumption.
           exact (Hin Hpi).
Qed.

Lemma int64_range (z : Z) : - 2 ^ 63 <= int64 z < 2 ^ 63.
Proof. unfold int64. pose proof (Z.mod_pos_bound (z + 2 ^ 63) (2 ^ 64)). lia. Qed.

Section RetryAccounting.
Variable TxHash : MsgTx -> Hash.
Variable createSweepTx :
  list Input -> option Script -> Z -> Z -> result MsgTx.

(** What a call of [sweep] that returned without error has done: a
    transaction was built and its publication was answered without error
    or with [DoubleSpend]; and, the transaction spending distinct
    outpoints, for each of its inputs that is pending the delta function
    was asked about the attempt count plus one, and either that count
    has reached [MaxSweepAttempts], the input is gone from the pending
    inputs and [ErrTooManyAttempts] was delivered to each of its
    listeners, or the input stays pending with the attempt count
    incremented by one and [min_publish_height] set to the current
    height plus the delta. *)
Lemma sweep_returned_accounting (s : UtxoSweeper) (w : World)
    (inputs : list Input) (feeRate currentHeight : Z)
    (w' : World) (s' : UtxoSweeper) :
  sweep TxHash createSweepTx s w inputs feeRate currentHeight
    = (w', Returns (None, s')) ->
  exists tx,
    createSweepTx inputs (scriptInUse s) (uint32 currentHeight) feeRate
      = Ok tx /\
    In (EvPublishTransaction tx) (trace w') /\
    (PublishTransaction (cfg s) tx = None \/
     PublishTransaction (cfg s) tx = Some ErrDoubleSpend) /\
    (List.NoDup (outpoints tx) ->
     forall op pi,
       In op (outpoints tx) -> pendingInputs s !! op = Some pi ->
       exists g d g',
         NextAttemptDeltaFunc (cfg s) (int64 (publishAttempts pi + 1)) g
           = Returns (d, g') /\
         (NextAttemptDeltaFunc (cfg s) = DefaultNextAttemptDeltaFunc ->
          1 <= d <= 2 ^ 30) /\
         if MaxSweepAttempts (cfg s) <=? int64 (publishAttempts pi + 1)
         then
           pendingInputs s' !! op = None /\
           forall l, In l (listeners pi) ->
             In (EvResult l {| resErr := Some ErrTooManyAttempts;
                               resTx := None |}) (trace w')
         else
           exists pi',
             pendingInputs s' !! op = Some pi' /\
             listeners pi' = listeners pi /\
             (- 2 ^ 63 <= publishAttempts pi < 2 ^ 63 - 1 ->
              publishAttempts pi' = publishAttempts pi + 1) /\
             minPublishHeight pi' = int32 (currentHeight + d) /\
             (NextAttemptDeltaFunc (cfg s) = DefaultNextAttemptDeltaFunc ->
              - 2 ^ 31 <= currentHeight < 2 ^ 30 ->
              currentHeight + 1 <= minPublishHeight pi')).
Proof.
  unfold sweep.
  assert (Hgen : forall pk w0,
            match currentOutputScript s with
            | None => (GenSweepScript (cfg s), log [EvGenSweepScript] w)
            | Some pkScript => (Ok (Some pkScript), w)
            end = (pk, w0) ->
            match pk with
            | Ok pkScript => pkScript = scriptInUse s
            | Err _ => True
            end).
  { intros pk w0. unfold scriptInUse.
    destruct (currentOutputScript s) as [pkScript|]; intros [= <- <-];
      [reflexivity|].
    destruct (GenSweepScript (cfg s)); [reflexivity | exact I]. }
  destruct (match currentOutputScript s with
            | None => (GenSweepScript (cfg s), log [EvGenSweepScript] w)
            | Some pkScript => (Ok (Some pkScript), w)
            end) as [pk w0] eqn:Hpk.
  specialize (Hgen pk w0 eq_refl). clear Hpk.
  destruct pk as [pkScript|e0]; [|discriminate]. simpl.
  destruct (createSweepTx inputs pkScript (uint32 currentHeight) feeRate)
    as [tx|e1] eqn:Htx; [|discriminate].
  destruct (StoreNotifyPublishTx (cfg s) tx) as [e2|]; [discriminate|].
  assert (Hpub : forall s2,
            cfg s2 = cfg s -> pendingInputs s2 = pendingInputs s ->
            match reschedule (txIn tx) currentHeight s2
                    (log [EvPublishTransaction tx]
                       (recordTx (TxHash tx)
                          (log [EvNotifyPublishTx tx None] w0))) with
            | (w3, Panics why) => (w3, Panics why)
            | (w3, Returns s3) => (w3, Returns (@None error, s3))
            end = (w', Returns (None, s')) ->
            In (EvPublishTransaction tx) (trace w') /\
            (List.NoDup (outpoints tx) ->
             forall op pi,
               In op (outpoints tx) -> pendingInputs s !! op = Some pi ->
               exists g d g',
                 NextAttemptDeltaFunc (cfg s)
                   (int64 (publishAttempts pi + 1)) g = Returns (d, g') /\
                 if MaxSweepAttempts (cfg s) <=? int64 (publishAttempts pi + 1)
                 then
                   pendingInputs s' !! op = None /\
                   forall l, In l (listeners pi) ->
                     In (EvResult l {| resErr := Some ErrTooManyAttempts;
                                       resTx := None |}) (trace w')
                 else
                   pendingInputs s' !! op
                   = Some (recordAttempt pi (int64 (publishAttempts pi + 1))
                                         (int32 (currentHeight + d))))).
  { intros s2 Hcfg Hpend.
    destruct (reschedule (txIn tx) currentHeight s2 _) as [w3 [s3|why]]
      eqn:Hres; [|discriminate].
    intros [= -> ->].
    destruct (reschedule_frame _ _ _ _ _ _ Hres) as (evs & Hte & _).
    split.
    { rewrite Hte. simpl. apply in_or_app. left. apply in_or_app. right.
      left. reflexivity. }
    intros Hnodup op pi Hin Hpi.
    destruct (reschedule_accounting _ _ _ _ _ _ Hnodup Hres op) as [_ Hacc].
    rewrite Hcfg, Hpend in Hacc.
    destruct (Hacc Hin pi Hpi) as (g & d & g' & Hd & Hcase).
    exists g, d, g'. split; [exact Hd|].
    destruct (MaxSweepAttempts (cfg s) <=? int64 (publishAttempts pi + 1));
      [|exact Hcase].
    destruct Hcase as [Hgone (evs' & Hte' & Hl)].
    split; [exact Hgone|].
    intros l Hlin. rewrite Hte'. apply in_or_app. right. exact (Hl l Hlin). }
  intros Hsweep.
  assert (Hanswer : (PublishTransaction (cfg s) tx = None \/
                     PublishTransaction (cfg s) tx = Some ErrDoubleSpend) /\
                    In (EvPublishTransaction tx) (trace w') /\
                    (List.NoDup (outpoints tx) ->
                     forall op pi,
                       In op (outpoints tx) ->
                       pendingInputs s !! op = Some pi ->
                       exists g d g',
                         NextAttemptDeltaFunc (cfg s)
                           (int64 (publishAttempts pi + 1)) g
                           = Returns (d, g') /\
                         if MaxSweepAttempts (cfg s)
                            <=? int64 (publishAttempts pi + 1)
                         then
                           pendingInputs s' !! op = None /\
                           forall l, In l (listeners pi) ->
                             In (EvResult l
                                   {| resErr := Some ErrTooManyAttempts;
                                      resTx := None |}) (trace w')
                         else
                           pendingInputs s' !! op
                           = Some (recordAttempt pi
                                     (int64 (publishAttempts pi + 1))
                                     (int32 (currentHeight + d))))).
  { destruct (PublishTransaction (cfg s) tx) as [e3|].
    - destruct (bool_decide (e3 = ErrDoubleSpend)) eqn:Hds; simpl in Hsweep;
        [|discriminate].
      apply bool_decide_eq_true_1 in Hds. subst e3.
      split; [right; reflexivity|].
      exact (Hpub (setScript s pkScript) eq_refl eq_refl Hsweep).
    - split; [left; reflexivity|].
      exact (Hpub (setScript (setScript s pkScript) None)
                  eq_refl eq_refl Hsweep). }
  destruct Hanswer as (Hans & Hpublished & Hacc).
  exists tx. rewrite <- Hgen.
  split; [exact Htx|]. split; [exact Hpublished|]. split; [exact Hans|].
  intros Hnodup op pi Hin Hpi.
  destruct (Hacc Hnodup op pi Hin Hpi) as (g & d & g' & Hd & Hcase).
  assert (Hdefault : NextAttemptDeltaFunc (cfg s) = DefaultNextAttemptDeltaFunc
                     -> 1 <= d <= 2 ^ 30).
  { intros Heq. rewrite Heq in Hd.
    apply DefaultNextAttemptDeltaFunc_bounds in Hd
      as [Hattempts Hdelta]; [|apply int64_range].
    assert (2 ^ (int64 (publishAttempts pi + 1) - 1) <= 2 ^ 30)
      by (apply Z.pow_le_mono_r; lia).
    lia. }
  exists g, d, g'. split; [exact Hd|]. split; [exact Hdefault|].
  destruct (MaxSweepAttempts (cfg s) <=? int64 (publishAttempts pi + 1));
    [exact Hcase|].
  eexists. split; [exact Hcase|]. simpl.
  split; [reflexivity|].
  split; [intros Hrange; apply int64_small; lia|].
  split; [reflexivity|].
  intros Heq Hheight. specialize (Hdefault Heq).
  rewrite int32_small by lia. lia.
Qed.

(** The rescheduling loop returns when the delta function does: with
    distinct outpoints, it is asked only about the incremented attempt
    counts of the pending inputs that the transaction spends, and the
    removal of an input that reached [MaxSweepAttempts] cannot fail. *)
Lemma reschedule_returns (ins : list TxIn) (h : Z) :
  forall (s : UtxoSweeper) (w : World),
  List.NoDup (map PreviousOutPoint ins) ->
  (forall op pi g,
     In op (map PreviousOutPoint ins) -> pendingInputs s !! op = Some pi ->
     exists d g',
       NextAttemptDeltaFunc (cfg s) (int64 (publishAttempts pi + 1)) g
       = Returns (d, g')) ->
  exists w' s', reschedule ins h s w = (w', Returns s').
Proof.
  induction ins as [| input rest IH]; intros s w Hnodup Hdelta; simpl.
  - exists w, s. reflexivity.
  - apply List.NoDup_cons_iff in Hnodup as [Hfresh Hnodup].
    destruct (pendingInputs s !! PreviousOutPoint input) as [pi |] eqn:Hpi.
    2:{ apply IH; [exact Hnodup |].
        intros op pi g Hin. apply Hdelta. right. exact Hin. }
    destruct (Hdelta _ pi (rng w) (or_introl eq_refl) Hpi) as (d & g' & Hd).
    rewrite Hd.
    assert (Hrest : forall m : gmap OutPoint pendingInput,
              (forall op, op <> PreviousOutPoint input ->
                          m !! op = pendingInputs s !! op) ->
              forall op pi' g,
                In op (map PreviousOutPoint rest) -> m !! op = Some pi' ->
                exists d' g'',
                  NextAttemptDeltaFunc (cfg s)
                    (int64 (publishAttempts pi' + 1)) g = Returns (d', g'')).
    { intros m Hm op pi' g Hin Hlook.
      assert (Hne : op <> PreviousOutPoint input)
        by (intros ->; exact (Hfresh Hin)).
      rewrite (Hm op Hne) in Hlook.
      exact (Hdelta op pi' g (or_intror Hin) Hlook). }
    destruct (MaxSweepAttempts (cfg s) <=? int64 (publishAttempts pi + 1)).
    + unfold signalAndRemove. simpl. rewrite lookup_insert_eq.
      apply IH; [exact Hnodup |]. simpl. apply Hrest.
      intros op Hne.
      rewrite lookup_delete_ne, lookup_insert_ne by congruence. reflexivity.
    + apply IH; [exact Hnodup |]. simpl. apply Hrest.
      intros op Hne. rewrite lookup_insert_ne by congruence. reflexivity.
Qed.

(** [sweep] up to the answer of the publisher, once the script is at
    hand, the transaction is built and the store has recorded it: the
    transaction has been handed to the publisher, and what follows
    depends on the publisher's answer. *)
Lemma sweep_after_store (s : UtxoSweeper) (w : World) (inputs : list Input)
    (feeRate currentHeight : Z) (tx : MsgTx) :
  (currentOutputScript s = None ->
   exists pkScript, GenSweepScript (cfg s) = Ok pkScript) ->
  createSweepTx inputs (scriptInUse s) (uint32 currentHeight) feeRate
  = Ok tx ->
  StoreNotifyPublishTx (cfg s) tx = None ->
  exists w2,
    (exists evs, trace w2 = trace w ++ evs ++ [EvPublishTransaction tx]) /\
    sweep TxHash createSweepTx s w inputs feeRate currentHeight
    = let s1 := setScript s (scriptInUse s) in
      if match PublishTransaction (cfg s) tx with
         | Some e => negb (bool_decide (e = ErrDoubleSpend))
         | None => false
         end
      then (w2, Returns (Some (ErrFmt "publish tx"), s1))
      else
        match reschedule (txIn tx) currentHeight
                (match PublishTransaction (cfg s) tx with
                 | None => setScript s1 None
                 | Some _ => s1
                 end) w2 with
        | (w3, Panics why) => (w3, Panics why)
        | (w3, Returns s3) => (w3, Returns (None, s3))
        end.
Proof.
  intros Hscript Htx Hstore. unfold sweep, scriptInUse in *.
  destruct (currentOutputScript s) as [pkScript |] eqn:Hcached.
  - simpl. rewrite Htx, Hstore. eexists. split; [| reflexivity].
    exists [EvNotifyPublishTx tx None]. simpl. rewrite <- app_assoc.
    reflexivity.
  - destruct (Hscript eq_refl) as [pkScript Hgen]. rewrite Hgen in *.
    simpl. rewrite Htx, Hstore. eexists. split; [| reflexivity].
    exists [EvGenSweepScript; EvNotifyPublishTx tx None]. simpl.
    rewrite <- !app_assoc. reflexivity.
Qed.

(** C6, as amended. Take a call of [sweep] that gets as far as the
    publication: the script is at hand, the transaction is built and the
    store has recorded it.

    If the publisher answers without error or with [DoubleSpend], the
    transaction spends distinct outpoints and the delta function returns
    for the incremented attempt count of each pending input that the
    transaction spends, then [sweep] returns without error, the
    transaction was handed to the publisher, pending inputs that the
    transaction does not spend are untouched, and for each pending input
    that it spends the delta function was asked about the attempt count
    plus one, and either that count has reached [MaxSweepAttempts], the
    input is gone from the pending inputs and [ErrTooManyAttempts] was
    delivered to each of its listeners, or the input stays pending with
    its listeners, the attempt count incremented by one and
    [min_publish_height] set to the current height plus the delta. The
    default delta function answers between 1 and 2^30 (it is 1 plus a
    draw below 2^(attempts-1)), so that with it [min_publish_height] is
    at least the current height plus 1 (heights within int32 range of
    the sum).

    If the publisher answers with any other error, [sweep] returns an
    error after the transaction was handed to the publisher, and the
    pending inputs are untouched: the attempt is not counted. *)
Theorem sweep_retry_accounting (s : UtxoSweeper) (w : World)
    (inputs : list Input) (feeRate currentHeight : Z) (tx : MsgTx) :
  (currentOutputScript s = None ->
   exists pkScript, GenSweepScript (cfg s) = Ok pkScript) ->
  createSweepTx inputs (scriptInUse s) (uint32 currentHeight) feeRate
  = Ok tx ->
  StoreNotifyPublishTx (cfg s) tx = None ->
  ((PublishTransaction (cfg s) tx = None \/
    PublishTransaction (cfg s) tx = Some ErrDoubleSpend) ->
   List.NoDup (outpoints tx) ->
   (forall op pi g,
      In op (outpoints tx) -> pendingInputs s !! op = Some pi ->
      exists d g',
        NextAttemptDeltaFunc (cfg s) (int64 (publishAttempts pi + 1)) g
        = Returns (d, g')) ->
   exists w' s',
     sweep TxHash createSweepTx s w inputs feeRate currentHeight
     = (w', Returns (None, s')) /\
     In (EvPublishTransaction tx) (trace w') /\
     (forall op, ~ In op (outpoints tx) ->
        pendingInputs s' !! op = pendingInputs s !! op) /\
     forall op pi,
       In op (outpoints tx) -> pendingInputs s !! op = Some pi ->
       exists g d g',
         NextAttemptDeltaFunc (cfg s) (int64 (publishAttempts pi + 1)) g
           = Returns (d, g') /\
         (NextAttemptDeltaFunc (cfg s) = DefaultNextAttemptDeltaFunc ->
          1 <= d <= 2 ^ 30) /\
         if MaxSweepAttempts (cfg s) <=? int64 (publishAttempts pi + 1)
         then
           pendingInputs s' !! op = None /\
           forall l, In l (listeners pi) ->
             In (EvResult l {| resErr := Some ErrTooManyAttempts;
                               resTx := None |}) (trace w')
         else
           exists pi',
             pendingInputs s' !! op = Some pi' /\
             listeners pi' = listeners pi /\
             (- 2 ^ 63 <= publishAttempts pi < 2 ^ 63 - 1 ->
              publishAttempts pi' = publishAttempts pi + 1) /\
             minPublishHeight pi' = int32 (currentHeight + d) /\
             (NextAttemptDeltaFunc (cfg s) = DefaultNextAttemptDeltaFunc ->
              - 2 ^ 31 <= currentHeight < 2 ^ 30 ->
              currentHeight + 1 <= minPublishHeight pi')) /\
  (forall e,
     PublishTransaction (cfg s) tx = Some e -> e <> ErrDoubleSpend ->
     exists w' err s',
       sweep TxHash createSweepTx s w inputs feeRate currentHeight
       = (w', Returns (Some err, s')) /\
       In (EvPublishTransaction tx) (trace w') /\
       cfg s' = cfg s /\
       pendingInputs s' = pendingInputs s).
Proof.
  intros Hscript Htx Hstore.
  destruct (sweep_after_store s w inputs feeRate currentHeight tx
              Hscript Htx Hstore) as (w2 & (evs & Htrace) & Hsweep).
  cbv zeta in Hsweep. split.
  - intros Hanswer Hnodup Hdelta.
    set (s2 := match PublishTransaction (cfg s) tx with
               | None => setScript (setScript s (scriptInUse s)) None
               | Some _ => setScript s (scriptInUse s)
               end) in Hsweep.
    assert (Hs2 : cfg s2 = cfg s /\ pendingInputs s2 = pendingInputs s)
      by (subst s2; destruct (PublishTransaction (cfg s) tx); auto).
    destruct Hs2 as [Hcfg Hpend].
    assert (Haccepted : match PublishTransaction (cfg s) tx with
                        | Some e => negb (bool_decide (e = ErrDoubleSpend))
                        | None => false
                        end = false).
    { destruct Hanswer as [-> | ->]; [reflexivity |].
      rewrite bool_decide_eq_true_2 by reflexivity. reflexivity. }
    rewrite Haccepted in Hsweep.
    destruct (reschedule_returns (txIn tx) currentHeight s2 w2) as
      (w' & s' & Hres).
    { exact Hnodup. }
    { intros op pi g Hin Hpi. rewrite Hcfg. rewrite Hpend in Hpi.
      exact (Hdelta op pi g Hin Hpi). }
    rewrite Hres in Hsweep.
    exists w', s'. split; [exact Hsweep |].
    destruct (sweep_returned_accounting _ _ _ _ _ _ _ Hsweep)
      as (tx' & Htx' & Hpublished & _ & Hacc).
    rewrite Htx in Htx'. injection Htx' as <-.
    split; [exact Hpublished |]. split; [| exact (Hacc Hnodup)].
    intros op Hout.
    destruct (reschedule_accounting _ _ _ _ _ _ Hnodup Hres op) as [Hkeep _].
    rewrite (Hkeep Hout), Hpend. reflexivity.
  - intros e Hanswer Hne. rewrite Hanswer in Hsweep.
    rewrite bool_decide_eq_false_2 in Hsweep by exact Hne.
    simpl in Hsweep.
    exists w2, (ErrFmt "publish tx"), (setScript s (scriptInUse s)).
    split; [exact Hsweep |]. split; [| split; reflexivity].
    rewrite Htrace, app_assoc. apply in_or_app. right. left. reflexivity.
Qed.

End RetryAccounting.

(** The sweep of [opA] and [opB] whose publication is answered with
    [DoubleSpend]: the publication comes after the notification of the
    store, and the hash is in the store. *)
Lemma sweep_records_before_publishing_witness :
  exists evs,
    trace (sweepBoth (Some ErrDoubleSpend)).1 = trace world0 ++ evs /\
    notifiedBeforePublished evs /\
    (forall tx, In (EvPublishTransaction tx) evs ->
       In (hashOfTx tx) (storeTxs (sweepBoth (Some ErrDoubleSpend)).1)).
Proof.
  destruct (sweep_records_before_publishing hashOfTx spendAll
              (sweeperAnswering (Some ErrDoubleSpend)) world0
              [inputFor opA; inputFor opB] 11 100
              (sweepBoth (Some ErrDoubleSpend)).1
              (sweepBoth (Some ErrDoubleSpend)).2)
    as (evs & Htrace & Hbefore & Hstore & _).
  - unfold sweepBoth. apply surjective_pairing.
  - exists evs. split; [exact Htrace | split; [exact Hbefore | exact Hstore]].
Defined.

(** Three sweeps of [opA] and [opB] at height 100. With at most 3
    attempts and a publisher that accepts, [sweep] returns and [opA]
    stays pending with one attempt, to be published again from height
    101 on. With at most 1 attempt, [sweep] returns as well, [opA] is no
    longer pending and its listener has received [ErrTooManyAttempts].
    With a publisher that rejects, [sweep] returns an error and the
    pending inputs are what they were. *)
Lemma sweep_retry_accounting_witness :
  (exists w' s' pi',
     sweepBoth None = (w', Returns (None, s')) /\
     pendingInputs s' !! opA = Some pi' /\
     publishAttempts pi' = 1 /\
     101 <= minPublishHeight pi') /\
  (exists w' s',
     sweep hashOfTx spendAll lastAttempt world0
       [inputFor opA; inputFor opB] 11 100 = (w', Returns (None, s')) /\
     pendingInputs s' !! opA = None /\
     In (EvResult 1%nat {| resErr := Some ErrTooManyAttempts;
                           resTx := None |}) (trace w')) /\
  (exists w' err s',
     sweepBoth (Some (ErrFmt "rejected by the mempool"))
     = (w', Returns (Some err, s')) /\
     pendingInputs s' = twoInputs 10 12).
Proof.
  assert (Hdistinct : List.NoDup [opA; opB]).
  { constructor; [| constructor; [| constructor]]; simpl.
    - intros [Heq | []]. discriminate.
    - intros []. }
  assert (Hfirst : forall (op : OutPoint) (pi : pendingInput) (g : RNG),
            In op [opA; opB] ->
            twoInputs 10 12 !! op = Some pi ->
            exists d g',
              DefaultNextAttemptDeltaFunc (int64 (publishAttempts pi + 1)) g
              = Returns (d, g')).
  { intros op pi g [<- | [<- | []]] Hpi; vm_compute in Hpi;
      injection Hpi as <-; eexists _, _; reflexivity. }
  split; [| split].
  - destruct (sweep_retry_accounting hashOfTx spendAll
                (sweeperAnswering None) world0
                [inputFor opA; inputFor opB] 11 100 _
                (fun _ => ex_intro _ _ eq_refl) eq_refl eq_refl)
      as [Haccepted _].
    destruct (Haccepted (or_introl eq_refl) Hdistinct Hfirst)
      as (w' & s' & Hrun & _ & _ & Hacc).
    destruct (Hacc opA (pendingAt opA 10 1%nat) (or_introl eq_refl) eq_refl)
      as (g & d & g' & _ & _ & Hcase).
    change (MaxSweepAttempts (cfg (sweeperAnswering None))
            <=? int64 (publishAttempts (pendingAt opA 10 1%nat) + 1))
      with false in Hcase.
    destruct Hcase as (pi' & Hlook & _ & Hcount & _ & Hheight).
    exists w', s', pi'. split; [exact Hrun |]. split; [exact Hlook |]. split.
    + assert (Hrange : - 2 ^ 63 <= publishAttempts (pendingAt opA 10 1%nat)
                       < 2 ^ 63 - 1) by (simpl; lia).
      exact (Hcount Hrange).
    + assert (Hrange : - 2 ^ 31 <= 100 < 2 ^ 30) by lia.
      exact (Hheight eq_refl Hrange).
  - destruct (sweep_retry_accounting hashOfTx spendAll lastAttempt world0
                [inputFor opA; inputFor opB] 11 100 _
                (fun _ => ex_intro _ _ eq_refl) eq_refl eq_refl)
      as [Haccepted _].
    destruct (Haccepted (or_introl eq_refl) Hdistinct Hfirst)
      as (w' & s' & Hrun & _ & _ & Hacc).
    destruct (Hacc opA (pendingAt opA 10 1%nat) (or_introl eq_refl) eq_refl)
      as (g & d & g' & _ & _ & Hcase).
    change (MaxSweepAttempts (cfg lastAttempt)
            <=? int64 (publishAttempts (pendingAt opA 10 1%nat) + 1))
      with true in Hcase.
    destruct Hcase as [Hgone Htold].
    exists w', s'. split; [exact Hrun |]. split; [exact Hgone |].
    apply Htold. left. reflexivity.
  - destruct (sweep_retry_accounting hashOfTx spendAll
                (sweeperAnswering (Some (ErrFmt "rejected by the mempool")))
                world0 [inputFor opA; inputFor opB] 11 100 _
                (fun _ => ex_intro _ _ eq_refl) eq_refl eq_refl)
      as [_ Hrejected].
    destruct (Hrejected (ErrFmt "rejected by the mempool") eq_refl)
      as (w' & err & s' & Hrun & _ & _ & Hpend).
    { discriminate. }
    exists w', err, s'. split; [exact Hrun | exact Hpend].
Defined.

(** C6, as stated, fails for a publication that the publisher answers
    with an error other than [DoubleSpend]: the transaction spending
    [opA] was handed to [PublishTransaction], [sweep] returns the error,
    and [opA] is still pending with no attempt recorded and its
    [min_publish_height] unchanged. *)
Lemma failed_publication_is_not_counted :
  let publish := Some (ErrFmt "rejected by the mempool") in
  (exists tx, In (EvPublishTransaction tx) (trace (sweepBoth publish).1) /\
              In opA (outpoints tx)) /\
  returnedError (sweepBoth publish).2 = Some (Some (ErrFmt "publish tx")) /\
  pendingInputs (sweeperAfter publish) !! opA
    = Some (pendingAt opA 10 1%nat) /\
  publishAttempts (pendingAt opA 10 1%nat) = 0 /\
  minPublishHeight (pendingAt opA 10 1%nat) = 100.
Proof.
  intros publish. split; [|repeat split; vm_compute; reflexivity].
  eexists. split.
  - vm_compute. right. right. left. reflexivity.
  - vm_compute. left. reflexivity.
Qed.

End SweepProps.

(* ===================================================================== *)
(** * Further properties of the sweeper: clustering *)
(* ===================================================================== *)

Module ClusteringProps.
Import Sweep SweepRuns Collector.

Lemma int64_id (z : Z) : - 2 ^ 63 <= z < 2 ^ 63 -> int64 z = z.
Proof. intros H. unfold int64. rewrite Z.mod_small; lia. Qed.

(** X1. With a positive bucket width [relayFeeRate + FeeRateBucketSize]
    (operands below 2^26, where the floating-point quotient of the code
    is exact), bucket [b] holds exactly the fee rates in
    [((b-1) * width, b * width]], and a higher fee rate never lands in a
    lower bucket. *)
Theorem bucketForFeeRate_interval (s : UtxoSweeper) (feeRate feeRate' : Z) :
  0 <= relayFeeRate s ->
  0 <= FeeRateBucketSize (cfg s) ->
  0 < relayFeeRate s + FeeRateBucketSize (cfg s) < 2 ^ 26 ->
  0 <= feeRate < 2 ^ 26 ->
  let width := relayFeeRate s + FeeRateBucketSize (cfg s) in
  let b := bucketForFeeRate s feeRate in
  (b - 1) * width < feeRate <= b * width /\
  (forall b', (b' - 1) * width < feeRate <= b' * width -> b' = b) /\
  (feeRate <= feeRate' -> b <= bucketForFeeRate s feeRate').
Proof.
  intros Hrelay Hsize Hwidth Hrate width b.
  assert (Hmin : int64 (relayFeeRate s + int64 (FeeRateBucketSize (cfg s)))
                 = width).
  { unfold width. rewrite (int64_id (FeeRateBucketSize (cfg s))) by lia.
    apply int64_id. lia. }
  assert (Hb : forall r, bucketForFeeRate s r = - ((- r) / width)).
  { intros r. unfold bucketForFeeRate, ceilDiv. rewrite Hmin. reflexivity. }
  assert (Hpos : 0 < width) by (unfold width; lia).
  assert (Hspec : forall r x, (x - 1) * width < r <= x * width ->
                              x = - ((- r) / width)).
  { intros r x Hx.
    assert (- x = (- r) / width); [| lia].
    apply (Z.div_unique_pos (- r) width (- x) (x * width - r)); lia. }
  assert (Hin : forall r, (- ((- r) / width) - 1) * width < r
                          <= - ((- r) / width) * width).
  { intros r.
    pose proof (Z.div_mod (- r) width ltac:(lia)) as Hdm.
    pose proof (Z.mod_pos_bound (- r) width Hpos) as Hm.
    nia. }
  split; [| split].
  - unfold b. rewrite Hb. apply Hin.
  - intros b' Hb'. unfold b. rewrite Hb. apply Hspec. exact Hb'.
  - intros Hle. unfold b. rewrite !Hb.
    assert ((- feeRate') / width <= (- feeRate) / width); [| lia].
    apply Z.div_le_mono; lia.
Qed.

Lemma bucketForFeeRate_interval_witness :
  let s := sweeperWith (cfgWith None 3 10) 5 (twoInputs 10 12) in
  (bucketForFeeRate s 16 - 1) * 15 < 16 <= bucketForFeeRate s 16 * 15 /\
  bucketForFeeRate s 16 <= bucketForFeeRate s 31.
Proof.
  intros s.
  destruct (bucketForFeeRate_interval s 16 31) as (Hin & _ & Hmono);
    [simpl; lia | simpl; lia | simpl; lia | lia |].
  split; [exact Hin | apply Hmono; lia].
Defined.

Section Clusters.
Variable DetermineFeePerKw : FeePreference -> result Z.

Lemma clusterStep_clustered (s : UtxoSweeper)
    (pend0 : gmap OutPoint pendingInput) :
  clustered DetermineFeePerKw s pend0
    (map_fold (clusterStep DetermineFeePerKw s) (∅, ∅, pend0) (pendingInputs s))
    (pendingInputs s).
Proof.
  generalize (pendingInputs s). intros m0.
  apply (map_fold_weak_ind
           (fun acc m => clustered DetermineFeePerKw s pend0 acc m)).
  - split; [| split; [| split]]; simpl.
    + intros b op. rewrite lookup_empty. simpl. split; [set_solver |].
      intros (pi & r & H & _). rewrite lookup_empty in H. discriminate.
    + intros b ops H. rewrite lookup_empty in H. discriminate.
    + intros op. rewrite !lookup_empty. reflexivity.
    + intros op. rewrite lookup_empty. reflexivity.
  - intros i x m [[bi fr] pend] Hi (H1 & H2 & H3 & H4). simpl in *.
    unfold clusterStep.
    assert (Hval : validRate DetermineFeePerKw s x =
              match feeRateForPreference DetermineFeePerKw s (feePreference x) with
              | Ok r => Some r | Err _ => None end) by reflexivity.
    fold (feeRateForPreference DetermineFeePerKw s (feePreference x)).
    destruct (feeRateForPreference DetermineFeePerKw s (feePreference x)) as [r | e].
    + set (b0 := bucketForFeeRate s r).
      split; [| split; [| split]]; simpl; [intros b op; split | | |].
      * intros Hop. destruct (decide (b = b0)) as [-> | Hb].
        -- rewrite lookup_insert_eq in Hop. simpl in Hop.
           apply elem_of_union in Hop as [Hop | Hop].
           ++ apply elem_of_singleton in Hop as ->.
              exists x, r. rewrite lookup_insert_eq. auto.
           ++ destruct (proj1 (H1 _ _) Hop) as (pi & r' & Hm & Hv & Hbk).
              exists pi, r'. rewrite lookup_insert_ne by congruence. auto.
        -- rewrite lookup_insert_ne in Hop by congruence.
           destruct (proj1 (H1 _ _) Hop) as (pi & r' & Hm & Hv & Hbk).
           exists pi, r'. rewrite lookup_insert_ne by congruence. auto.
      * intros (pi & r' & Hm & Hv & Hbk).
        destruct (decide (op = i)) as [-> | Hne].
        -- rewrite lookup_insert_eq in Hm. injection Hm as <-.
           rewrite Hval in Hv. injection Hv as <-. fold b0 in Hbk.
           subst b. rewrite lookup_insert_eq. simpl.
           apply elem_of_union_l, elem_of_singleton. reflexivity.
        -- rewrite lookup_insert_ne in Hm by congruence.
           assert (Hin : op ∈ default (∅ : gset OutPoint) (bi !! b))
             by (apply H1; eauto).
           destruct (decide (b = b0)) as [-> | Hb].
           ++ rewrite lookup_insert_eq. simpl.
              apply elem_of_union_r. exact Hin.
           ++ rewrite lookup_insert_ne by congruence. exact Hin.
      * intros b ops Hb. destruct (decide (b = b0)) as [-> | Hne].
        -- rewrite lookup_insert_eq in Hb. injection Hb as <-.
           intros Hempty.
           apply (not_elem_of_empty (C := gset OutPoint) i).
           rewrite <- Hempty.
           apply elem_of_union_l, elem_of_singleton. reflexivity.
        -- rewrite lookup_insert_ne in Hb by congruence. eauto.
      * intros op. destruct (decide (op = i)) as [-> | Hne].
        -- rewrite !lookup_insert_eq. simpl. symmetry. exact Hval.
        -- rewrite !lookup_insert_ne by congruence. apply H3.
      * intros op. destruct (decide (op = i)) as [-> | Hne].
        -- rewrite !lookup_insert_eq. rewrite Hval. reflexivity.
        -- rewrite !lookup_insert_ne by congruence. apply H4.
    + split; [| split; [| split]]; simpl; [intros b op; split | | |].
      * intros Hop. destruct (proj1 (H1 _ _) Hop) as (pi & r' & Hm & Hv & Hbk).
        exists pi, r'. rewrite lookup_insert_ne by congruence. auto.
      * intros (pi & r' & Hm & Hv & Hbk).
        destruct (decide (op = i)) as [-> | Hne].
        -- rewrite lookup_insert_eq in Hm. injection Hm as <-. congruence.
        -- rewrite lookup_insert_ne in Hm by congruence.
           apply H1. eauto.
      * exact H2.
      * intros op. destruct (decide (op = i)) as [-> | Hne].
        -- rewrite lookup_insert_eq. simpl. rewrite Hval, H3, Hi.
           reflexivity.
        -- rewrite lookup_insert_ne by congruence. apply H3.
      * intros op. destruct (decide (op = i)) as [-> | Hne].
        -- rewrite lookup_insert_eq, Hval, H4, Hi. reflexivity.
        -- rewrite lookup_insert_ne by congruence. apply H4.
Qed.

Lemma clusterBySweepFeeRate_unfold (s : UtxoSweeper) :
  let acc := map_fold (clusterStep DetermineFeePerKw s)
                      (∅, ∅, pendingInputs s) (pendingInputs s) in
  clusterBySweepFeeRate DetermineFeePerKw s =
  (map (fun kv => {| sweepFeeRate := averageFeeRate acc.1.2 kv.2;
                     inputs := kv.2 |})
       (map_to_list acc.1.1),
   setPending s acc.2).
Proof.
  unfold clusterBySweepFeeRate.
  destruct (map_fold _ _ _) as [[bi fr] pend]. reflexivity.
Qed.

Lemma In_clusters (fr : gmap OutPoint Z) (bi : gmap Z (gset OutPoint))
    (c : inputCluster) :
  In c (map (fun kv : Z * gset OutPoint =>
               {| sweepFeeRate := averageFeeRate fr kv.2; inputs := kv.2 |})
            (map_to_list bi)) <->
  exists b, bi !! b = Some (inputs c) /\
            sweepFeeRate c = averageFeeRate fr (inputs c).
Proof.
  rewrite in_map_iff. split.
  - intros ([b ops] & <- & Hin). simpl. exists b. split; [| reflexivity].
    apply elem_of_map_to_list. apply list_elem_of_In. exact Hin.
  - intros (b & Hb & Hrate). exists (b, inputs c). simpl. split.
    + destruct c as [r ops]. simpl in *. congruence.
    + apply list_elem_of_In. apply elem_of_map_to_list. exact Hb.
Qed.

(** X2. The clusters of [clusterBySweepFeeRate] partition the pending
    inputs whose fee preference yields a valid fee rate: no cluster is
    empty, an outpoint lies in a cluster exactly when it is pending with
    a valid fee rate, no outpoint lies in two clusters, and two inputs
    share a cluster exactly when their fee rates share a bucket. *)
Theorem clusterBySweepFeeRate_partitions (s : UtxoSweeper) :
  let clusters := (clusterBySweepFeeRate DetermineFeePerKw s).1 in
  (forall c, In c clusters -> inputs c <> ∅) /\
  (forall op, (exists c, In c clusters /\ op ∈ inputs c) <->
     exists pi feeRate, pendingInputs s !! op = Some pi /\
       feeRateForPreference DetermineFeePerKw s (feePreference pi)
       = Ok feeRate) /\
  (forall c1 c2 op, In c1 clusters -> In c2 clusters ->
     op ∈ inputs c1 -> op ∈ inputs c2 -> c1 = c2) /\
  (forall c op1 op2 pi1 pi2 r1 r2, In c clusters -> op1 ∈ inputs c ->
     pendingInputs s !! op1 = Some pi1 ->
     pendingInputs s !! op2 = Some pi2 ->
     feeRateForPreference DetermineFeePerKw s (feePreference pi1) = Ok r1 ->
     feeRateForPreference DetermineFeePerKw s (feePreference pi2) = Ok r2 ->
     (op2 ∈ inputs c <-> bucketForFeeRate s r1 = bucketForFeeRate s r2)).
Proof.
  intros clusters. unfold clusters.
  rewrite clusterBySweepFeeRate_unfold. simpl.
  destruct (clusterStep_clustered s (pendingInputs s)) as (H1 & H2 & _ & _).
  set (acc := map_fold _ _ _) in *.
  assert (Hvalid : forall pi r,
            validRate DetermineFeePerKw s pi = Some r <->
            feeRateForPreference DetermineFeePerKw s (feePreference pi)
            = Ok r).
  { intros pi r. unfold validRate.
    destruct (feeRateForPreference _ _ _); split; congruence. }
  assert (Hmem : forall b ops op, acc.1.1 !! b = Some ops -> op ∈ ops ->
            exists pi r, pendingInputs s !! op = Some pi /\
              validRate DetermineFeePerKw s pi = Some r /\
              bucketForFeeRate s r = b).
  { intros b ops op Hb Hop. apply H1. rewrite Hb. exact Hop. }
  split; [| split; [| split]].
  - intros c Hc. apply In_clusters in Hc as (b & Hb & _). eauto.
  - intros op. split.
    + intros (c & Hc & Hop). apply In_clusters in Hc as (b & Hb & _).
      destruct (Hmem _ _ _ Hb Hop) as (pi & r & Hpi & Hr & _).
      exists pi, r. split; [exact Hpi | apply Hvalid; exact Hr].
    + intros (pi & r & Hpi & Hr). apply Hvalid in Hr.
      assert (Hin : op ∈ default (∅ : gset OutPoint)
                         (acc.1.1 !! bucketForFeeRate s r))
        by (apply H1; eauto).
      destruct (acc.1.1 !! bucketForFeeRate s r) as [ops |] eqn:Hb;
        [| simpl in Hin; set_solver].
      exists {| sweepFeeRate := averageFeeRate acc.1.2 ops; inputs := ops |}.
      split; [| exact Hin]. apply In_clusters. simpl. eauto.
  - intros c1 c2 op Hc1 Hc2 Hop1 Hop2.
    apply In_clusters in Hc1 as (b1 & Hb1 & Hr1).
    apply In_clusters in Hc2 as (b2 & Hb2 & Hr2).
    destruct (Hmem _ _ _ Hb1 Hop1) as (pi & r & Hpi & Hr & Hbk).
    destruct (Hmem _ _ _ Hb2 Hop2) as (pi' & r' & Hpi' & Hr' & Hbk').
    assert (b1 = b2) by congruence. subst b2.
    destruct c1 as [f1 i1], c2 as [f2 i2]. simpl in *.
    assert (i1 = i2) by congruence. subst i2. congruence.
  - intros c op1 op2 pi1 pi2 r1 r2 Hc Hop1 Hpi1 Hpi2 Hr1 Hr2.
    apply In_clusters in Hc as (b & Hb & _).
    destruct (Hmem _ _ _ Hb Hop1) as (pi & r & Hpi & Hr & Hbk).
    apply Hvalid in Hr. assert (pi = pi1) by congruence. subst pi.
    assert (r = r1) by congruence. subst r.
    split.
    + intros Hop2. destruct (Hmem _ _ _ Hb Hop2) as (pi & r & Hpi' & Hr' & Hbk').
      apply Hvalid in Hr'. assert (pi = pi2) by congruence. subst pi.
      congruence.
    + intros Heq.
      assert (Hin : op2 ∈ default (∅ : gset OutPoint) (acc.1.1 !! b)).
      { apply H1. exists pi2, r2. split; [exact Hpi2 |].
        split; [apply Hvalid; exact Hr2 | congruence]. }
      rewrite Hb in Hin. exact Hin.
Qed.

(** The pending inputs after [clusterBySweepFeeRate]. *)
Lemma clusterBySweepFeeRate_pending (s : UtxoSweeper) :
  pendingInputs (clusterBySweepFeeRate DetermineFeePerKw s).2 =
  (fun pi =>
     match feeRateForPreference DetermineFeePerKw s (feePreference pi) with
     | Ok feeRate => setLastFeeRate pi feeRate
     | Err _ => pi
     end) <$> pendingInputs s.
Proof.
  rewrite clusterBySweepFeeRate_unfold. simpl.
  destruct (clusterStep_clustered s (pendingInputs s)) as (_ & _ & _ & H4).
  apply map_eq. intros op. rewrite H4, lookup_fmap. unfold validRate.
  destruct (pendingInputs s !! op) as [pi |] eqn:Hpi; simpl;
    [| reflexivity].
  destruct (feeRateForPreference _ _ _); reflexivity.
Qed.

Lemma clusterBySweepFeeRate_fields (s : UtxoSweeper) :
  let s' := (clusterBySweepFeeRate DetermineFeePerKw s).2 in
  cfg s' = cfg s /\ newInputs s' = newInputs s /\
  currentOutputScript s' = currentOutputScript s /\
  relayFeeRate s' = relayFeeRate s.
Proof.
  rewrite clusterBySweepFeeRate_unfold. simpl. auto.
Qed.

(** X3. [clusterBySweepFeeRate] changes nothing in the sweeper but the
    field [lastFeeRate] of the pending inputs with a valid fee rate,
    which it sets to that fee rate; no input is added or dropped. *)
Theorem clusterBySweepFeeRate_writes_lastFeeRate (s : UtxoSweeper) :
  let s' := (clusterBySweepFeeRate DetermineFeePerKw s).2 in
  cfg s' = cfg s /\ newInputs s' = newInputs s /\
  currentOutputScript s' = currentOutputScript s /\
  relayFeeRate s' = relayFeeRate s /\
  forall op,
    pendingInputs s' !! op =
    (fun pi =>
       match feeRateForPreference DetermineFeePerKw s (feePreference pi) with
       | Ok feeRate => setLastFeeRate pi feeRate
       | Err _ => pi
       end) <$> pendingInputs s !! op.
Proof.
  intros s'. unfold s'.
  destruct (clusterBySweepFeeRate_fields s) as (H1 & H2 & H3 & H4).
  repeat (split; [assumption |]).
  intros op. rewrite clusterBySweepFeeRate_pending, lookup_fmap.
  reflexivity.
Qed.

Lemma sum_of_rates_bounds (fr : gmap OutPoint Z) (lo hi : Z)
    (ops : list OutPoint) :
  0 <= lo ->
  (forall op, In op ops -> exists r, fr !! op = Some r /\ lo <= r <= hi) ->
  Z.of_nat (length ops) * hi < 2 ^ 63 ->
  Z.of_nat (length ops) * lo
  <= foldr (fun op acc => int64 (acc + default 0 (fr !! op))) 0 ops
  <= Z.of_nat (length ops) * hi.
Proof.
  intros Hlo. induction ops as [| op ops IH]; intros Hall Hlen.
  - simpl. lia.
  - destruct (Hall op (or_introl eq_refl)) as (r & Hr & Hbound).
    assert (Hlen' : Z.of_nat (length ops) * hi < 2 ^ 63).
    { simpl length in Hlen. nia. }
    specialize (IH (fun op' H => Hall op' (or_intror H)) Hlen').
    simpl foldr. rewrite Hr. simpl default.
    simpl length in *.
    rewrite int64_id by nia. nia.
Qed.

(** X4. When the relay fee rate is not negative and the fee rates cannot
    overflow their sum, the sweep fee rate of every cluster lies between
    the relay fee rate and [MaxFeeRate], and within any bounds that hold
    for the fee rates of all of its inputs; in particular it lies in the
    fee rate bucket of the cluster. *)
Theorem cluster_sweepFeeRate_bounds (s : UtxoSweeper) (c : inputCluster)
    (lo hi : Z) :
  0 <= relayFeeRate s ->
  Z.of_nat (size (pendingInputs s)) * MaxFeeRate (cfg s) < 2 ^ 63 ->
  In c (clusterBySweepFeeRate DetermineFeePerKw s).1 ->
  0 <= lo ->
  (forall op pi feeRate, op ∈ inputs c ->
     pendingInputs s !! op = Some pi ->
     feeRateForPreference DetermineFeePerKw s (feePreference pi)
     = Ok feeRate ->
     lo <= feeRate <= hi) ->
  relayFeeRate s <= sweepFeeRate c <= MaxFeeRate (cfg s) /\
  lo <= sweepFeeRate c <= hi.
Proof.
  intros Hrelay Hsum Hc Hlo Hbounds.
  rewrite clusterBySweepFeeRate_unfold in Hc. simpl in Hc.
  destruct (clusterStep_clustered s (pendingInputs s)) as (H1 & H2 & H3 & _).
  set (acc := map_fold _ _ _) in *.
  apply In_clusters in Hc as (b & Hb & Hrate).
  assert (Hmem : forall op, op ∈ inputs c ->
            exists pi r, pendingInputs s !! op = Some pi /\
              feeRateForPreference DetermineFeePerKw s (feePreference pi)
              = Ok r /\ acc.1.2 !! op = Some r).
  { intros op Hop.
    assert (Hin : op ∈ default (∅ : gset OutPoint) (acc.1.1 !! b))
      by (rewrite Hb; exact Hop).
    apply H1 in Hin as (pi & r & Hpi & Hr & _).
    exists pi, r. split; [exact Hpi |]. split.
    - unfold validRate in Hr.
      destruct (feeRateForPreference _ _ _); congruence.
    - rewrite H3, Hpi. exact Hr. }
  assert (Hsize : (size (inputs c) <= size (pendingInputs s))%nat).
  { rewrite <- (size_dom (D := gset OutPoint) (pendingInputs s)).
    apply subseteq_size. intros op Hop.
    destruct (Hmem op Hop) as (pi & _ & Hpi & _).
    apply elem_of_dom. eauto. }
  assert (Hne : (0 < size (inputs c))%nat).
  { destruct (decide (size (inputs c) = 0%nat)) as [H0 |]; [| lia].
    apply size_empty_inv in H0. exfalso. apply (H2 b (inputs c) Hb).
    apply leibniz_equiv. exact H0. }
  set (lo' := Z.max lo (relayFeeRate s)).
  set (hi' := Z.min hi (MaxFeeRate (cfg s))).
  assert (Hall : forall op, In op (elements (inputs c)) ->
            exists r, acc.1.2 !! op = Some r /\ lo' <= r <= hi').
  { intros op Hop. apply list_elem_of_In, elem_of_elements in Hop.
    destruct (Hmem op Hop) as (pi & r & Hpi & Hr & Hfr).
    exists r. split; [exact Hfr |].
    pose proof (Hbounds op pi r Hop Hpi Hr) as Hb1.
    unfold feeRateForPreference in Hr.
    destruct (DetermineFeePerKw (feePreference pi)) as [r0 | ];
      [| discriminate].
    destruct (r0 <? relayFeeRate s) eqn:E1; [discriminate |].
    destruct (MaxFeeRate (cfg s) <? r0) eqn:E2; [discriminate |].
    injection Hr as ->. unfold lo', hi'. lia. }
  assert (Hnonempty : exists op, op ∈ inputs c).
  { apply set_choose_L. eauto. }
  destruct Hnonempty as (op0 & Hop0).
  assert (Hlohi : lo' <= hi' /\ hi' <= MaxFeeRate (cfg s)).
  { destruct (Hall op0) as (r & _ & Hr);
      [apply list_elem_of_In, elem_of_elements; exact Hop0 |].
    unfold hi' in *. lia. }
  assert (Hlen : Z.of_nat (length (elements (inputs c))) * hi' < 2 ^ 63).
  { change (length (elements (inputs c))) with (size (inputs c)).
    assert (0 <= lo') by (unfold lo'; lia). nia. }
  pose proof (sum_of_rates_bounds acc.1.2 lo' hi' (elements (inputs c))
                ltac:(unfold lo'; lia) Hall Hlen) as Hsumb.
  assert (Hgoal : lo' <= sweepFeeRate c <= hi').
  { rewrite Hrate. unfold averageFeeRate, set_fold. simpl.
    change (length (elements (inputs c))) with (size (inputs c)) in Hsumb.
    set (sum := foldr _ 0 (elements (inputs c))) in *.
    set (n := Z.of_nat (size (inputs c))) in *.
    assert (0 < n) by (unfold n; lia).
    assert (0 <= lo') by (unfold lo'; lia).
    rewrite Z.quot_div_nonneg by nia.
    split.
    - apply Z.div_le_lower_bound; lia.
    - apply Z.div_le_upper_bound; lia. }
  unfold lo', hi' in *. split; lia.
Qed.

End Clusters.

Lemma cluster_sweepFeeRate_bounds_witness :
  let s := sweeperWith (cfgWith None 3 10) 5 (twoInputs 10 12) in
  let c := {| sweepFeeRate := 11; inputs := {[ opA; opB ]} |} in
  5 <= sweepFeeRate c <= DefaultMaxFeeRate /\
  10 <= sweepFeeRate c <= 12.
Proof.
  intros s c.
  apply (cluster_sweepFeeRate_bounds absoluteFeeRate s c 10 12).
  - simpl. lia.
  - vm_compute. reflexivity.
  - vm_compute. left. reflexivity.
  - lia.
  - intros op pi feeRate Hop Hpi Hrate.
    apply elem_of_union in Hop as [Hop | Hop];
      apply elem_of_singleton in Hop; subst op;
      vm_compute in Hpi; injection Hpi as <-;
      vm_compute in Hrate; injection Hrate as <-; lia.
Defined.

End ClusteringProps.

(* ===================================================================== *)
(** * Further properties of the sweeper: results, retries, the main loop *)
(* ===================================================================== *)

Module SweeperLoopProps.
Import Sweep SweepRuns Collector.

Lemma deliveries_app (a b : list event) :
  deliveries (a ++ b) = deliveries a ++ deliveries b.
Proof. apply omap_app. Qed.

Lemma cancellations_app (a b : list event) :
  cancellations (a ++ b) = cancellations a ++ cancellations b.
Proof. apply omap_app. Qed.

Lemma deliveries_results (res : Result) (chans : list ResultChan) :
  deliveries (map (fun c => EvResult c res) chans)
  = map (fun c => (c, res)) chans.
Proof. induction chans as [| c chans IH]; simpl; congruence. Qed.

Lemma cancellations_results (res : Result) (chans : list ResultChan) :
  cancellations (map (fun c => EvResult c res) chans) = [].
Proof. induction chans as [| c chans IH]; simpl; congruence. Qed.

Lemma results_are_signals (res : Result) (chans : list ResultChan) :
  Forall (fun e => isSignal e = true) (map (fun c => EvResult c res) chans).
Proof. induction chans; simpl; constructor; auto. Qed.

(** What [signalAndRemove] does to a pending input. *)
Lemma signalAndRemove_pending (s : UtxoSweeper) (w : World) (op : OutPoint)
    (res : Result) (pi : pendingInput) :
  pendingInputs s !! op = Some pi ->
  exists w' evs,
    signalAndRemove s w op res
    = Returns (setPending s (delete op (pendingInputs s)), w') /\
    trace w' = trace w ++ evs /\
    storeTxs w' = storeTxs w /\ rng w' = rng w /\
    Forall (fun e => isSignal e = true) evs /\
    deliveries evs = map (fun c => (c, res)) (listeners pi) /\
    cancellations evs = match ntfnRegCancel pi with
                        | Some cancel => [cancel]
                        | None => []
                        end.
Proof.
  intros Hpi. unfold signalAndRemove. rewrite Hpi.
  destruct (ntfnRegCancel pi) as [cancel |]; simpl.
  - eexists _, _. split; [reflexivity |]. simpl.
    rewrite <- app_assoc. split; [reflexivity |].
    split; [reflexivity |]. split; [reflexivity |]. split.
    + apply Forall_app. split; [apply results_are_signals |].
      constructor; [reflexivity | constructor].
    + rewrite deliveries_app, cancellations_app, deliveries_results,
        cancellations_results. simpl. rewrite app_nil_r. auto.
  - eexists _, _. split; [reflexivity |]. simpl.
    split; [reflexivity |]. split; [reflexivity |]. split; [reflexivity |].
    split; [apply results_are_signals |].
    rewrite deliveries_results, cancellations_results. auto.
Qed.

(** X5. [signalAndRemove] on a pending outpoint sends the result exactly
    once to each listener of the input, in the order of their
    registration, and to nobody else, cancels the spend notification of
    the input if it has one, and removes the input from the pending
    inputs, leaving every other pending input as it is. *)
Theorem signalAndRemove_delivers_once (s : UtxoSweeper) (w : World)
    (op : OutPoint) (res : Result) (pi : pendingInput) :
  pendingInputs s !! op = Some pi ->
  exists s' w' evs,
    signalAndRemove s w op res = Returns (s', w') /\
    trace w' = trace w ++ evs /\
    deliveries evs = map (fun c => (c, res)) (listeners pi) /\
    cancellations evs = match ntfnRegCancel pi with
                        | Some cancel => [cancel]
                        | None => []
                        end /\
    pendingInputs s' !! op = None /\
    (forall op', op' <> op ->
       pendingInputs s' !! op' = pendingInputs s !! op').
Proof.
  intros Hpi.
  destruct (signalAndRemove_pending s w op res pi Hpi)
    as (w' & evs & Hrun & Htrace & _ & _ & _ & Hdel & Hcan).
  exists (setPending s (delete op (pendingInputs s))), w', evs.
  split; [exact Hrun |]. split; [exact Htrace |].
  split; [exact Hdel |]. split; [exact Hcan |]. simpl. split.
  - apply lookup_delete_eq.
  - intros op' Hne. apply lookup_delete_ne. congruence.
Qed.

Lemma signalAndRemove_delivers_once_witness :
  exists s' w' evs,
    signalAndRemove (sweeperAnswering None) world0 opA
      {| resErr := Some ErrRemoteSpend; resTx := None |} = Returns (s', w') /\
    trace w' = trace world0 ++ evs /\
    deliveries evs
    = [(1%nat, {| resErr := Some ErrRemoteSpend; resTx := None |})] /\
    cancellations evs = [1%nat] /\
    pendingInputs s' !! opA = None /\
    (forall op', op' <> opA ->
       pendingInputs s' !! op' = pendingInputs (sweeperAnswering None) !! op').
Proof.
  apply (signalAndRemove_delivers_once (sweeperAnswering None) world0 opA
           {| resErr := Some ErrRemoteSpend; resTx := None |}
           (pendingAt opA 10 1%nat)).
  reflexivity.
Defined.

(** The default delta function on an attempt count between 1 and 31. *)
Lemma DefaultNextAttemptDeltaFunc_returns (attempts : Z) (g : RNG) :
  1 <= attempts <= 31 ->
  DefaultNextAttemptDeltaFunc attempts g
  = Returns (1 + g 0%nat mod 2 ^ (attempts - 1), fun i => g (S i)).
Proof.
  intros Hrange. unfold DefaultNextAttemptDeltaFunc, Int31n, uint64.
  rewrite (Z.mod_small (attempts - 1)) by lia.
  destruct (Z.leb_spec 32 (attempts - 1)); [lia |].
  rewrite Z.shiftl_1_l.
  assert (Hpow : 1 <= 2 ^ (attempts - 1) <= 2 ^ 30).
  { split; [apply (Z.pow_le_mono_r 2 0); lia
           | apply Z.pow_le_mono_r; lia]. }
  rewrite SweepProps.int32_small by lia.
  destruct (Z.leb_spec (2 ^ (attempts - 1)) 0); [lia |].
  simpl.
  pose proof (Z.mod_pos_bound (g 0%nat) (2 ^ (attempts - 1))).
  rewrite SweepProps.int32_small by lia. reflexivity.
Qed.

(** X6. [DefaultNextAttemptDeltaFunc] panics exactly when the attempt
    count is outside 1..31 (the argument of [rand.Int31n] is then zero
    or negative); within that range it returns 1 plus a draw below
    [2^(attempts-1)]. *)
Theorem DefaultNextAttemptDeltaFunc_panics_outside_1_31 (attempts : Z)
    (g : RNG) :
  - 2 ^ 63 <= attempts < 2 ^ 63 ->
  ((exists why, DefaultNextAttemptDeltaFunc attempts g = Panics why) <->
   attempts < 1 \/ 31 < attempts) /\
  (1 <= attempts <= 31 ->
   exists d g', DefaultNextAttemptDeltaFunc attempts g = Returns (d, g') /\
                1 <= d <= 2 ^ (attempts - 1)).
Proof.
  intros Hint. split; [split |].
  - intros (why & Hpanic).
    destruct (Z.ltb_spec attempts 1); [lia |].
    destruct (Z.ltb_spec 31 attempts); [lia |].
    rewrite DefaultNextAttemptDeltaFunc_returns in Hpanic by lia.
    discriminate.
  - intros Hout.
    destruct (DefaultNextAttemptDeltaFunc attempts g) as [[d g'] | why] eqn:E;
      [| eauto].
    apply SweepProps.DefaultNextAttemptDeltaFunc_bounds in E; [lia | exact Hint].
  - intros Hin. rewrite DefaultNextAttemptDeltaFunc_returns by exact Hin.
    eexists _, _. split; [reflexivity |].
    assert (0 < 2 ^ (attempts - 1)) by (apply Z.pow_pos_nonneg; lia).
    pose proof (Z.mod_pos_bound (g 0%nat) (2 ^ (attempts - 1))). lia.
Qed.

Lemma DefaultNextAttemptDeltaFunc_panics_outside_1_31_witness :
  (exists why, DefaultNextAttemptDeltaFunc 32 (fun _ => 5) = Panics why) /\
  (exists d g', DefaultNextAttemptDeltaFunc 3 (fun _ => 5) = Returns (d, g') /\
                1 <= d <= 2 ^ (3 - 1)).
Proof.
  split.
  - apply (DefaultNextAttemptDeltaFunc_panics_outside_1_31 32 (fun _ => 5));
      lia.
  - apply (DefaultNextAttemptDeltaFunc_panics_outside_1_31 3 (fun _ => 5));
      lia.
Defined.

(** The rescheduling loop sends results and cancels notifications, and
    makes no other call. *)
Lemma reschedule_signals (ins : list TxIn) (h : Z) :
  forall (s : UtxoSweeper) (w w' : World) (o : outcome UtxoSweeper),
  reschedule ins h s w = (w', o) ->
  exists evs, trace w' = trace w ++ evs /\
              Forall (fun e => isSignal e = true) evs.
Proof.
  induction ins as [| input rest IH]; intros s w w' o; simpl.
  - intros [= <- <-]. exists []. rewrite app_nil_r. auto.
  - destruct (pendingInputs s !! PreviousOutPoint input) as [pi0 |] eqn:Hpi0;
      [| apply IH].
    destruct (NextAttemptDeltaFunc (cfg s) _ (rng w)) as [[d g'] | why].
    2:{ intros [= <- <-]. exists []. rewrite app_nil_r. auto. }
    set (pi' := recordAttempt pi0 _ _).
    set (s1 := setPending s _).
    destruct (MaxSweepAttempts (cfg s) <=? _).
    + destruct (signalAndRemove_pending s1 (setRng g' w)
                  (PreviousOutPoint input)
                  {| resErr := Some ErrTooManyAttempts; resTx := None |} pi')
        as (w2 & evs & Hrun & Htrace & _ & _ & Hsig & _).
      { unfold s1. simpl. apply lookup_insert_eq. }
      rewrite Hrun. intros Hrest.
      destruct (IH _ _ _ _ Hrest) as (evs' & Htrace' & Hsig').
      exists (evs ++ evs'). split.
      * rewrite Htrace', Htrace. simpl. apply eq_sym, app_assoc.
      * apply Forall_app. auto.
    + intros Hrest. destruct (IH _ _ _ _ Hrest) as (evs' & Htrace' & Hsig').
      exists evs'. auto.
Qed.

(** The rescheduling loop keeps the listeners, the input, the fee
    preference and the last fee rate of every pending input, adds no
    input, and leaves alone the outpoints that it is not given. *)
Lemma reschedule_preserves (ins : list TxIn) (h : Z) :
  forall (s : UtxoSweeper) (w w' : World) (s' : UtxoSweeper),
  reschedule ins h s w = (w', Returns s') ->
  cfg s' = cfg s /\ newInputs s' = newInputs s /\
  relayFeeRate s' = relayFeeRate s /\
  (forall op pi', pendingInputs s' !! op = Some pi' ->
     exists pi, pendingInputs s !! op = Some pi /\ rescheduled pi pi') /\
  (forall op, ~ In op (map PreviousOutPoint ins) ->
     pendingInputs s' !! op = pendingInputs s !! op).
Proof.
  induction ins as [| input rest IH]; intros s w w' s'; simpl.
  - intros [= <- <-]. repeat (split; [reflexivity |]). split.
    + intros op pi' Hpi'. exists pi'. unfold rescheduled. auto 10.
    + reflexivity.
  - destruct (pendingInputs s !! PreviousOutPoint input) as [pi0 |] eqn:Hpi0.
    2:{ intros Hrest.
        destruct (IH _ _ _ _ Hrest) as (H1 & H2 & H3 & H4 & H5).
        split; [exact H1 |]. split; [exact H2 |]. split; [exact H3 |].
        split; [exact H4 |].
        intros op Hop. apply H5. tauto. }
    destruct (NextAttemptDeltaFunc (cfg s) _ (rng w)) as [[d g'] | why];
      [| discriminate].
    set (pi1 := recordAttempt pi0 _ _).
    set (s1 := setPending s _).
    assert (Hstep : forall s2,
              cfg s2 = cfg s -> newInputs s2 = newInputs s ->
              relayFeeRate s2 = relayFeeRate s ->
              (forall op pi', pendingInputs s2 !! op = Some pi' ->
                 exists pi, pendingInputs s !! op = Some pi /\
                            rescheduled pi pi') ->
              (forall op, op <> PreviousOutPoint input ->
                 pendingInputs s2 !! op = pendingInputs s !! op) ->
              forall w2, reschedule rest h s2 w2 = (w', Returns s') ->
              cfg s' = cfg s /\ newInputs s' = newInputs s /\
              relayFeeRate s' = relayFeeRate s /\
              (forall op pi', pendingInputs s' !! op = Some pi' ->
                 exists pi, pendingInputs s !! op = Some pi /\
                            rescheduled pi pi') /\
              (forall op,
                 ~ (PreviousOutPoint input = op \/
                    In op (map PreviousOutPoint rest)) ->
                 pendingInputs s' !! op = pendingInputs s !! op)).
    { intros s2 Hc Hn Hr Hfrom Hother w2 Hrest.
      destruct (IH _ _ _ _ Hrest) as (H1 & H2 & H3 & H4 & H5).
      split; [congruence |]. split; [congruence |]. split; [congruence |].
      split.
      - intros op pi' Hpi'. destruct (H4 op pi' Hpi') as (pi2 & Hpi2 & Hr2).
        destruct (Hfrom op pi2 Hpi2) as (pi & Hpi & Hr1).
        exists pi. split; [exact Hpi |].
        unfold rescheduled in *. intuition congruence.
      - intros op Hop. rewrite H5 by tauto. apply Hother.
        intros ->. tauto. }
    assert (Hfrom1 : forall op pi',
              pendingInputs s1 !! op = Some pi' ->
              exists pi, pendingInputs s !! op = Some pi /\
                         rescheduled pi pi').
    { intros op pi'. unfold s1. simpl.
      destruct (decide (op = PreviousOutPoint input)) as [-> | Hne].
      - rewrite lookup_insert_eq. intros [= <-]. exists pi0.
        split; [exact Hpi0 |]. unfold rescheduled. simpl. auto 10.
      - rewrite lookup_insert_ne by congruence. intros Hpi'.
        exists pi'. unfold rescheduled. auto 10. }
    destruct (MaxSweepAttempts (cfg s) <=? _).
    + destruct (signalAndRemove_pending s1 (setRng g' w)
                  (PreviousOutPoint input)
                  {| resErr := Some ErrTooManyAttempts; resTx := None |} pi1)
        as (w2 & evs & Hrun & _).
      { unfold s1. simpl. apply lookup_insert_eq. }
      rewrite Hrun. apply Hstep; try reflexivity.
      * intros op pi'. simpl.
        destruct (decide (op = PreviousOutPoint input)) as [-> | Hne].
        -- rewrite lookup_delete_eq. discriminate.
        -- rewrite lookup_delete_ne by congruence. apply Hfrom1.
      * intros op Hne. simpl.
        rewrite lookup_delete_ne, lookup_insert_ne by congruence.
        reflexivity.
    + apply Hstep; try reflexivity.
      * exact Hfrom1.
      * intros op Hne. unfold s1. simpl.
        rewrite lookup_insert_ne by congruence. reflexivity.
Qed.

(** Under the default delta function the rescheduling loop panics when
    it is given a pending input with 31 or more attempts. *)
Lemma reschedule_panics_after_31_attempts (ins : list TxIn) (h : Z) :
  forall (s : UtxoSweeper) (w : World) (txin : TxIn) (pi : pendingInput),
  NextAttemptDeltaFunc (cfg s) = DefaultNextAttemptDeltaFunc ->
  In txin ins ->
  pendingInputs s !! PreviousOutPoint txin = Some pi ->
  31 <= publishAttempts pi < 2 ^ 63 - 1 ->
  exists w' why, reschedule ins h s w = (w', Panics why).
Proof.
  induction ins as [| input rest IH]; intros s w txin pi Hdef Hin Hpi Hatt;
    [destruct Hin |].
  simpl.
  destruct (pendingInputs s !! PreviousOutPoint input) as [pi0 |] eqn:Hpi0.
  2:{ destruct Hin as [-> | Hin]; [congruence |]. eapply IH; eauto. }
  rewrite Hdef.
  destruct (DefaultNextAttemptDeltaFunc (int64 (publishAttempts pi0 + 1))
              (rng w)) as [[d g'] | why] eqn:Hd; [| eauto].
  apply SweepProps.DefaultNextAttemptDeltaFunc_bounds in Hd as [Hr _];
    [| apply SweepProps.int64_range].
  assert (Hne : PreviousOutPoint txin <> PreviousOutPoint input).
  { intros Heq. rewrite Heq in Hpi.
    assert (pi0 = pi) by congruence. subst pi0.
    rewrite SweepProps.int64_small in Hr by lia. lia. }
  assert (Hin' : In txin rest).
  { destruct Hin as [-> | H]; [congruence | exact H]. }
  set (pi1 := recordAttempt pi0 _ _).
  set (s1 := setPending s _).
  destruct (MaxSweepAttempts (cfg s) <=? _).
  - destruct (signalAndRemove_pending s1 (setRng g' w)
                (PreviousOutPoint input)
                {| resErr := Some ErrTooManyAttempts; resTx := None |} pi1)
      as (w2 & evs & Hrun & _).
    { unfold s1. simpl. apply lookup_insert_eq. }
    rewrite Hrun. apply (IH _ _ txin pi); auto. simpl.
    rewrite lookup_delete_ne, lookup_insert_ne by congruence. exact Hpi.
  - apply (IH _ _ txin pi); auto. unfold s1. simpl.
    rewrite lookup_insert_ne by congruence. exact Hpi.
Qed.

(** The script that the first step of [sweep] settles on. *)
Lemma script_settled (s : UtxoSweeper) (w w0 : World)
    (pk : option Script) :
  match currentOutputScript s with
  | None => (GenSweepScript (cfg s), log [EvGenSweepScript] w)
  | Some pkScript => (Ok (Some pkScript), w)
  end = (Ok pk, w0) ->
  pk = scriptInUse s.
Proof.
  unfold scriptInUse. destruct (currentOutputScript s) as [sc |].
  - intros [= <- _]. reflexivity.
  - intros [= -> _]. reflexivity.
Qed.

Lemma script_not_settled (s : UtxoSweeper) (w w0 : World) (e : error) :
  match currentOutputScript s with
  | None => (GenSweepScript (cfg s), log [EvGenSweepScript] w)
  | Some pkScript => (Ok (Some pkScript), w)
  end = (Err e, w0) ->
  scriptInUse s = None.
Proof.
  unfold scriptInUse. destruct (currentOutputScript s) as [sc |];
    [discriminate |].
  intros [= -> _]. reflexivity.
Qed.

Local Ltac sweep_unchanged :=
  split; [reflexivity |]; split; [reflexivity |]; split; [reflexivity |];
  split; [intros _; reflexivity |]; split;
  [ intros op pi' Hpi'; exists pi'; split; [exact Hpi' | auto]
  | intros; reflexivity ].

Section SweepCalls.
Variable TxHash : MsgTx -> Hash.
Variable createSweepTx :
  list Input -> option Script -> Z -> Z -> result MsgTx.

(** X7. Under [DefaultNextAttemptDeltaFunc], whatever [MaxSweepAttempts]
    is, [sweep] panics when the transaction it built and published (the
    publisher answering without error or with [DoubleSpend]) spends a
    pending input that has been published 31 times or more: the delta
    function is asked before the attempt count is compared with
    [MaxSweepAttempts]. The transaction has been handed to the publisher
    by then. *)
Theorem sweep_panics_after_31_attempts (s : UtxoSweeper) (w : World)
    (inputs : list Input) (feeRate currentHeight : Z) (tx : MsgTx)
    (txin : TxIn) (pi : pendingInput) :
  NextAttemptDeltaFunc (cfg s) = DefaultNextAttemptDeltaFunc ->
  (currentOutputScript s = None ->
   exists pkScript, GenSweepScript (cfg s) = Ok pkScript) ->
  createSweepTx inputs (scriptInUse s) (uint32 currentHeight) feeRate
  = Ok tx ->
  StoreNotifyPublishTx (cfg s) tx = None ->
  (PublishTransaction (cfg s) tx = None \/
   PublishTransaction (cfg s) tx = Some ErrDoubleSpend) ->
  In txin (txIn tx) ->
  pendingInputs s !! PreviousOutPoint txin = Some pi ->
  31 <= publishAttempts pi < 2 ^ 63 - 1 ->
  exists w' why,
    sweep TxHash createSweepTx s w inputs feeRate currentHeight
    = (w', Panics why) /\
    In (EvPublishTransaction tx) (trace w').
Proof.
  intros Hdef Hgen Hcreate Hnotify Hpublish Hin Hpi Hatt.
  unfold sweep.
  assert (Hscript : exists w0,
            match currentOutputScript s with
            | None => (GenSweepScript (cfg s), log [EvGenSweepScript] w)
            | Some pkScript => (Ok (Some pkScript), w)
            end = (Ok (scriptInUse s), w0)).
  { unfold scriptInUse. destruct (currentOutputScript s) as [sc |].
    - eauto.
    - destruct (Hgen eq_refl) as (sc & Hsc). rewrite Hsc. eauto. }
  destruct Hscript as (w0 & ->).
  change (currentOutputScript (setScript s (scriptInUse s)))
    with (scriptInUse s).
  rewrite Hcreate, Hnotify.
  set (w2 := log [EvPublishTransaction tx] _).
  assert (Hrun : forall s2,
            cfg s2 = cfg s -> pendingInputs s2 = pendingInputs s ->
            exists w' why,
              reschedule (txIn tx) currentHeight s2 w2 = (w', Panics why) /\
              In (EvPublishTransaction tx) (trace w')).
  { intros s2 Hcfg Hpend.
    destruct (reschedule_panics_after_31_attempts (txIn tx) currentHeight
                s2 w2 txin pi) as (w' & why & Hrun); try congruence.
    exists w', why. split; [exact Hrun |].
    apply reschedule_signals in Hrun as (evs & -> & _).
    apply in_or_app. left. unfold w2. simpl.
    apply in_or_app. right. left. reflexivity. }
  destruct Hpublish as [Hp | Hp]; rewrite Hp.
  - destruct (Hrun (setScript (setScript s (scriptInUse s)) None))
      as (w' & why & -> & Hin'); [reflexivity | reflexivity |]. eauto.
  - rewrite bool_decide_eq_true_2 by reflexivity. simpl.
    destruct (Hrun (setScript s (scriptInUse s)))
      as (w' & why & -> & Hin'); [reflexivity | reflexivity |]. eauto.
Qed.

(** X8. A call of [sweep] that returns leaves the configuration, the
    queue of new inputs and the relay fee rate alone and adds no pending
    input. When it returns an error the pending inputs are what they
    were. Otherwise a pending input that is not spent by the transaction
    stays as it is, and one that is still pending afterwards has kept its
    listeners, input, spend notification, fee preference and last fee
    rate. *)
Theorem sweep_frame (s : UtxoSweeper) (w : World) (inputs : list Input)
    (feeRate currentHeight : Z) (w' : World) (err : option error)
    (s' : UtxoSweeper) :
  sweep TxHash createSweepTx s w inputs feeRate currentHeight
  = (w', Returns (err, s')) ->
  cfg s' = cfg s /\ newInputs s' = newInputs s /\
  relayFeeRate s' = relayFeeRate s /\
  (err <> None -> pendingInputs s' = pendingInputs s) /\
  (forall op pi', pendingInputs s' !! op = Some pi' ->
     exists pi, pendingInputs s !! op = Some pi /\ rescheduled pi pi') /\
  (forall tx op,
     createSweepTx inputs (scriptInUse s) (uint32 currentHeight) feeRate
     = Ok tx ->
     ~ In op (outpoints tx) ->
     pendingInputs s' !! op = pendingInputs s !! op).
Proof.
  unfold sweep.
  assert (Hkept : forall pi : pendingInput, rescheduled pi pi)
    by (intros pi; unfold rescheduled; auto 10).
  destruct (match currentOutputScript s with
            | None => _ | Some _ => _ end) as [[pk | e] w0] eqn:Hscript.
  2:{ intros [= <- <- <-]. sweep_unchanged. }
  apply script_settled in Hscript. subst pk.
  change (currentOutputScript (setScript s (scriptInUse s)))
    with (scriptInUse s).
  destruct (createSweepTx inputs (scriptInUse s) (uint32 currentHeight)
              feeRate) as [tx | e] eqn:Hcreate.
  2:{ intros [= <- <- <-]. sweep_unchanged. }
  destruct (StoreNotifyPublishTx (cfg s) tx) as [e |].
  { intros [= <- <- <-]. sweep_unchanged. }
  set (w2 := log [EvPublishTransaction tx] _).
  assert (Hloop : forall s2,
            cfg s2 = cfg s -> newInputs s2 = newInputs s ->
            relayFeeRate s2 = relayFeeRate s ->
            pendingInputs s2 = pendingInputs s ->
            match reschedule (txIn tx) currentHeight s2 w2 with
            | (w3, Panics why) => (w3, Panics why)
            | (w3, Returns s3) => (w3, Returns (@None error, s3))
            end = (w', Returns (err, s')) ->
            cfg s' = cfg s /\ newInputs s' = newInputs s /\
            relayFeeRate s' = relayFeeRate s /\
            (err <> None -> pendingInputs s' = pendingInputs s) /\
            (forall op pi', pendingInputs s' !! op = Some pi' ->
               exists pi, pendingInputs s !! op = Some pi /\
                          rescheduled pi pi') /\
            (forall tx' op, Ok tx = Ok tx' ->
               ~ In op (outpoints tx') ->
               pendingInputs s' !! op = pendingInputs s !! op)).
  { intros s2 H1 H2 H3 H4.
    destruct (reschedule (txIn tx) currentHeight s2 w2) as [w3 [s3 | why]]
      eqn:Hres; [| discriminate].
    intros [= <- <- <-].
    apply reschedule_preserves in Hres as (R1 & R2 & R3 & R4 & R5).
    split; [congruence |]. split; [congruence |]. split; [congruence |].
    split; [congruence |]. split.
    - intros op pi' Hpi'. rewrite <- H4. apply R4. exact Hpi'.
    - intros tx' op [= <-] Hop. rewrite <- H4. apply R5. exact Hop. }
  destruct (PublishTransaction (cfg s) tx) as [e |].
  - destruct (bool_decide (e = ErrDoubleSpend)); simpl.
    + apply Hloop; reflexivity.
    + intros [= <- <- <-]. sweep_unchanged.
  - simpl. apply Hloop; reflexivity.
Qed.

(** X9. After a call of [sweep] that returned an error while a script
    was at hand (cached, or generated by this call), that script is
    cached: the next call of [sweep], whatever its inputs are, does not
    call [GenSweepScript], and a transaction that it hands to the store
    was built with that script. *)
Theorem failed_sweep_keeps_script (s : UtxoSweeper) (w : World)
    (inputs : list Input) (feeRate currentHeight : Z) (w1 : World)
    (err : error) (s1 : UtxoSweeper) (pkScript : Script)
    (inputs2 : list Input) (feeRate2 currentHeight2 : Z) :
  sweep TxHash createSweepTx s w inputs feeRate currentHeight
  = (w1, Returns (Some err, s1)) ->
  scriptInUse s = Some pkScript ->
  currentOutputScript s1 = Some pkScript /\
  exists evs,
    trace (sweep TxHash createSweepTx s1 w1 inputs2 feeRate2
             currentHeight2).1 = trace w1 ++ evs /\
    ~ In EvGenSweepScript evs /\
    (forall tx answer, In (EvNotifyPublishTx tx answer) evs ->
       createSweepTx inputs2 (Some pkScript) (uint32 currentHeight2)
         feeRate2 = Ok tx).
Proof.
  intros Hfirst Hscript.
  assert (Hcached : currentOutputScript s1 = Some pkScript).
  { revert Hfirst. unfold sweep.
    destruct (match currentOutputScript s with
              | None => _ | Some _ => _ end) as [[pk | e] w0] eqn:Hs.
    2:{ apply script_not_settled in Hs. congruence. }
    apply script_settled in Hs. subst pk.
    destruct (createSweepTx _ _ _ _) as [tx | e];
      [| intros [= <- <- <-]; exact Hscript].
    destruct (StoreNotifyPublishTx (cfg s) tx) as [e |];
      [intros [= <- <- <-]; exact Hscript |].
    destruct (PublishTransaction (cfg s) tx) as [e |].
    - destruct (bool_decide (e = ErrDoubleSpend)); simpl.
      + destruct (reschedule _ _ _ _) as [w3 [s3 | why]]; discriminate.
      + intros [= <- <- <-]. exact Hscript.
    - simpl. destruct (reschedule _ _ _ _) as [w3 [s3 | why]]; discriminate. }
  split; [exact Hcached |].
  unfold sweep. rewrite Hcached.
  change (currentOutputScript (setScript s1 (Some pkScript)))
    with (Some pkScript).
  destruct (createSweepTx inputs2 (Some pkScript) (uint32 currentHeight2)
              feeRate2) as [tx | e].
  2:{ exists []. simpl. rewrite app_nil_r. split; [reflexivity |].
      split; [tauto | intros ? ? []]. }
  destruct (StoreNotifyPublishTx (cfg s1) tx) as [e |] eqn:Hnotify.
  { exists [EvNotifyPublishTx tx (Some e)]. simpl.
    split; [reflexivity |]. split.
    - intros [H | []]. discriminate.
    - intros tx' answer [[= <- _] | []]. reflexivity. }
  set (w2 := log [EvPublishTransaction tx] _).
  assert (Hw2 : trace w2 = trace w1 ++ [EvNotifyPublishTx tx None;
                                        EvPublishTransaction tx]).
  { unfold w2. simpl. rewrite <- app_assoc. reflexivity. }
  assert (Hloop : forall s2,
            exists evs,
              trace (match reschedule (txIn tx) currentHeight2 s2 w2 with
                     | (w3, Panics why) =>
                       (w3, @Panics (option error * UtxoSweeper) why)
                     | (w3, Returns s3) => (w3, Returns (None, s3))
                     end).1 = trace w1 ++ evs /\
              ~ In EvGenSweepScript evs /\
              (forall tx' answer, In (EvNotifyPublishTx tx' answer) evs ->
                 Ok tx = Ok tx')).
  { intros s2.
    destruct (reschedule (txIn tx) currentHeight2 s2 w2) as [w3 o] eqn:Hres.
    apply reschedule_signals in Hres as (evs & Htrace & Hsig).
    exists ([EvNotifyPublishTx tx None; EvPublishTransaction tx] ++ evs).
    assert (Hno : forall e, In e evs -> isSignal e = true).
    { exact (proj1 (List.Forall_forall _ _) Hsig). }
    split; [| split].
    - destruct o; simpl; rewrite Htrace, Hw2, <- app_assoc; reflexivity.
    - intros [H | [H | H]]; try discriminate.
      apply Hno in H. discriminate.
    - intros tx' answer [[= <- _] | [H | H]]; try reflexivity;
        try discriminate.
      apply Hno in H. discriminate. }
  destruct (PublishTransaction (cfg s1) tx) as [e |].
  - destruct (bool_decide (e = ErrDoubleSpend)); simpl.
    + apply Hloop.
    + exists [EvNotifyPublishTx tx None; EvPublishTransaction tx].
      simpl. split; [exact Hw2 |]. split.
      * intros [H | [H | []]]; discriminate.
      * intros tx' answer [[= <- _] | [H | []]]; [reflexivity |
          discriminate].
  - simpl. apply Hloop.
Qed.

End SweepCalls.

(** A sweeper that never gives up, on an input published 31 times: the
    32nd publication goes out and the sweeper panics. *)
Lemma sweep_panics_after_31_attempts_witness :
  let s := sweeperWith (cfgWith None 1000 10) 5
             ({[ opA := recordAttempt (pendingAt opA 10 1%nat) 31 100 ]}
              : gmap OutPoint pendingInput) in
  let tx := {| txIn := [ {| PreviousOutPoint := opA |} ];
               txOut := [ {| Value := 19000; PkScript := [0; 20; 7] |} ];
               LockTime := 100 |} in
  exists w' why,
    sweep hashOfTx spendAll s world0 [inputFor opA] 10 100
    = (w', Panics why) /\
    In (EvPublishTransaction tx) (trace w').
Proof.
  intros s tx.
  apply (sweep_panics_after_31_attempts hashOfTx spendAll s world0
           [inputFor opA] 10 100 tx {| PreviousOutPoint := opA |}
           (recordAttempt (pendingAt opA 10 1%nat) 31 100)).
  - reflexivity.
  - intros _. eexists. reflexivity.
  - reflexivity.
  - reflexivity.
  - left. reflexivity.
  - left. reflexivity.
  - reflexivity.
  - simpl. lia.
Defined.

(** The sweep of [opA] and [opB] whose publication is rejected. *)
Lemma rejected_sweep_returns :
  sweep hashOfTx spendAll (sweeperAnswering (Some (ErrFmt "rejected")))
    world0 [inputFor opA; inputFor opB] 11 100
  = ((sweepBoth (Some (ErrFmt "rejected"))).1,
     Returns (Some (ErrFmt "publish tx"),
              sweeperAfter (Some (ErrFmt "rejected")))).
Proof.
  assert (Herr : returnedError (sweepBoth (Some (ErrFmt "rejected"))).2
                 = Some (Some (ErrFmt "publish tx")))
    by (vm_compute; reflexivity).
  unfold sweeperAfter. fold (sweepBoth (Some (ErrFmt "rejected"))).
  destruct (sweepBoth (Some (ErrFmt "rejected"))) as [w' [[err s'] | why]];
    simpl in *; [| discriminate].
  injection Herr as ->. reflexivity.
Qed.

Lemma sweep_frame_witness :
  pendingInputs (sweeperAfter (Some (ErrFmt "rejected")))
  = pendingInputs (sweeperAnswering (Some (ErrFmt "rejected"))).
Proof.
  destruct (sweep_frame hashOfTx spendAll _ _ _ _ _ _ _ _
              rejected_sweep_returns) as (_ & _ & _ & Hsame & _).
  apply Hsame. discriminate.
Defined.

Lemma failed_sweep_keeps_script_witness :
  currentOutputScript (sweeperAfter (Some (ErrFmt "rejected")))
  = Some [0; 20; 7] /\
  exists evs,
    trace (sweep hashOfTx spendAll (sweeperAfter (Some (ErrFmt "rejected")))
             (sweepBoth (Some (ErrFmt "rejected"))).1 [inputFor opA] 10 101).1
    = trace (sweepBoth (Some (ErrFmt "rejected"))).1 ++ evs /\
    ~ In EvGenSweepScript evs.
Proof.
  destruct (failed_sweep_keeps_script hashOfTx spendAll _ _ _ _ _ _ _ _
              [0; 20; 7] [inputFor opA] 10 101
              rejected_sweep_returns eq_refl)
    as (Hcached & evs & Htrace & Hno & _).
  split; [exact Hcached |]. exists evs. split; [exact Htrace | exact Hno].
Defined.

End SweeperLoopProps.

(* ===================================================================== *)
(** * Properties of the main loop of the sweeper *)
(* ===================================================================== *)

Module CollectorProps.
Import Sweep SweepRuns Collector.

(** ** Counting listeners *)

Lemma listening_insert (m : gmap OutPoint pendingInput) (op : OutPoint)
    (pi : pendingInput) (c : ResultChan) :
  m !! op = None ->
  listening (<[op := pi]> m) c
  = (occurrences c (listeners pi) + listening m c)%nat.
Proof.
  intros Hfresh. unfold listening.
  apply (map_fold_insert_L
           (fun _ pi n => (occurrences c (listeners pi) + n)%nat));
    [| exact Hfresh].
  intros. lia.
Qed.

Lemma listening_delete (m : gmap OutPoint pendingInput) (op : OutPoint)
    (pi : pendingInput) (c : ResultChan) :
  m !! op = Some pi ->
  listening m c
  = (occurrences c (listeners pi) + listening (delete op m) c)%nat.
Proof.
  intros Hpi. unfold listening.
  apply (map_fold_delete_L
           (fun _ pi n => (occurrences c (listeners pi) + n)%nat));
    [| exact Hpi].
  intros. lia.
Qed.

Lemma listening_update (m : gmap OutPoint pendingInput) (op : OutPoint)
    (pi pi' : pendingInput) (c : ResultChan) :
  m !! op = Some pi ->
  (listening (<[op := pi']> m) c + occurrences c (listeners pi)
   = listening m c + occurrences c (listeners pi'))%nat.
Proof.
  intros Hpi. rewrite <- insert_delete_eq.
  rewrite listening_insert by apply lookup_delete_eq.
  rewrite (listening_delete m op pi c Hpi). lia.
Qed.

Lemma listening_fmap (f : pendingInput -> pendingInput)
    (m : gmap OutPoint pendingInput) (c : ResultChan) :
  (forall pi, listeners (f pi) = listeners pi) ->
  listening (f <$> m) c = listening m c.
Proof.
  intros Hf. induction m as [| op pi m Hfresh IH] using map_ind.
  - rewrite fmap_empty. reflexivity.
  - rewrite fmap_insert.
    rewrite !listening_insert by (rewrite ?lookup_fmap, ?Hfresh; reflexivity).
    rewrite Hf, IH. reflexivity.
Qed.

Lemma answered_app (a b : list event) (c : ResultChan) :
  answered (a ++ b) c = (answered a c + answered b c)%nat.
Proof.
  unfold answered, occurrences, deliveries.
  rewrite omap_app, map_app. apply count_occ_app.
Qed.

Lemma answered_signals (evs : list event) (c : ResultChan)
    (ls : list ResultChan) (res : Result) :
  deliveries evs = map (fun c => (c, res)) ls ->
  answered evs c = occurrences c ls.
Proof.
  intros H. unfold answered. rewrite H, map_map. simpl.
  rewrite map_id. reflexivity.
Qed.

(** ** What each step keeps: listeners plus answers *)

Lemma signalAndRemove_conserves (s : UtxoSweeper) (w : World)
    (op : OutPoint) (res : Result) (s' : UtxoSweeper) (w' : World)
    (c : ResultChan) :
  signalAndRemove s w op res = Returns (s', w') ->
  (listening (pendingInputs s') c + answered (trace w') c
   = listening (pendingInputs s) c + answered (trace w) c)%nat.
Proof.
  intros Hrun.
  destruct (pendingInputs s !! op) as [pi |] eqn:Hpi.
  2:{ unfold signalAndRemove in Hrun. rewrite Hpi in Hrun. discriminate. }
  destruct (SweeperLoopProps.signalAndRemove_pending s w op res pi Hpi)
    as (w2 & evs & Hrun' & Htrace & _ & _ & _ & Hdel & _).
  rewrite Hrun' in Hrun. injection Hrun as <- <-.
  rewrite Htrace, answered_app, (answered_signals _ _ _ _ Hdel). simpl.
  rewrite (listening_delete (pendingInputs s) op pi c Hpi). lia.
Qed.

Lemma reschedule_conserves (ins : list TxIn) (h : Z) (c : ResultChan) :
  forall (s : UtxoSweeper) (w w' : World) (s' : UtxoSweeper),
  reschedule ins h s w = (w', Returns s') ->
  (listening (pendingInputs s') c + answered (trace w') c
   = listening (pendingInputs s) c + answered (trace w) c)%nat.
Proof.
  induction ins as [| input rest IH]; intros s w w' s'; simpl.
  - intros [= <- <-]. reflexivity.
  - destruct (pendingInputs s !! PreviousOutPoint input) as [pi0 |] eqn:Hpi0;
      [| apply IH].
    destruct (NextAttemptDeltaFunc (cfg s) _ (rng w)) as [[d g'] | why];
      [| discriminate].
    set (pi1 := recordAttempt pi0 _ _).
    set (s1 := setPending s _).
    assert (Hs1 : listening (pendingInputs s1) c
                  = listening (pendingInputs s) c).
    { pose proof (listening_update (pendingInputs s) _ pi0 pi1 c Hpi0) as H.
      unfold s1. simpl in *. lia. }
    destruct (MaxSweepAttempts (cfg s) <=? _).
    + destruct (signalAndRemove s1 (setRng g' w) _ _) as [[s2 w2] | why]
        eqn:Hsig; [| discriminate].
      apply (signalAndRemove_conserves _ _ _ _ _ _ c) in Hsig.
      intros Hrest. apply IH in Hrest. subst s1. simpl in *. lia.
    + intros Hrest. apply IH in Hrest. subst s1. simpl in *. lia.
Qed.

Lemma offered_NewInput (msg : sweepInputMessage) (rest : list loopEvent)
    (c : ResultChan) :
  offered (NewInput msg :: rest) c
  = (occurrences c [simResultChan msg] + offered rest c)%nat.
Proof.
  unfold offered, occurrences. simpl.
  destruct (Nat.eq_dec (simResultChan msg) c); reflexivity.
Qed.

Lemma offered_Spend (storeFailure : option error) (spend : SpendDetail)
    (rest : list loopEvent) (c : ResultChan) :
  offered (Spend storeFailure spend :: rest) c = offered rest c.
Proof. reflexivity. Qed.

Lemma offered_BlockEpoch (height : Z) (rest : list loopEvent)
    (c : ResultChan) :
  offered (BlockEpoch height :: rest) c = offered rest c.
Proof. reflexivity. Qed.

Lemma script_step_answers (s : UtxoSweeper) (w w0 : World)
    (pk : result (option Script)) (c : ResultChan) :
  match currentOutputScript s with
  | None => (GenSweepScript (cfg s), log [EvGenSweepScript] w)
  | Some pkScript => (Ok (Some pkScript), w)
  end = (pk, w0) ->
  answered (trace w0) c = answered (trace w) c.
Proof.
  destruct (currentOutputScript s).
  - intros [= _ <-]. reflexivity.
  - intros [= _ <-]. simpl. rewrite answered_app. simpl.
    unfold answered at 2. simpl. lia.
Qed.

Section SweepConserves.
Variable TxHash : MsgTx -> Hash.
Variable createSweepTx :
  list Input -> option Script -> Z -> Z -> result MsgTx.

(** X10. A call of [sweep] that returns loses no listener and answers
    none twice: for every result channel, the number of times it is
    registered as a listener of a pending input plus the number of
    results sent on it is the same after the call as before. *)
Theorem sweep_conserves_listeners (s : UtxoSweeper) (w : World)
    (inputs : list Input) (feeRate currentHeight : Z) (w' : World)
    (err : option error) (s' : UtxoSweeper) (c : ResultChan) :
  sweep TxHash createSweepTx s w inputs feeRate currentHeight
  = (w', Returns (err, s')) ->
  (listening (pendingInputs s') c + answered (trace w') c
   = listening (pendingInputs s) c + answered (trace w) c)%nat.
Proof.
  unfold sweep.
  destruct (match currentOutputScript s with
            | None => _ | Some _ => _ end) as [[pk | e] w0] eqn:Hscript;
    apply (script_step_answers _ _ _ _ c) in Hscript.
  2:{ intros [= <- <- <-]. lia. }
  destruct (createSweepTx _ _ _ _) as [tx | e].
  2:{ intros [= <- <- <-]. simpl. lia. }
  destruct (StoreNotifyPublishTx (cfg s) tx) as [e |].
  { intros [= <- <- <-]. simpl. rewrite answered_app.
    unfold answered at 2. simpl. lia. }
  set (w2 := log [EvPublishTransaction tx] _).
  assert (Hw2 : answered (trace w2) c = answered (trace w) c).
  { unfold w2. simpl. rewrite !answered_app.
    unfold answered at 2 3. simpl. lia. }
  assert (Hloop : forall s2,
            pendingInputs s2 = pendingInputs s ->
            match reschedule (txIn tx) currentHeight s2 w2 with
            | (w3, Panics why) => (w3, Panics why)
            | (w3, Returns s3) => (w3, Returns (@None error, s3))
            end = (w', Returns (err, s')) ->
            (listening (pendingInputs s') c + answered (trace w') c
             = listening (pendingInputs s) c + answered (trace w) c)%nat).
  { intros s2 Hpend.
    destruct (reschedule (txIn tx) currentHeight s2 w2) as [w3 [s3 | why]]
      eqn:Hres; [| discriminate].
    intros [= <- <- <-].
    apply (reschedule_conserves _ _ c) in Hres. rewrite Hpend in Hres. lia. }
  destruct (PublishTransaction (cfg s) tx) as [e |].
  - destruct (bool_decide (e = ErrDoubleSpend)); simpl.
    + apply Hloop. reflexivity.
    + intros [= <- <- <-].
      change (pendingInputs (setScript s pk)) with (pendingInputs s).
      rewrite Hw2. reflexivity.
  - simpl. apply Hloop. reflexivity.
Qed.

End SweepConserves.

Section LoopConserves.
Variable DetermineFeePerKw : FeePreference -> result Z.
Variable generateInputPartitionings :
  list Input -> Z -> Z -> Z -> result (list (list Input)).
Variable RegisterSpendNtfn : OutPoint -> Script -> Z -> result nat.
Variable NewBatchTimer : nat.

(** [scheduleSweep] writes [lastFeeRate] fields and the timer, and
    nothing else. *)
Lemma scheduleSweep_effect (st : timedSweeper) (h : Z) :
  let st' := (scheduleSweep DetermineFeePerKw generateInputPartitionings
                NewBatchTimer st h).2 in
  cfg (sweeper st') = cfg (sweeper st) /\
  newInputs (sweeper st') = newInputs (sweeper st) /\
  currentOutputScript (sweeper st') = currentOutputScript (sweeper st) /\
  relayFeeRate (sweeper st') = relayFeeRate (sweeper st) /\
  (timer st' = timer st \/
   timer st = None /\ timer st' = Some NewBatchTimer) /\
  exists f : pendingInput -> pendingInput,
    (forall pi, f pi = pi \/ exists r, f pi = setLastFeeRate pi r) /\
    pendingInputs (sweeper st') = f <$> pendingInputs (sweeper st).
Proof.
  unfold scheduleSweep. destruct (timer st) as [t |] eqn:Htimer.
  - simpl. repeat (split; [reflexivity |]). split; [left; exact Htimer |].
    exists (fun pi => pi). split; [auto |]. symmetry. apply map_fmap_id.
  - pose proof (ClusteringProps.clusterBySweepFeeRate_pending
                  DetermineFeePerKw (sweeper st)) as Hpend.
    pose proof (ClusteringProps.clusterBySweepFeeRate_fields
                  DetermineFeePerKw (sweeper st)) as (H1 & H2 & H3 & H4).
    destruct (clusterBySweepFeeRate DetermineFeePerKw (sweeper st))
      as [clusters s1]. simpl in *.
    assert (Hf : exists f : pendingInput -> pendingInput,
              (forall pi, f pi = pi \/ exists r, f pi = setLastFeeRate pi r) /\
              pendingInputs s1 = f <$> pendingInputs (sweeper st)).
    { eexists. split; [| exact Hpend]. intros pi. simpl.
      destruct (feeRateForPreference _ _ _); eauto. }
    destruct (startTimer _ _ _ _) as [[|] | e]; simpl;
      (split; [exact H1 |]); (split; [exact H2 |]); (split; [exact H3 |]);
      (split; [exact H4 |]); (split; [| exact Hf]); auto.
Qed.

Lemma scheduleSweep_listening (st : timedSweeper) (h : Z) (c : ResultChan) :
  listening (pendingInputs (sweeper
    (scheduleSweep DetermineFeePerKw generateInputPartitionings
       NewBatchTimer st h).2)) c
  = listening (pendingInputs (sweeper st)) c.
Proof.
  destruct (scheduleSweep_effect st h) as (_ & _ & _ & _ & _ & f & Hf & ->).
  apply listening_fmap. intros pi.
  destruct (Hf pi) as [-> | [r ->]]; reflexivity.
Qed.

Lemma collector_newInput_conserves (st : timedSweeper) (w : World)
    (h : Z) (msg : sweepInputMessage) (st' : timedSweeper) (w' : World)
    (c : ResultChan) :
  collector_newInput DetermineFeePerKw generateInputPartitionings
    RegisterSpendNtfn NewBatchTimer st w h msg = Returns (st', w') ->
  (listening (pendingInputs (sweeper st')) c + answered (trace w') c
   = listening (pendingInputs (sweeper st)) c + answered (trace w) c
     + occurrences c [simResultChan msg])%nat.
Proof.
  unfold collector_newInput.
  destruct (inOutPoint (simInput msg)) as [op |]; [| discriminate].
  destruct (pendingInputs (sweeper st) !! op) as [pi |] eqn:Hpi.
  - intros [= <- <-]. simpl.
    pose proof (listening_update (pendingInputs (sweeper st)) op pi
                  (addListener pi (simResultChan msg)) c Hpi) as H.
    simpl in H. unfold occurrences in *. rewrite count_occ_app in H.
    simpl in H. unfold ResultChan in *.
    destruct (Nat.eq_dec (simResultChan msg) c); lia.
  - destruct (inSignDesc (simInput msg)) as [sd |]; [| discriminate].
    destruct (waitForSpend RegisterSpendNtfn op _ _) as [cancel | e].
    + intros [= <- <-]. rewrite scheduleSweep_listening. simpl.
      rewrite insert_insert_eq, listening_insert by exact Hpi.
      unfold occurrences. simpl. unfold ResultChan in *.
      destruct (Nat.eq_dec (simResultChan msg) c); lia.
    + set (s1 := setPending (sweeper st) _).
      destruct (signalAndRemove s1 w op _) as [[s2 w2] | why] eqn:Hsig;
        [| discriminate].
      simpl. intros [= <- <-]. simpl.
      apply (signalAndRemove_conserves _ _ _ _ _ _ c) in Hsig.
      unfold s1 in Hsig. simpl in Hsig.
      rewrite listening_insert in Hsig by exact Hpi.
      unfold occurrences in *. simpl in *. unfold ResultChan in *.
      destruct (Nat.eq_dec (simResultChan msg) c); lia.
Qed.

Lemma signalSpent_conserves (ins : list TxIn) (res : Result)
    (c : ResultChan) :
  forall (s : UtxoSweeper) (w : World) (s' : UtxoSweeper) (w' : World),
  signalSpent ins res s w = Returns (s', w') ->
  (listening (pendingInputs s') c + answered (trace w') c
   = listening (pendingInputs s) c + answered (trace w) c)%nat.
Proof.
  induction ins as [| txin rest IH]; intros s w s' w'; simpl.
  - intros [= <- <-]. reflexivity.
  - destruct (pendingInputs s !! PreviousOutPoint txin); [| apply IH].
    destruct (signalAndRemove s w _ res) as [[s2 w2] | why] eqn:Hsig;
      [| discriminate].
    simpl. intros Hrest. apply IH in Hrest.
    apply (signalAndRemove_conserves _ _ _ _ _ _ c) in Hsig. lia.
Qed.

Lemma collector_spend_conserves (st : timedSweeper) (w : World) (h : Z)
    (storeFailure : option error) (spend : SpendDetail)
    (st' : timedSweeper) (w' : World) (c : ResultChan) :
  collector_spend DetermineFeePerKw generateInputPartitionings
    NewBatchTimer st w h storeFailure spend = Returns (st', w') ->
  (listening (pendingInputs (sweeper st')) c + answered (trace w') c
   = listening (pendingInputs (sweeper st)) c + answered (trace w) c)%nat.
Proof.
  unfold collector_spend.
  destruct (SpenderTxHash spend) as [spendHash |]; [| discriminate].
  destruct (IsOurTx storeFailure w spendHash) as [isOurTx | e].
  2:{ intros [= <- <-]. reflexivity. }
  destruct (SpendingTx spend) as [tx |]; [| discriminate].
  destruct (signalSpent (txIn tx) _ (sweeper st) w) as [[s2 w2] | why]
    eqn:Hsig; [| discriminate].
  simpl. intros [= <- <-]. rewrite scheduleSweep_listening. simpl.
  apply (signalSpent_conserves _ _ c) in Hsig. exact Hsig.
Qed.

(** X11. The main loop, run on any sequence of new inputs, spend
    notifications and blocks, loses no result channel and answers none
    twice: for every channel, the number of times it is registered as a
    listener of a pending input plus the number of results sent on it
    grows by exactly the number of times the channel arrived with a new
    input. A channel that was handed in once is therefore either still
    listening, once, or has been sent exactly one result. *)
Theorem collector_conserves_listeners (evs : list loopEvent) :
  forall (st : timedSweeper) (w : World) (bestHeight : Z)
         (st' : timedSweeper) (w' : World) (bestHeight' : Z)
         (c : ResultChan),
  collector_run DetermineFeePerKw generateInputPartitionings
    RegisterSpendNtfn NewBatchTimer evs st w bestHeight
  = Returns (st', w', bestHeight') ->
  (listening (pendingInputs (sweeper st')) c + answered (trace w') c
   = listening (pendingInputs (sweeper st)) c + answered (trace w) c
     + offered evs c)%nat.
Proof.
  induction evs as [| ev rest IH]; intros st w h st' w' h' c; simpl.
  - intros [= <- <- _]. unfold offered. simpl. lia.
  - destruct ev as [msg | storeFailure spend | height].
    + destruct (collector_newInput _ _ _ _ st w h msg) as [[st1 w1] | why]
        eqn:Harm; [| discriminate].
      simpl. intros Hrest. apply (IH _ _ _ _ _ _ c) in Hrest.
      apply (collector_newInput_conserves _ _ _ _ _ _ c) in Harm.
      rewrite offered_NewInput. lia.
    + destruct (collector_spend _ _ _ st w h storeFailure spend)
        as [[st1 w1] | why] eqn:Harm; [| discriminate].
      simpl. intros Hrest. apply (IH _ _ _ _ _ _ c) in Hrest.
      apply (collector_spend_conserves _ _ _ _ _ _ _ c) in Harm.
      rewrite offered_Spend. lia.
    + intros Hrest. apply (IH _ _ _ _ _ _ c) in Hrest.
      rewrite scheduleSweep_listening in Hrest.
      rewrite offered_BlockEpoch. lia.
Qed.

End LoopConserves.

(** ** Inputs stay filed under their outpoints *)

Lemma filed_fmap (s s' : UtxoSweeper) (f : pendingInput -> pendingInput) :
  (forall pi, f pi = pi \/ exists r, f pi = setLastFeeRate pi r) ->
  pendingInputs s' = f <$> pendingInputs s ->
  filedByOutPoint s -> filedByOutPoint s'.
Proof.
  intros Hf Hpend Hfiled op pi'. rewrite Hpend, lookup_fmap.
  destruct (pendingInputs s !! op) as [pi |] eqn:Hpi; [| discriminate].
  simpl. intros [= <-]. destruct (Hfiled op pi Hpi) as [H1 H2].
  destruct (Hf pi) as [-> | [r ->]]; auto.
Qed.

Lemma filed_delete (s : UtxoSweeper) (op : OutPoint) :
  filedByOutPoint s ->
  filedByOutPoint (setPending s (delete op (pendingInputs s))).
Proof.
  intros Hfiled op' pi. simpl.
  destruct (decide (op' = op)) as [-> | Hne].
  - rewrite lookup_delete_eq. discriminate.
  - rewrite lookup_delete_ne by congruence. apply Hfiled.
Qed.

Lemma filed_insert (s : UtxoSweeper) (op : OutPoint) (pi : pendingInput) :
  inOutPoint (input pi) = Some op -> inSignDesc (input pi) <> None ->
  filedByOutPoint s ->
  filedByOutPoint (setPending s (<[op := pi]> (pendingInputs s))).
Proof.
  intros H1 H2 Hfiled op' pi'. simpl.
  destruct (decide (op' = op)) as [-> | Hne].
  - rewrite lookup_insert_eq. intros [= <-]. auto.
  - rewrite lookup_insert_ne by congruence. apply Hfiled.
Qed.

Lemma signalSpent_returns (ins : list TxIn) (res : Result) :
  forall (s : UtxoSweeper) (w : World),
  filedByOutPoint s ->
  exists s' w', signalSpent ins res s w = Returns (s', w') /\
                filedByOutPoint s' /\ newInputs s' = newInputs s.
Proof.
  induction ins as [| txin rest IH]; intros s w Hfiled; simpl.
  - eauto.
  - destruct (pendingInputs s !! PreviousOutPoint txin) as [pi |] eqn:Hpi;
      [| apply IH; exact Hfiled].
    destruct (SweeperLoopProps.signalAndRemove_pending s w _ res pi Hpi)
      as (w2 & evs & -> & _). simpl.
    destruct (IH _ w2 (filed_delete s (PreviousOutPoint txin) Hfiled))
      as (s' & w' & Hrun & Hfiled' & Hqueue).
    exists s', w'. split; [exact Hrun |]. split; [exact Hfiled' |].
    exact Hqueue.
Qed.

(** X12. When every pending input is filed under its outpoint,
    [handlePendingSweepsReq] returns a snapshot with exactly the pending
    outpoints, each with the witness type and amount of its input and
    with its last fee rate, attempt count and next broadcast height. *)
Theorem handlePendingSweepsReq_snapshot (s : UtxoSweeper) :
  filedByOutPoint s ->
  exists m,
    handlePendingSweepsReq s = Returns m /\
    forall op,
      match pendingInputs s !! op with
      | Some pi =>
        exists signDesc, inSignDesc (input pi) = Some signDesc /\
                         m !! op = Some (exported op pi signDesc)
      | None => m !! op = None
      end.
Proof.
  unfold handlePendingSweepsReq, filedByOutPoint.
  generalize (pendingInputs s). intros m0.
  apply (map_fold_weak_ind
           (fun acc (m : gmap OutPoint pendingInput) =>
              (forall op pi, m !! op = Some pi ->
                 inOutPoint (input pi) = Some op /\
                 inSignDesc (input pi) <> None) ->
              exists r, acc = Returns r /\
                forall op,
                  match m !! op with
                  | Some pi =>
                    exists signDesc,
                      inSignDesc (input pi) = Some signDesc /\
                      r !! op = Some (exported op pi signDesc)
                  | None => r !! op = None
                  end)).
  - intros _. exists ∅. split; [reflexivity |].
    intros op. rewrite !lookup_empty. reflexivity.
  - intros i x m acc Hfresh IH Hfiled.
    destruct IH as (r & -> & Hr).
    { intros op pi Hpi. apply Hfiled.
      rewrite lookup_insert_ne; [exact Hpi | congruence]. }
    destruct (Hfiled i x (lookup_insert_eq _ _ _)) as [Hop Hsd].
    unfold exportInput. simpl. rewrite Hop.
    destruct (inSignDesc (input x)) as [sd |] eqn:Hdesc; [| congruence].
    eexists. split; [reflexivity |].
    intros op. destruct (decide (op = i)) as [-> | Hne].
    + rewrite !lookup_insert_eq. exists sd. split; [exact Hdesc |].
      reflexivity.
    + rewrite !lookup_insert_ne by congruence. apply Hr.
Qed.

(** What the loop over the inputs of a spending transaction does. *)
Lemma signalSpent_reports (ins : list TxIn) (res : Result) :
  forall (s : UtxoSweeper) (w : World) (s' : UtxoSweeper) (w' : World),
  signalSpent ins res s w = Returns (s', w') ->
  exists evs,
    trace w' = trace w ++ evs /\
    (forall c r, In (c, r) (deliveries evs) -> r = res) /\
    (forall op pi c, In op (map PreviousOutPoint ins) ->
       pendingInputs s !! op = Some pi -> In c (listeners pi) ->
       In (c, res) (deliveries evs)) /\
    (forall op, In op (map PreviousOutPoint ins) ->
       pendingInputs s' !! op = None) /\
    (forall op, ~ In op (map PreviousOutPoint ins) ->
       pendingInputs s' !! op = pendingInputs s !! op).
Proof.
  induction ins as [| txin rest IH]; intros s w s' w'; simpl.
  - intros [= <- <-]. exists []. rewrite app_nil_r.
    split; [reflexivity |]. split; [intros c r [] |].
    split; [intros op pi c [] |]. split; [intros op [] | reflexivity].
  - destruct (pendingInputs s !! PreviousOutPoint txin) as [pi0 |] eqn:Hpi0.
    + destruct (SweeperLoopProps.signalAndRemove_pending s w _ res pi0 Hpi0)
        as (w2 & evs0 & -> & Htrace0 & _ & _ & _ & Hdel0 & _).
      simpl. intros Hrest.
      destruct (IH _ _ _ _ Hrest) as (evs & Htrace & Hres & Htold & Hgone
                                      & Hkept).
      simpl in *.
      exists (evs0 ++ evs). rewrite SweeperLoopProps.deliveries_app.
      split; [rewrite Htrace, Htrace0; apply eq_sym, app_assoc |].
      split; [| split; [| split]].
      * intros c r Hin. apply in_app_or in Hin as [Hin | Hin]; [| eauto].
        rewrite Hdel0 in Hin. apply in_map_iff in Hin as (c' & [= _ <-] & _).
        reflexivity.
      * intros op pi c Hop Hpi Hc. apply in_or_app.
        destruct (decide (op = PreviousOutPoint txin)) as [-> | Hne].
        -- left. rewrite Hdel0. apply in_map_iff. exists c.
           split; [reflexivity |]. congruence.
        -- right. destruct Hop as [Heq | Hop]; [congruence |].
           apply (Htold op pi c Hop); [| exact Hc].
           rewrite lookup_delete_ne by congruence. exact Hpi.
      * intros op Hop.
        destruct (in_dec OutPoint_eq_dec op (map PreviousOutPoint rest))
          as [Hin | Hout]; [apply Hgone; exact Hin |].
        destruct Hop as [<- | Hop]; [| contradiction].
        rewrite Hkept by exact Hout. apply lookup_delete_eq.
      * intros op Hop. rewrite Hkept by tauto.
        apply lookup_delete_ne. intros Heq. apply Hop. left. exact Heq.
    + intros Hrest.
      destruct (IH _ _ _ _ Hrest) as (evs & Htrace & Hres & Htold & Hgone
                                      & Hkept).
      exists evs. split; [exact Htrace |]. split; [exact Hres |].
      split; [| split].
      * intros op pi c [<- | Hop] Hpi Hc; [congruence |]. eauto.
      * intros op Hop.
        destruct (in_dec OutPoint_eq_dec op (map PreviousOutPoint rest))
          as [Hin | Hout]; [apply Hgone; exact Hin |].
        destruct Hop as [<- | Hop]; [| contradiction].
        rewrite Hkept by exact Hout. exact Hpi0.
      * intros op Hop. apply Hkept. tauto.
Qed.

Section LoopReturns.
Variable DetermineFeePerKw : FeePreference -> result Z.
Variable generateInputPartitionings :
  list Input -> Z -> Z -> Z -> result (list (list Input)).
Variable RegisterSpendNtfn : OutPoint -> Script -> Z -> result nat.
Variable NewBatchTimer : nat.

Lemma scheduleSweep_filed (st : timedSweeper) (h : Z) :
  filedByOutPoint (sweeper st) ->
  filedByOutPoint (sweeper
    (scheduleSweep DetermineFeePerKw generateInputPartitionings
       NewBatchTimer st h).2).
Proof.
  destruct (scheduleSweep_effect DetermineFeePerKw
              generateInputPartitionings NewBatchTimer st h)
    as (_ & _ & _ & _ & _ & f & Hf & Hpend).
  apply (filed_fmap _ _ f Hf Hpend).
Qed.

Lemma collector_newInput_returns (st : timedSweeper) (w : World) (h : Z)
    (msg : sweepInputMessage) :
  filedByOutPoint (sweeper st) ->
  validInput (simInput msg) ->
  exists st' w',
    collector_newInput DetermineFeePerKw generateInputPartitionings
      RegisterSpendNtfn NewBatchTimer st w h msg = Returns (st', w') /\
    filedByOutPoint (sweeper st').
Proof.
  intros Hfiled [Hop Hsd]. unfold collector_newInput.
  destruct (inOutPoint (simInput msg)) as [op |] eqn:Hmsg; [| congruence].
  destruct (pendingInputs (sweeper st) !! op) as [pi |] eqn:Hpi.
  - eexists _, _. split; [reflexivity |]. simpl.
    destruct (Hfiled op pi Hpi) as [H1 H2].
    apply filed_insert; auto.
  - destruct (inSignDesc (simInput msg)) as [sd |] eqn:Hdesc;
      [| congruence].
    set (pendInput := {| listeners := [simResultChan msg] |}).
    destruct (waitForSpend RegisterSpendNtfn op _ _) as [cancel | e].
    + eexists _, _. split; [reflexivity |].
      apply scheduleSweep_filed. intros op' pi'. simpl.
      rewrite insert_insert_eq.
      destruct (decide (op' = op)) as [-> | Hne].
      * rewrite lookup_insert_eq. intros [= <-]. simpl.
        split; congruence.
      * rewrite lookup_insert_ne by congruence. apply Hfiled.
    + set (s1 := setPending (sweeper st) _).
      destruct (SweeperLoopProps.signalAndRemove_pending s1 w op
                  {| resErr := Some (ErrFmt "wait for spend");
                     resTx := None |} pendInput)
        as (w2 & evs & -> & _).
      { unfold s1. simpl. apply lookup_insert_eq. }
      simpl. eexists _, _. split; [reflexivity |]. simpl.
      unfold s1. simpl. rewrite delete_insert_id by exact Hpi.
      intros op' pi'. simpl. apply Hfiled.
Qed.

Lemma collector_spend_returns (st : timedSweeper) (w : World) (h : Z)
    (storeFailure : option error) (spend : SpendDetail) :
  filedByOutPoint (sweeper st) ->
  SpenderTxHash spend <> None -> SpendingTx spend <> None ->
  exists st' w',
    collector_spend DetermineFeePerKw generateInputPartitionings
      NewBatchTimer st w h storeFailure spend = Returns (st', w') /\
    filedByOutPoint (sweeper st').
Proof.
  intros Hfiled Hhash Htx. unfold collector_spend.
  destruct (SpenderTxHash spend) as [spendHash |]; [| congruence].
  destruct (IsOurTx storeFailure w spendHash) as [isOurTx | e]; [| eauto].
  destruct (SpendingTx spend) as [tx |]; [| congruence].
  destruct (signalSpent_returns (txIn tx)
              {| resErr := if isOurTx then None else Some ErrRemoteSpend;
                 resTx := Some tx |} (sweeper st) w Hfiled)
    as (s2 & w2 & -> & Hfiled2 & _).
  simpl. eexists _, _. split; [reflexivity |].
  apply scheduleSweep_filed. exact Hfiled2.
Qed.

(** X13. The main loop does not panic on messages without nil pointers:
    started with every pending input filed under the outpoint that it
    spends (as in the empty sweeper), and run on new inputs that have an
    outpoint and a sign descriptor (as [SweepInput] requires) and on
    spend notifications that name the spending transaction, it returns,
    and every pending input is again filed under its outpoint. *)
Theorem collector_run_returns (evs : list loopEvent) :
  forall (st : timedSweeper) (w : World) (bestHeight : Z),
  filedByOutPoint (sweeper st) ->
  Forall wellFormedEvent evs ->
  exists st' w' bestHeight',
    collector_run DetermineFeePerKw generateInputPartitionings
      RegisterSpendNtfn NewBatchTimer evs st w bestHeight
    = Returns (st', w', bestHeight') /\
    filedByOutPoint (sweeper st').
Proof.
  induction evs as [| ev rest IH]; intros st w h Hfiled Hwf; simpl.
  - eauto 6.
  - apply Forall_cons in Hwf as [Hev Hrest].
    destruct ev as [msg | storeFailure spend | height]; simpl in Hev.
    + destruct (collector_newInput_returns st w h msg Hfiled Hev)
        as (st1 & w1 & -> & Hfiled1).
      simpl. apply IH; assumption.
    + destruct Hev as [Hhash Htx].
      destruct (collector_spend_returns st w h storeFailure spend
                  Hfiled Hhash Htx) as (st1 & w1 & -> & Hfiled1).
      simpl. apply IH; assumption.
    + apply IH; [| assumption]. apply scheduleSweep_filed. exact Hfiled.
Qed.

(** X14. A spend notification (the store answering) makes the loop send
    one and the same result to the listeners of every pending input that
    the spending transaction spends: the transaction, and the error
    [ErrRemoteSpend] exactly when the store does not hold the hash of
    the spender. These inputs are no longer pending afterwards; every
    other pending input stays, at most with its last fee rate rewritten.
    When the store fails to answer, the notification is dropped: nothing
    is sent and nothing changes. *)
Theorem collector_spend_reports (st : timedSweeper) (w : World) (h : Z)
    (spend : SpendDetail) (spendHash : Hash) (tx : MsgTx) :
  SpenderTxHash spend = Some spendHash ->
  SpendingTx spend = Some tx ->
  (forall e,
     collector_spend DetermineFeePerKw generateInputPartitionings
       NewBatchTimer st w h (Some e) spend = Returns (st, w)) /\
  (forall st' w',
     collector_spend DetermineFeePerKw generateInputPartitionings
       NewBatchTimer st w h None spend = Returns (st', w') ->
     let res := {| resErr := if bool_decide (spendHash ∈ storeTxs w)
                             then None else Some ErrRemoteSpend;
                   resTx := Some tx |} in
     exists evs,
       trace w' = trace w ++ evs /\
       (forall c r, In (c, r) (deliveries evs) -> r = res) /\
       (forall op pi c, In op (outpoints tx) ->
          pendingInputs (sweeper st) !! op = Some pi ->
          In c (listeners pi) -> In (c, res) (deliveries evs)) /\
       (forall op, In op (outpoints tx) ->
          pendingInputs (sweeper st') !! op = None) /\
       (forall op pi, ~ In op (outpoints tx) ->
          pendingInputs (sweeper st) !! op = Some pi ->
          exists pi', pendingInputs (sweeper st') !! op = Some pi' /\
                      (pi' = pi \/ exists r, pi' = setLastFeeRate pi r))).
Proof.
  intros Hhash Htx. unfold collector_spend. rewrite Hhash, Htx.
  split; [reflexivity |]. simpl.
  intros st' w'.
  destruct (signalSpent (txIn tx) _ (sweeper st) w) as [[s2 w2] | why]
    eqn:Hsig; [| discriminate].
  simpl. intros [= <- <-].
  destruct (signalSpent_reports _ _ _ _ _ _ Hsig)
    as (evs & Htrace & Hres & Htold & Hgone & Hkept).
  destruct (scheduleSweep_effect DetermineFeePerKw
              generateInputPartitionings NewBatchTimer
              (setSweeper st s2) h)
    as (_ & _ & _ & _ & _ & f & Hf & Hpend).
  simpl in Hpend.
  exists evs. split; [exact Htrace |]. split; [exact Hres |].
  split; [exact Htold |]. split.
  - intros op Hop. rewrite Hpend, lookup_fmap, (Hgone op Hop).
    reflexivity.
  - intros op pi Hop Hpi. rewrite Hpend, lookup_fmap, (Hkept op Hop), Hpi.
    simpl. exists (f pi). split; [reflexivity | apply Hf].
Qed.

(** The timer loop of [scheduleSweep]. *)
Lemma startTimer_true (s : UtxoSweeper) (h : Z)
    (clusters : list inputCluster) :
  startTimer generateInputPartitionings s h clusters = Ok true ->
  exists cluster inputLists,
    In cluster clusters /\
    getInputLists generateInputPartitionings s cluster h = Ok inputLists /\
    inputLists <> [].
Proof.
  induction clusters as [| c rest IH]; simpl; [discriminate |].
  destruct (getInputLists generateInputPartitionings s c h)
    as [[| l ls] | e] eqn:Hlists; [| | discriminate].
  - intros Hrest. destruct (IH Hrest) as (c' & ls' & Hin & Hl & Hne).
    exists c', ls'. auto.
  - intros _. exists c, (l :: ls). split; [left; reflexivity |].
    split; [exact Hlists | discriminate].
Qed.

(** X15. [scheduleSweep] leaves a running timer alone and then changes
    nothing at all. Without a running timer it changes nothing but the
    last fee rates of pending inputs and the timer, which it starts only
    if some cluster of the pending inputs yields an input list at the
    current height, and never when it returns an error. *)
Theorem scheduleSweep_starts_one_timer (st : timedSweeper) (h : Z) :
  let r := scheduleSweep DetermineFeePerKw generateInputPartitionings
             NewBatchTimer st h in
  (forall t, timer st = Some t -> r = (None, st)) /\
  (timer st = None ->
   (timer r.2 = None \/
    r.1 = None /\ timer r.2 = Some NewBatchTimer /\
    exists cluster inputLists,
      In cluster (clusterBySweepFeeRate DetermineFeePerKw (sweeper st)).1 /\
      getInputLists generateInputPartitionings (sweeper r.2) cluster h
      = Ok inputLists /\
      inputLists <> [])) /\
  cfg (sweeper r.2) = cfg (sweeper st) /\
  newInputs (sweeper r.2) = newInputs (sweeper st) /\
  currentOutputScript (sweeper r.2) = currentOutputScript (sweeper st) /\
  relayFeeRate (sweeper r.2) = relayFeeRate (sweeper st) /\
  (forall op,
     match pendingInputs (sweeper st) !! op with
     | Some pi =>
       exists pi', pendingInputs (sweeper r.2) !! op = Some pi' /\
                   (pi' = pi \/ exists rate, pi' = setLastFeeRate pi rate)
     | None => pendingInputs (sweeper r.2) !! op = None
     end).
Proof.
  intros r.
  destruct (scheduleSweep_effect DetermineFeePerKw
              generateInputPartitionings NewBatchTimer st h)
    as (H1 & H2 & H3 & H4 & _ & f & Hf & Hpend).
  fold r in H1, H2, H3, H4, Hpend.
  split; [| split; [| split; [exact H1 | split; [exact H2 |
            split; [exact H3 | split; [exact H4 |]]]]]].
  - intros t Ht. unfold r, scheduleSweep. rewrite Ht. reflexivity.
  - intros Ht. unfold r, scheduleSweep. rewrite Ht.
    destruct (clusterBySweepFeeRate DetermineFeePerKw (sweeper st))
      as [clusters s1]. simpl.
    destruct (startTimer generateInputPartitionings s1 h clusters)
      as [[|] | e] eqn:Hstart; simpl; auto.
    right. split; [reflexivity |]. split; [reflexivity |].
    apply startTimer_true. exact Hstart.
  - intros op. rewrite Hpend, lookup_fmap.
    destruct (pendingInputs (sweeper st) !! op) as [pi |]; simpl;
      [| reflexivity].
    exists (f pi). split; [reflexivity | apply Hf].
Qed.

(** What the loop of [getInputLists] sorts into its two lists. *)
Lemma sortInput_fold (h : Z) (candidates : list pendingInput) :
  forall acc,
  fold_left (sortInput h) candidates acc
  = (acc.1 ++ map input (List.filter (neverTried h) candidates),
     acc.2 ++ map input (List.filter (triedBefore h) candidates)).
Proof.
  induction candidates as [| pi rest IH]; intros [new retry]; simpl.
  - rewrite !app_nil_r. reflexivity.
  - rewrite IH. unfold sortInput, neverTried, triedBefore.
    destruct (Z.ltb_spec h (minPublishHeight pi));
      destruct (Z.leb_spec (minPublishHeight pi) h); try lia; simpl.
    + reflexivity.
    + destruct (publishAttempts pi =? 0); simpl;
        rewrite <- ?app_assoc; reflexivity.
Qed.

(** X16. [getInputLists] hands to the partitioner only inputs of the
    cluster whose minimum publish height has been reached. The inputs
    that were never published are partitioned on their own; if some
    input was published before, those inputs followed by the new ones
    are partitioned as well, and these sets come first in the result. *)
Theorem getInputLists_offers_ripe_inputs (s : UtxoSweeper)
    (cluster : inputCluster) (h : Z) (inputLists : list (list Input)) :
  getInputLists generateInputPartitionings s cluster h = Ok inputLists ->
  let fresh := map input (List.filter (neverTried h)
                            (clusterInputs s cluster)) in
  let retry := map input (List.filter (triedBefore h)
                            (clusterInputs s cluster)) in
  exists allSets newSets,
    inputLists = allSets ++ newSets /\
    generateInputPartitionings fresh (relayFeeRate s)
      (sweepFeeRate cluster) (MaxInputsPerTx (cfg s)) = Ok newSets /\
    (retry = [] /\ allSets = [] \/
     retry <> [] /\
     generateInputPartitionings (retry ++ fresh) (relayFeeRate s)
       (sweepFeeRate cluster) (MaxInputsPerTx (cfg s)) = Ok allSets).
Proof.
  intros Hlists fresh retry. unfold getInputLists in Hlists.
  rewrite sortInput_fold in Hlists. simpl in Hlists.
  fold fresh retry in Hlists.
  destruct retry as [| i retry'] eqn:Hretry.
  - destruct (generateInputPartitionings fresh _ _ _) as [newSets | e];
      [| discriminate].
    injection Hlists as <-. exists [], newSets. auto.
  - destruct (generateInputPartitionings ((i :: retry') ++ fresh) _ _ _)
      as [allSets | e]; [| discriminate].
    destruct (generateInputPartitionings fresh _ _ _) as [newSets | e];
      [| discriminate].
    injection Hlists as <-. exists allSets, newSets.
    split; [reflexivity |]. split; [reflexivity |]. right.
    split; [discriminate | reflexivity].
Qed.

End LoopReturns.

Section LoopAndSweep.
Variable TxHash : MsgTx -> Hash.
Variable createSweepTx :
  list Input -> option Script -> Z -> Z -> result MsgTx.
Variable DetermineFeePerKw : FeePreference -> result Z.
Variable generateInputPartitionings :
  list Input -> Z -> Z -> Z -> result (list (list Input)).
Variable RegisterSpendNtfn : OutPoint -> Script -> Z -> result nat.
Variable NewBatchTimer : nat.

(** After a call of [sweep] that returned without error the store holds
    the hash of the transaction. *)
Lemma sweep_stores_hash (s : UtxoSweeper) (w : World)
    (inputs : list Input) (feeRate currentHeight : Z) (w1 : World)
    (s1 : UtxoSweeper) (tx : MsgTx) :
  sweep TxHash createSweepTx s w inputs feeRate currentHeight
  = (w1, Returns (None, s1)) ->
  createSweepTx inputs (scriptInUse s) (uint32 currentHeight) feeRate
  = Ok tx ->
  In (TxHash tx) (storeTxs w1).
Proof.
  unfold sweep. intros Hrun Hcreate. revert Hrun.
  destruct (match currentOutputScript s with
            | None => _ | Some _ => _ end) as [[pk | e] w0] eqn:Hscript;
    [| discriminate].
  apply SweeperLoopProps.script_settled in Hscript. subst pk.
  change (currentOutputScript (setScript s (scriptInUse s)))
    with (scriptInUse s).
  rewrite Hcreate.
  destruct (StoreNotifyPublishTx (cfg s) tx) as [e |]; [discriminate |].
  set (w2 := log [EvPublishTransaction tx] _).
  assert (Hloop : forall s2,
            match reschedule (txIn tx) currentHeight s2 w2 with
            | (w3, Panics why) => (w3, Panics why)
            | (w3, Returns s3) => (w3, Returns (@None error, s3))
            end = (w1, Returns (None, s1)) ->
            In (TxHash tx) (storeTxs w1)).
  { intros s2.
    destruct (reschedule (txIn tx) currentHeight s2 w2) as [w3 o] eqn:Hres.
    apply SweepProps.reschedule_frame in Hres as (evs & _ & _ & Hstore & _).
    destruct o; [| discriminate]. intros [= <- _].
    rewrite Hstore. unfold w2. simpl. apply in_or_app. right. left.
    reflexivity. }
  destruct (PublishTransaction (cfg s) tx) as [e |].
  - destruct (bool_decide (e = ErrDoubleSpend)); simpl;
      [apply Hloop | discriminate].
  - simpl. apply Hloop.
Qed.

(** X17. A spend by a transaction that [sweep] built and for which it
    returned without error is never reported as a remote spend: when the
    notification of a spender with that hash arrives (the store
    answering), every result that the loop sends carries no error. *)
Theorem own_sweep_is_no_remote_spend (s : UtxoSweeper) (w : World)
    (inputs : list Input) (feeRate currentHeight : Z) (w1 : World)
    (s1 : UtxoSweeper) (tx spendingTx : MsgTx) (spend : SpendDetail)
    (t : option nat) (bestHeight : Z) (st' : timedSweeper) (w' : World) :
  sweep TxHash createSweepTx s w inputs feeRate currentHeight
  = (w1, Returns (None, s1)) ->
  createSweepTx inputs (scriptInUse s) (uint32 currentHeight) feeRate
  = Ok tx ->
  SpenderTxHash spend = Some (TxHash tx) ->
  SpendingTx spend = Some spendingTx ->
  collector_spend DetermineFeePerKw generateInputPartitionings
    NewBatchTimer {| sweeper := s1; timer := t |} w1 bestHeight None spend
  = Returns (st', w') ->
  exists evs,
    trace w' = trace w1 ++ evs /\
    (forall c r, In (c, r) (deliveries evs) ->
       resErr r = None /\ resTx r = Some spendingTx) /\
    (forall op pi c, In op (outpoints spendingTx) ->
       pendingInputs s1 !! op = Some pi -> In c (listeners pi) ->
       In (c, {| resErr := None; resTx := Some spendingTx |})
          (deliveries evs)).
Proof.
  intros Hsweep Hcreate Hhash Htx.
  pose proof (sweep_stores_hash _ _ _ _ _ _ _ _ Hsweep Hcreate) as Hstored.
  unfold collector_spend. rewrite Hhash, Htx. simpl.
  rewrite bool_decide_eq_true_2 by (apply list_elem_of_In; exact Hstored).
  destruct (signalSpent (txIn spendingTx) _ s1 w1) as [[s2 w2] | why]
    eqn:Hsig; [| discriminate].
  simpl. intros [= <- <-].
  destruct (signalSpent_reports _ _ _ _ _ _ Hsig)
    as (evs & Htrace & Hres & Htold & _).
  exists evs. split; [exact Htrace |]. split.
  - intros c r Hin. rewrite (Hres c r Hin). auto.
  - exact Htold.
Qed.


End LoopAndSweep.

(** ** The properties on concrete runs *)

Import CollectorRuns.

(** The sweep of [opA] and [opB] whose publication succeeds. *)
Lemma accepted_sweep_returns :
  sweep hashOfTx spendAll (sweeperAnswering None) world0
    [inputFor opA; inputFor opB] 11 100
  = ((sweepBoth None).1, Returns (None, sweeperAfter None)).
Proof.
  assert (Herr : returnedError (sweepBoth None).2 = Some None)
    by (vm_compute; reflexivity).
  unfold sweeperAfter. fold (sweepBoth None).
  destruct (sweepBoth None) as [w' [[err s'] | why]];
    simpl in *; [| discriminate].
  injection Herr as ->. reflexivity.
Qed.

Lemma sweep_conserves_listeners_witness :
  (listening (pendingInputs (sweeperAfter None)) 1
   + answered (trace (sweepBoth None).1) 1
   = listening (twoInputs 10 12) 1 + answered [] 1)%nat.
Proof.
  exact (sweep_conserves_listeners hashOfTx spendAll _ _ _ _ _ _ _ _ 1%nat
           accepted_sweep_returns).
Defined.

Lemma sampleRun_returns : returned sampleRun = true.
Proof. vm_compute. reflexivity. Qed.

Lemma collector_conserves_listeners_witness :
  match sampleRun with
  | Returns (st', w', _) =>
    (listening (pendingInputs (sweeper st')) 1 + answered (trace w') 1
     = 1)%nat
  | Panics _ => False
  end.
Proof.
  pose proof sampleRun_returns as Hret.
  destruct sampleRun as [[[st' w'] h'] | why] eqn:Hrun; [| discriminate].
  exact (collector_conserves_listeners absoluteFeeRate oneSet registerAll
           9%nat sampleEvents idle world0 100 st' w' h' 1%nat Hrun).
Defined.

Lemma collector_run_returns_witness :
  exists st' w' bestHeight',
    sampleRun = Returns (st', w', bestHeight') /\
    filedByOutPoint (sweeper st').
Proof.
  apply (collector_run_returns absoluteFeeRate oneSet registerAll 9%nat
           sampleEvents idle world0 100).
  - intros op pi Hpi. simpl in Hpi. rewrite lookup_empty in Hpi.
    discriminate.
  - repeat constructor; simpl; discriminate.
Defined.

Lemma twoInputs_filed : filedByOutPoint (sweeperAnswering None).
Proof.
  intros op pi. simpl. unfold twoInputs.
  destruct (decide (op = opA)) as [-> | HneA].
  - rewrite lookup_insert_eq. intros [= <-]. simpl. split; congruence.
  - rewrite lookup_insert_ne by congruence.
    destruct (decide (op = opB)) as [-> | HneB].
    + rewrite lookup_singleton_eq. intros [= <-]. simpl. split; congruence.
    + rewrite lookup_singleton_ne by congruence. discriminate.
Qed.

Lemma handlePendingSweepsReq_snapshot_witness :
  exists m,
    handlePendingSweepsReq (sweeperAnswering None) = Returns m /\
    m !! opA = Some {| piOutPoint := opA; piWitnessType := 0;
                       piAmount := 10000; piLastFeeRate := 0;
                       piBroadcastAttempts := 0;
                       piNextBroadcastHeight := 100 |}.
Proof.
  destruct (handlePendingSweepsReq_snapshot (sweeperAnswering None)
              twoInputs_filed) as (m & Hrun & Hall).
  exists m. split; [exact Hrun |].
  specialize (Hall opA).
  change (pendingInputs (sweeperAnswering None) !! opA)
    with (Some (pendingAt opA 10 1%nat)) in Hall.
  destruct Hall as (sd & [= <-] & Hm). exact Hm.
Defined.

Lemma collector_spend_reports_witness :
  collector_spend absoluteFeeRate oneSet 9%nat busy world0 100
    (Some (ErrFmt "db closed")) foreignSpend = Returns (busy, world0).
Proof.
  apply (collector_spend_reports absoluteFeeRate oneSet 9%nat busy world0
           100 foreignSpend 77 foreignTx eq_refl eq_refl).
Defined.

Lemma getInputLists_offers_ripe_inputs_witness :
  exists inputLists allSets newSets,
    getInputLists oneSet (sweeperAnswering None)
      {| sweepFeeRate := 11; inputs := {[ opA; opB ]} |} 100
    = Ok inputLists /\
    inputLists = allSets ++ newSets.
Proof.
  destruct (getInputLists oneSet (sweeperAnswering None)
              {| sweepFeeRate := 11; inputs := {[ opA; opB ]} |} 100)
    as [inputLists | e] eqn:Hlists; [| vm_compute in Hlists; discriminate].
  destruct (getInputLists_offers_ripe_inputs oneSet _ _ _ _ Hlists)
    as (allSets & newSets & Hsplit & _).
  exists inputLists, allSets, newSets. split; [reflexivity | exact Hsplit].
Defined.

Lemma own_spend_returns :
  returned (collector_spend absoluteFeeRate oneSet 9%nat
              {| sweeper := sweeperAfter None; timer := None |}
              (sweepBoth None).1 101 None ownSpend) = true.
Proof. vm_compute. reflexivity. Qed.

Lemma own_sweep_is_no_remote_spend_witness :
  match collector_spend absoluteFeeRate oneSet 9%nat
          {| sweeper := sweeperAfter None; timer := None |}
          (sweepBoth None).1 101 None ownSpend with
  | Returns (st', w') =>
    exists evs,
      trace w' = trace (sweepBoth None).1 ++ evs /\
      forall c r, In (c, r) (deliveries evs) ->
        resErr r = None /\ resTx r = Some sweepTx
  | Panics _ => False
  end.
Proof.
  pose proof own_spend_returns as Hret.
  destruct (collector_spend _ _ _ _ _ _ _ _) as [[st' w'] | why] eqn:Hrun;
    [| discriminate].
  destruct (own_sweep_is_no_remote_spend hashOfTx spendAll absoluteFeeRate
              oneSet 9%nat _ _ _ _ _ _ _ sweepTx sweepTx ownSpend None 101
              st' w' accepted_sweep_returns eq_refl eq_refl eq_refl Hrun)
    as (evs & Htrace & Hres & _).
  exists evs. split; [exact Htrace | exact Hres].
Defined.


End CollectorProps.

(* ===================================================================== *)
(** * Properties of the router: failures of payment attempts *)
(* ===================================================================== *)

Module PaymentErrorsProps.
Import Routing RouterGraph PaymentErrors RoutingRuns.

(** ** getFailedEdge *)

Lemma hopSource_next (rt : HopRoute) (pre rest : list Hop) (hop : Hop) :
  Hops rt = pre ++ hop :: rest ->
  hopSource rt (S (length pre)) = PubKeyBytes hop /\
  hopAmount rt (S (length pre)) = AmtToForward hop /\
  Hops rt !! length pre = Some hop.
Proof.
  intros Hhops. simpl. rewrite Hhops.
  rewrite lookup_app_r by lia. rewrite Nat.sub_diag. simpl. auto.
Qed.

Lemma last_hop_index (rt : HopRoute) (pre rest : list Hop) (hop : Hop) :
  Hops rt = pre ++ hop :: rest ->
  (Z.of_nat (length pre) =? Z.of_nat (length (Hops rt)) - 1)
  = bool_decide (rest = []).
Proof.
  intros ->. rewrite length_app.
  destruct rest as [| h rest].
  - rewrite bool_decide_eq_true_2 by reflexivity. apply Z.eqb_eq.
    simpl. lia.
  - rewrite bool_decide_eq_false_2 by discriminate. apply Z.eqb_neq.
    simpl. lia.
Qed.

Lemma failedEdgeFrom_sound (rt : HopRoute) (errSource : Vertex) :
  forall (hops pre : list Hop) (e : edge) (amt : Z),
  Hops rt = pre ++ hops ->
  (forall j, (j < length pre)%nat -> hopSource rt j <> errSource) ->
  failedEdgeFrom errSource (Z.of_nat (length (Hops rt)))
    (Z.of_nat (length pre)) (hopSource rt (length pre))
    (hopAmount rt (length pre)) hops = Ok (e, amt) ->
  exists i hop,
    Hops rt !! i = Some hop /\
    e = {| edgeFrom := hopSource rt i; edgeTo := PubKeyBytes hop;
           edgeChannel := hopChannelID hop |} /\
    amt = hopAmount rt i /\
    (errSource = hopSource rt i \/
     S i = length (Hops rt) /\ errSource = PubKeyBytes hop) /\
    (forall j, (j < i)%nat -> hopSource rt j <> errSource).
Proof.
  induction hops as [| hop rest IH]; intros pre e amt Hhops Hfirst; simpl;
    [discriminate |].
  destruct (hopSource_next rt pre rest hop Hhops) as (Hsrc & Hamt & Hlook).
  rewrite (last_hop_index rt pre rest hop Hhops).
  destruct (bool_decide (errSource = hopSource rt (length pre))
            || bool_decide (rest = [])
               && bool_decide (errSource = PubKeyBytes hop)) eqn:Hcond.
  - intros [= <- <-]. exists (length pre), hop.
    split; [exact Hlook |]. split; [reflexivity |]. split; [reflexivity |].
    split; [| exact Hfirst].
    apply orb_true_iff in Hcond as [Hc | Hc].
    + left. apply bool_decide_eq_true in Hc. exact Hc.
    + right. apply andb_true_iff in Hc as [Hlast Hto].
      apply bool_decide_eq_true in Hlast, Hto. subst rest.
      split; [| exact Hto]. rewrite Hhops, length_app. simpl. lia.
  - apply orb_false_iff in Hcond as [Hfrom _].
    apply bool_decide_eq_false in Hfrom.
    intros Hrest.
    apply (IH (pre ++ [hop])).
    + rewrite <- app_assoc. exact Hhops.
    + intros j Hj. rewrite length_app in Hj. simpl in Hj.
      destruct (decide (j = length pre)) as [-> | Hne].
      * congruence.
      * apply Hfirst. lia.
    + rewrite length_app. simpl. rewrite Nat.add_1_r.
      rewrite Hsrc, Hamt.
      replace (Z.of_nat (S (length pre))) with (Z.of_nat (length pre) + 1)
        by lia.
      exact Hrest.
Qed.

Lemma failedEdgeFrom_complete (rt : HopRoute) (errSource : Vertex) :
  forall (hops pre : list Hop),
  Hops rt = pre ++ hops ->
  hops <> [] ->
  errSource = hopSource rt (length pre) \/
  In errSource (map PubKeyBytes hops) ->
  exists r,
    failedEdgeFrom errSource (Z.of_nat (length (Hops rt)))
      (Z.of_nat (length pre)) (hopSource rt (length pre))
      (hopAmount rt (length pre)) hops = Ok r.
Proof.
  induction hops as [| hop rest IH]; intros pre Hhops Hne Hin; simpl;
    [congruence |].
  destruct (hopSource_next rt pre rest hop Hhops) as (Hsrc & Hamt & Hlook).
  rewrite (last_hop_index rt pre rest hop Hhops).
  destruct (bool_decide (errSource = hopSource rt (length pre))
            || bool_decide (rest = [])
               && bool_decide (errSource = PubKeyBytes hop)) eqn:Hcond;
    [eauto |].
  apply orb_false_iff in Hcond as [Hfrom Hfinal].
  apply bool_decide_eq_false in Hfrom.
  destruct Hin as [Hin | [Hin | Hin]]; [congruence | |].
  - destruct rest as [| hop' rest'].
    + rewrite bool_decide_eq_true_2 in Hfinal by reflexivity.
      rewrite bool_decide_eq_true_2 in Hfinal by congruence. discriminate.
    + specialize (IH (pre ++ [hop])).
      rewrite length_app in IH. simpl in IH. rewrite Nat.add_1_r in IH.
      rewrite Hsrc, Hamt in IH.
      replace (Z.of_nat (S (length pre))) with (Z.of_nat (length pre) + 1)
        in IH by lia.
      apply IH; [rewrite <- app_assoc; exact Hhops | discriminate |].
      left. congruence.
  - destruct rest as [| hop' rest']; [destruct Hin |].
    specialize (IH (pre ++ [hop])).
    rewrite length_app in IH. simpl in IH. rewrite Nat.add_1_r in IH.
    rewrite Hsrc, Hamt in IH.
    replace (Z.of_nat (S (length pre))) with (Z.of_nat (length pre) + 1)
      in IH by lia.
    apply IH; [rewrite <- app_assoc; exact Hhops | discriminate |].
    right. exact Hin.
Qed.

(** X19. [getFailedEdge] finds an edge exactly when the route has hops
    and the error source is the sender or the receiver of one of them.
    The edge it returns is then a hop of the route: the first hop that
    the error source pays (its outgoing channel), or else the last hop
    when the error source is the destination (its incoming channel);
    the amount is the one sent over that hop. *)
Theorem getFailedEdge_locates_hop (rt : HopRoute) (errSource : Vertex) :
  ((exists r, getFailedEdge rt errSource = Ok r) <->
   Hops rt <> [] /\
   In errSource (SourcePubKey rt :: map PubKeyBytes (Hops rt))) /\
  (forall e amt,
     getFailedEdge rt errSource = Ok (e, amt) ->
     exists i hop,
       Hops rt !! i = Some hop /\
       e = {| edgeFrom := hopSource rt i; edgeTo := PubKeyBytes hop;
              edgeChannel := hopChannelID hop |} /\
       amt = hopAmount rt i /\
       (errSource = hopSource rt i \/
        S i = length (Hops rt) /\ errSource = PubKeyBytes hop) /\
       (forall j, (j < i)%nat -> hopSource rt j <> errSource)).
Proof.
  assert (Hsound : forall e amt,
            getFailedEdge rt errSource = Ok (e, amt) ->
            exists i hop,
              Hops rt !! i = Some hop /\
              e = {| edgeFrom := hopSource rt i; edgeTo := PubKeyBytes hop;
                     edgeChannel := hopChannelID hop |} /\
              amt = hopAmount rt i /\
              (errSource = hopSource rt i \/
               S i = length (Hops rt) /\ errSource = PubKeyBytes hop) /\
              (forall j, (j < i)%nat -> hopSource rt j <> errSource)).
  { intros e amt Hget.
    apply (failedEdgeFrom_sound rt errSource (Hops rt) [] e amt);
      [reflexivity | simpl; intros j Hj; lia | exact Hget]. }
  split; [| exact Hsound]. split.
  - intros ([e amt] & Hget).
    destruct (Hsound e amt Hget) as (i & hop & Hlook & _ & _ & Hwho & _).
    split.
    + intros Hnil. rewrite Hnil in Hlook. discriminate.
    + destruct Hwho as [Hsrc | [_ Hto]].
      * destruct i as [| j]; simpl in Hsrc; [left; congruence |].
        right. destruct (Hops rt !! j) as [hop' |] eqn:Hj; simpl in Hsrc.
        -- subst errSource. apply in_map.
           apply list_elem_of_In, list_elem_of_lookup. eauto.
        -- apply lookup_lt_Some in Hlook. apply lookup_ge_None in Hj. lia.
      * right. subst errSource. apply in_map.
        apply list_elem_of_In, list_elem_of_lookup. eauto.
  - intros [Hne Hin].
    apply (failedEdgeFrom_complete rt errSource (Hops rt) []);
      [reflexivity | exact Hne |].
    destruct Hin as [Hin | Hin]; [left; simpl; congruence | right; exact Hin].
Qed.

(** ** processSendError *)

Section SendErrors.
Context {G : Type} `{GraphStore G} `{ChannelGraph G}.
Variable ValidateChannelUpdateAnn :
  Vertex -> Z -> ChannelUpdate -> option error.

(** The store after [UpdateEdge]: as before, or with a policy stored
    that is strictly newer than the one it replaces. *)
Lemma UpdateEdge_graph (r : ChannelRouter G) (now : Z) (d : delivery)
    (update : ChannelEdgePolicy) (err : option error) (g' : G) :
  UpdateEdge r now d update = (err, g') ->
  g' = graph r \/
  d <> QuitBeforeSend /\
  UpdateEdgePolicy (graph r) update = Ok g' /\
  storedTimestamp (graph r) (ChannelID update) (direction update)
  < LastUpdate update.
Proof.
  unfold UpdateEdge. destruct d as [| | [|]].
  - intros [= _ <-]. auto.
  - intros Hstep. apply RoutingProps.processUpdate_step in Hstep.
    destruct err as [e |].
    + left. apply Hstep.
    + right. split; [discriminate | exact Hstep].
  - intros [= _ <-].
    destruct (processUpdate r now update) as [err' g1] eqn:Hstep.
    apply RoutingProps.processUpdate_step in Hstep. simpl.
    destruct err' as [e |].
    + left. apply Hstep.
    + right. split; [discriminate | exact Hstep].
  - intros [= _ <-]. auto.
Qed.

Lemma applyChannelUpdate_graph (r : ChannelRouter G) (now : Z)
    (d : delivery) (msg : option ChannelUpdate) (pubKey : Vertex) :
  let g' := (applyChannelUpdate ValidateChannelUpdateAnn r now d msg
               pubKey).2 in
  g' = graph r \/
  exists update ch,
    msg = Some update /\
    FetchChannelEdgesByID (graph r) (ToUint64 (cuShortChannelID update))
    = Ok ch /\
    ValidateChannelUpdateAnn pubKey (edgeCapacity ch.1.1) update = None /\
    d <> QuitBeforeSend /\
    UpdateEdgePolicy (graph r) (policyOfUpdate update) = Ok g' /\
    storedTimestamp (graph r) (ToUint64 (cuShortChannelID update))
      (Z.land (cuChannelFlags update) ChanUpdateDirection)
    < Timestamp update * 10 ^ 9.
Proof.
  unfold applyChannelUpdate. destruct msg as [update |]; [| left; reflexivity].
  destruct (FetchChannelEdgesByID (graph r) _) as [[[ch p1] p2] | e] eqn:Hch;
    [| left; reflexivity].
  destruct (ValidateChannelUpdateAnn pubKey (edgeCapacity ch) update)
    as [e |] eqn:Hvalid; [left; reflexivity |].
  destruct (UpdateEdge r now d (policyOfUpdate update)) as [err g1] eqn:Hupd.
  assert (Hg : (match err with
                | Some err0 =>
                  if negb (isIgnoredOrOutdated err0)
                  then (false, g1) else (true, g1)
                | None => (true, g1)
                end).2 = g1).
  { destruct err as [e |]; [| reflexivity].
    destruct (negb (isIgnoredOrOutdated e)); reflexivity. }
  simpl. rewrite Hg.
  apply UpdateEdge_graph in Hupd as [-> | (Hd & Hstored & Hnewer)];
    [left; reflexivity |].
  right. exists update, (ch, p1, p2). simpl. auto 10.
Qed.

(** X20. A failure that [processSendError] declares final reaches
    neither the payment session nor the graph. A failure that is not
    final is reported to the payment session at least once, every report
    being about the vertex that sent the failure or about the channel of
    the failed edge that [getFailedEdge] determined, whatever channel a
    carried update names. *)
Theorem processSendError_reports (r : ChannelRouter G) (now : Z)
    (d : delivery) (rt : HopRoute) (fErr : ForwardingFailure) :
  let '(final, reports, g') :=
    processSendError ValidateChannelUpdateAnn r now d rt fErr in
  if final
  then reports = [] /\ g' = graph r
  else
    reports <> [] /\
    exists failedEdge failedAmt,
      getFailedEdge rt (failureSource fErr) = Ok (failedEdge, failedAmt) /\
      forall rep, In rep reports ->
        reportVertex rep = Some (failureSource fErr) \/
        reportChannel rep = Some (edgeChannel failedEdge).
Proof.
  unfold processSendError.
  destruct (getFailedEdge rt (failureSource fErr)) as [[failedEdge amt] | e];
    [| split; reflexivity].
  assert (Hretry : forall update,
            let '(reports, g') :=
              processChannelUpdateAndRetry ValidateChannelUpdateAnn r now d
                failedEdge update (failureSource fErr) in
            reports <> [] /\
            forall rep, In rep reports ->
              reportVertex rep = Some (failureSource fErr) \/
              reportChannel rep = Some (edgeChannel failedEdge)).
  { intros update. unfold processChannelUpdateAndRetry.
    destruct (applyChannelUpdate _ _ _ _ _ _) as [[|] g1]; simpl.
    - split; [discriminate |]. intros rep [<- | []]. right. reflexivity.
    - split; [discriminate |].
      intros rep [<- | [<- | []]]; right; reflexivity. }
  destruct (failureMessage fErr) as
    [ | | | | | | u | | | | u | u | u | u | u | | | | | | | | code];
    try (split; reflexivity);
    try (split; [discriminate |]; exists failedEdge, amt;
         split; [reflexivity |];
         intros rep Hin; simpl in Hin;
         repeat (destruct Hin as [<- | Hin]; [auto; fail |]);
         destruct Hin);
    try (specialize (Hretry u);
         destruct (processChannelUpdateAndRetry _ _ _ _ _ _ _)
           as [reports g1];
         destruct Hretry as [Hne Hall];
         split; [exact Hne |]; exists failedEdge, amt;
         split; [reflexivity | exact Hall]).
Qed.

(** X21. [processSendError] changes the graph only by storing the channel
    update that the failure carries, and only if the channel that the
    update names is in the graph, [ValidateChannelUpdateAnn] accepts the
    update for the key of the vertex that sent the failure and the
    capacity of that channel, and the update is strictly newer than the
    policy stored for its direction. *)
Theorem processSendError_applies_valid_updates (r : ChannelRouter G)
    (now : Z) (d : delivery) (rt : HopRoute) (fErr : ForwardingFailure) :
  let g' := (processSendError ValidateChannelUpdateAnn r now d rt fErr).2 in
  g' = graph r \/
  exists update ch,
    carriedUpdate (failureMessage fErr) = Some update /\
    FetchChannelEdgesByID (graph r) (ToUint64 (cuShortChannelID update))
    = Ok ch /\
    ValidateChannelUpdateAnn (failureSource fErr) (edgeCapacity ch.1.1)
      update = None /\
    d <> QuitBeforeSend /\
    UpdateEdgePolicy (graph r) (policyOfUpdate update) = Ok g' /\
    storedTimestamp (graph r) (ToUint64 (cuShortChannelID update))
      (Z.land (cuChannelFlags update) ChanUpdateDirection)
    < Timestamp update * 10 ^ 9.
Proof.
  unfold processSendError.
  destruct (getFailedEdge rt (failureSource fErr)) as [[failedEdge amt] | e];
    [| left; reflexivity].
  assert (Happly : forall msg,
            (applyChannelUpdate ValidateChannelUpdateAnn r now d msg
               (failureSource fErr)).2 = graph r \/
            exists update ch,
              msg = Some update /\
              FetchChannelEdgesByID (graph r)
                (ToUint64 (cuShortChannelID update)) = Ok ch /\
              ValidateChannelUpdateAnn (failureSource fErr)
                (edgeCapacity ch.1.1) update = None /\
              d <> QuitBeforeSend /\
              UpdateEdgePolicy (graph r) (policyOfUpdate update)
              = Ok (applyChannelUpdate ValidateChannelUpdateAnn r now d msg
                      (failureSource fErr)).2 /\
              storedTimestamp (graph r) (ToUint64 (cuShortChannelID update))
                (Z.land (cuChannelFlags update) ChanUpdateDirection)
              < Timestamp update * 10 ^ 9).
  { intros msg. apply applyChannelUpdate_graph. }
  assert (Hretry : forall update,
            (processChannelUpdateAndRetry ValidateChannelUpdateAnn r now d
               failedEdge update (failureSource fErr)).2
            = (applyChannelUpdate ValidateChannelUpdateAnn r now d
                 (Some update) (failureSource fErr)).2).
  { intros update. unfold processChannelUpdateAndRetry.
    destruct (applyChannelUpdate _ _ _ _ _ _) as [ok g1]. reflexivity. }
  assert (Hsome : forall u,
            (applyChannelUpdate ValidateChannelUpdateAnn r now d (Some u)
               (failureSource fErr)).2 = graph r \/
            exists update ch,
              Some u = Some update /\
              FetchChannelEdgesByID (graph r)
                (ToUint64 (cuShortChannelID update)) = Ok ch /\
              ValidateChannelUpdateAnn (failureSource fErr)
                (edgeCapacity ch.1.1) update = None /\
              d <> QuitBeforeSend /\
              UpdateEdgePolicy (graph r) (policyOfUpdate update)
              = Ok (applyChannelUpdate ValidateChannelUpdateAnn r now d
                      (Some u) (failureSource fErr)).2 /\
              storedTimestamp (graph r) (ToUint64 (cuShortChannelID update))
                (Z.land (cuChannelFlags update) ChanUpdateDirection)
              < Timestamp update * 10 ^ 9).
  { intros u. apply Happly. }
  assert (Hpair : forall u,
            (let '(reports, g') :=
               processChannelUpdateAndRetry ValidateChannelUpdateAnn r now d
                 failedEdge u (failureSource fErr) in
             (false, reports, g')).2
            = (applyChannelUpdate ValidateChannelUpdateAnn r now d (Some u)
                 (failureSource fErr)).2).
  { intros u. rewrite <- Hretry.
    destruct (processChannelUpdateAndRetry _ _ _ _ _ _ _). reflexivity. }
  destruct (failureMessage fErr) as
    [ | | | | | | u | | | | u | u | u | u | u | | | | | | | | code];
    simpl; try (left; reflexivity).
  - apply Hsome.
  - rewrite Hpair. apply Hsome.
  - rewrite Hpair. apply Hsome.
  - rewrite Hpair. apply Hsome.
  - apply Hsome.
  - apply Happly.
Qed.

End SendErrors.

End PaymentErrorsProps.

(* ===================================================================== *)
(** * Properties of the router: nodes, channels, stale blocks, zombies *)
(* ===================================================================== *)

Module RouterGraphProps.
Import Routing RouterGraph RoutingRuns.

(** ** Edge locators *)

Lemma bytesCompare_antisym (a : list Z) :
  forall b, bytesCompare b a = - bytesCompare a b.
Proof.
  induction a as [| x a IH]; intros [| y b]; simpl; try reflexivity.
  destruct (Z.ltb_spec y x); destruct (Z.ltb_spec x y); try lia;
    try reflexivity.
  apply IH.
Qed.

Lemma bytesCompare_eq (a : list Z) :
  forall b, bytesCompare a b = 0 <-> a = b.
Proof.
  induction a as [| x a IH]; intros [| y b]; simpl; split; intros Heq;
    try reflexivity; try discriminate.
  - destruct (Z.ltb_spec x y); [discriminate |].
    destruct (Z.ltb_spec y x); [discriminate |].
    apply IH in Heq. subst b. f_equal. lia.
  - injection Heq as -> ->. rewrite Z.ltb_irrefl. apply IH. reflexivity.
Qed.

Lemma bytesCompare_range (a : list Z) :
  forall b, bytesCompare a b = -1 \/ bytesCompare a b = 0 \/
            bytesCompare a b = 1.
Proof.
  induction a as [| x a IH]; intros [| y b]; simpl; auto.
  destruct (x <? y); [auto |]. destruct (y <? x); [auto |]. apply IH.
Qed.

(** X22. The two directions of a channel between distinct nodes get the
    locators of opposite direction, the direction from the
    lexicographically lower key to the higher being 0; between equal
    keys both locators have direction 0. *)
Theorem newEdgeLocatorByPubkeys_directions (channelID : Z)
    (fromNode toNode : Vertex) :
  let there := newEdgeLocatorByPubkeys channelID fromNode toNode in
  let back := newEdgeLocatorByPubkeys channelID toNode fromNode in
  locChannelID there = channelID /\ locChannelID back = channelID /\
  (fromNode <> toNode -> Direction there + Direction back = 1) /\
  (fromNode = toNode -> Direction there = 0 /\ Direction back = 0) /\
  (Direction there = 0 <-> bytesCompare fromNode toNode <> 1).
Proof.
  unfold newEdgeLocatorByPubkeys. simpl.
  pose proof (bytesCompare_antisym fromNode toNode) as Hanti.
  pose proof (bytesCompare_eq fromNode toNode) as Heq.
  pose proof (bytesCompare_range fromNode toNode) as Hrange.
  split; [reflexivity |]. split; [reflexivity |].
  split; [| split].
  - intros Hne.
    destruct (Z.eqb_spec (bytesCompare fromNode toNode) 1);
      destruct (Z.eqb_spec (bytesCompare toNode fromNode) 1); try lia.
    exfalso. apply Hne. apply Heq. lia.
  - intros Hsame. apply Heq in Hsame.
    destruct (Z.eqb_spec (bytesCompare fromNode toNode) 1);
      destruct (Z.eqb_spec (bytesCompare toNode fromNode) 1); lia.
  - destruct (Z.eqb_spec (bytesCompare fromNode toNode) 1); split;
      intros; try lia; try reflexivity; congruence.
Qed.

Section StalePolicies.
Context {G : Type} `{GraphStore G}.

(** X23. Staleness of edge policies is monotone in the timestamp: when
    [IsStaleEdgePolicy] calls an update of a channel stale, it calls
    every update of that channel with the same flags and an older or
    equal timestamp stale as well. *)
Theorem IsStaleEdgePolicy_monotone (r : ChannelRouter G) (now : Z)
    (chanID : ShortChannelID) (timestamp older : Z) (flags : Z) :
  older <= timestamp ->
  IsStaleEdgePolicy r now chanID timestamp flags = true ->
  IsStaleEdgePolicy r now chanID older flags = true.
Proof.
  intros Holder. unfold IsStaleEdgePolicy, Before, Since.
  destruct (hceErr _); [discriminate |].
  destruct (isZombie _).
  - destruct (AssumeChannelValid (cfg r) && _); [reflexivity |].
    intros Hstale. apply Z.ltb_lt in Hstale. apply Z.ltb_lt. lia.
  - destruct (negb (exists_ _)); [discriminate |].
    destruct (Z.land flags ChanUpdateDirection =? 0).
    + intros Hstale. apply negb_true_iff, Z.ltb_ge in Hstale.
      apply negb_true_iff, Z.ltb_ge. lia.
    + destruct (Z.land flags ChanUpdateDirection =? 1); [| discriminate].
      intros Hstale. apply negb_true_iff, Z.ltb_ge in Hstale.
      apply negb_true_iff, Z.ltb_ge. lia.
Qed.

End StalePolicies.

Section GraphProps.
Context {G : Type} `{GraphStore G} `{ChannelGraph G}.

(** X24. [IsStaleNode] and the node arm of [processUpdate] agree: an
    announcement that [IsStaleNode] calls stale is rejected and leaves
    the graph as it was; one that it does not call stale is about a node
    that the graph knows, is strictly newer than what the graph holds
    for that node, and is handed to [AddLightningNode], whose failure is
    the only one left. *)
Theorem node_announcement_freshness (r : ChannelRouter G)
    (msg : LightningNode) :
  let res := processUpdate_node r msg in
  let stale := IsStaleNode r (nodePubKeyBytes msg) (nodeLastUpdate msg) in
  (stale = true -> exists e, res = (Some e, graph r)) /\
  (stale = false ->
   (exists lastUpdate,
      HasLightningNode (graph r) (nodePubKeyBytes msg)
      = (lastUpdate, true, None) /\
      lastUpdate < nodeLastUpdate msg) /\
   match AddLightningNode (graph r) msg with
   | Ok g' => res = (None, g')
   | Err _ => exists e, res = (Some e, graph r)
   end).
Proof.
  unfold processUpdate_node, IsStaleNode, assertNodeAnnFreshness, Before.
  destruct (HasLightningNode (graph r) (nodePubKeyBytes msg))
    as [[lastUpdate known] err].
  destruct err as [e |]; simpl.
  { split; [eauto | discriminate]. }
  destruct known; simpl; [| split; [eauto | discriminate]].
  destruct (Z.ltb_spec lastUpdate (nodeLastUpdate msg)); simpl.
  - split; [discriminate |]. intros _. split; [eauto |].
    destruct (AddLightningNode (graph r) msg); eauto.
  - split; [eauto | discriminate].
Qed.

Section EdgeArmProps.
Variable TxHash : MsgTx -> Hash.
Variable GenMultiSigScript : Vertex -> Vertex -> result Script.
Variable WitnessScriptHash : Script -> result Script.
Variable GetUtxo : OutPoint -> Script -> Z -> result TxOut.
Variable UpdateFilter : list EdgePoint -> Z -> option error.

(** X25. A channel that the graph knows, live or zombie, is never added
    again: when [IsKnownEdge] holds for the channel id of an
    announcement, the edge arm of [processUpdate] returns an error
    without a panic, without a look at the chain and without a change
    of the graph or of the chain view's filter. *)
Theorem known_edge_is_not_added_again (r : ChannelRouter G)
    (chain : BlockChainIO) (chanID : ShortChannelID) (msg : EdgeInfo) :
  edgeChannelID msg = ToUint64 chanID ->
  IsKnownEdge r chanID = true ->
  exists e,
    processUpdate_edge TxHash GenMultiSigScript WitnessScriptHash GetUtxo
      UpdateFilter r chain msg = Returns (Some e, graph r, []).
Proof.
  intros Hid Hknown. unfold processUpdate_edge, IsKnownEdge in *.
  rewrite Hid.
  destruct (match hceErr (HasChannelEdge (graph r) (ToUint64 chanID)) with
            | Some e => negb (bool_decide (e = ErrGraphNoEdgesFound))
            | None => false
            end); [eauto |].
  destruct (isZombie (HasChannelEdge (graph r) (ToUint64 chanID)));
    [eauto |].
  rewrite orb_false_r in Hknown. rewrite Hknown. eauto.
Qed.

(** X26. Unless [AssumeChannelValid] is set, the edge arm of
    [processUpdate] stores a channel only after the chain has confirmed
    it: the funding output named by the channel id was found by
    [fetchChanPoint], [GetUtxo] reports it unspent, and its script is
    the witness script hash of the multi-signature script of the two
    announced bitcoin keys. What is stored is the announcement with the
    capacity and the outpoint of that output, whatever the announcement
    said, and the output is handed to the chain view's filter at the
    best height. When the arm returns an error the graph is as it was,
    except when the error comes from the filter update: then the channel
    is stored all the same. *)
Theorem accepted_edge_is_funded (r : ChannelRouter G) (chain : BlockChainIO)
    (msg : EdgeInfo) (err : option error) (g' : G)
    (calls : list chainViewCall) :
  AssumeChannelValid (cfg r) = false ->
  processUpdate_edge TxHash GenMultiSigScript WitnessScriptHash GetUtxo
    UpdateFilter r chain msg = Returns (err, g', calls) ->
  (err <> None /\ g' = graph r /\ calls = []) \/
  exists fundingPoint fundingOut witnessScript chanUtxo,
    fetchChanPoint TxHash chain (NewShortChanIDFromInt (edgeChannelID msg))
    = Returns (Ok (fundingPoint, fundingOut)) /\
    GenMultiSigScript (BitcoinKey1Bytes msg) (BitcoinKey2Bytes msg)
    = Ok witnessScript /\
    WitnessScriptHash witnessScript = Ok (PkScript chanUtxo) /\
    GetUtxo fundingPoint (PkScript chanUtxo)
      (BlockHeight (NewShortChanIDFromInt (edgeChannelID msg)))
    = Ok chanUtxo /\
    AddChannelEdge (graph r) (withPoint msg (Value chanUtxo) fundingPoint)
    = Ok g' /\
    calls = [EvUpdateFilter [ {| FundingPkScript := PkScript chanUtxo;
                                 epOutPoint := fundingPoint |} ]
                            (bestHeight r)] /\
    (err = None <->
     UpdateFilter [ {| FundingPkScript := PkScript chanUtxo;
                       epOutPoint := fundingPoint |} ] (bestHeight r)
     = None).
Proof.
  intros Hassume. unfold processUpdate_edge. rewrite Hassume.
  destruct (match hceErr (HasChannelEdge (graph r) (edgeChannelID msg)) with
            | Some e => negb (bool_decide (e = ErrGraphNoEdgesFound))
            | None => false
            end).
  { intros [= <- <- <-]. left. split; [discriminate | auto]. }
  destruct (isZombie _).
  { intros [= <- <- <-]. left. split; [discriminate | auto]. }
  destruct (exists_ _).
  { intros [= <- <- <-]. left. split; [discriminate | auto]. }
  destruct (fetchChanPoint TxHash chain _)
    as [[[fundingPoint fundingOut] | e] | why] eqn:Hfetch; simpl;
    [| intros [= <- <- <-]; left; split; [discriminate | auto]
     | discriminate].
  destruct (GenMultiSigScript _ _) as [witnessScript | e] eqn:Hgen;
    [| intros [= <- <- <-]; left; split; [discriminate | auto]].
  destruct (WitnessScriptHash witnessScript) as [fundingPkScript | e]
    eqn:Hhash;
    [| intros [= <- <- <-]; left; split; [discriminate | auto]].
  destruct (GetUtxo fundingPoint fundingPkScript _) as [chanUtxo | e]
    eqn:Hutxo;
    [| intros [= <- <- <-]; left; split; [discriminate | auto]].
  destruct (decide (fundingPkScript = PkScript chanUtxo)) as [Hscript | Hne].
  2:{ rewrite bool_decide_eq_false_2 by exact Hne. simpl.
      intros [= <- <- <-]. left. split; [discriminate | auto]. }
  rewrite bool_decide_eq_true_2 by exact Hscript. simpl. subst fundingPkScript.
  destruct (AddChannelEdge (graph r) _) as [g1 | e] eqn:Hadd;
    [| intros [= <- <- <-]; left; split; [discriminate | auto]].
  destruct (UpdateFilter _ (bestHeight r)) as [e |] eqn:Hfilter;
    intros [= <- <- <-]; right;
    exists fundingPoint, fundingOut, witnessScript, chanUtxo;
    repeat (split; [first [reflexivity | assumption] |]);
    split; congruence.
Qed.

(** X27. The edge arm of [processUpdate] panics exactly when the
    announced channel is neither known nor a zombie, the channel is to
    be checked against the chain, and [fetchChanPoint] panics on the
    channel id of the announcement. *)
Theorem edge_announcement_panics_with_fetchChanPoint (r : ChannelRouter G)
    (chain : BlockChainIO) (msg : EdgeInfo) :
  (exists why,
     processUpdate_edge TxHash GenMultiSigScript WitnessScriptHash GetUtxo
       UpdateFilter r chain msg = Panics why) <->
  (forall e, hceErr (HasChannelEdge (graph r) (edgeChannelID msg)) = Some e ->
             e = ErrGraphNoEdgesFound) /\
  isZombie (HasChannelEdge (graph r) (edgeChannelID msg)) = false /\
  exists_ (HasChannelEdge (graph r) (edgeChannelID msg)) = false /\
  AssumeChannelValid (cfg r) = false /\
  exists why,
    fetchChanPoint TxHash chain (NewShortChanIDFromInt (edgeChannelID msg))
    = Panics why.
Proof.
  unfold processUpdate_edge.
  set (res := HasChannelEdge (graph r) (edgeChannelID msg)).
  split.
  - intros (why & Hrun).
    destruct (hceErr res) as [e |] eqn:Herr.
    + destruct (decide (e = ErrGraphNoEdgesFound)) as [-> | Hne].
      2:{ rewrite bool_decide_eq_false_2 in Hrun by exact Hne.
          discriminate. }
      rewrite bool_decide_eq_true_2 in Hrun by reflexivity. simpl in Hrun.
      split; [intros e [= <-]; reflexivity |].
      destruct (isZombie res); [discriminate |].
      destruct (exists_ res); [discriminate |].
      destruct (AssumeChannelValid (cfg r)).
      { destruct (AddChannelEdge _ _); discriminate. }
      repeat (split; [reflexivity |]).
      destruct (fetchChanPoint TxHash chain _) as [fetched | why'];
        [| eauto].
      exfalso. simpl in Hrun.
      destruct fetched as [[fundingPoint out] | e]; [| discriminate].
      destruct (GenMultiSigScript _ _); [| discriminate].
      destruct (WitnessScriptHash _); [| discriminate].
      destruct (GetUtxo _ _ _); [| discriminate].
      destruct (negb _); [discriminate |].
      destruct (AddChannelEdge _ _); [| discriminate].
      destruct (UpdateFilter _ _); discriminate.
    + split; [discriminate |].
      destruct (isZombie res); [discriminate |].
      destruct (exists_ res); [discriminate |].
      destruct (AssumeChannelValid (cfg r)).
      { destruct (AddChannelEdge _ _); discriminate. }
      repeat (split; [reflexivity |]).
      destruct (fetchChanPoint TxHash chain _) as [fetched | why'];
        [| eauto].
      exfalso. simpl in Hrun.
      destruct fetched as [[fundingPoint out] | e]; [| discriminate].
      destruct (GenMultiSigScript _ _); [| discriminate].
      destruct (WitnessScriptHash _); [| discriminate].
      destruct (GetUtxo _ _ _); [| discriminate].
      destruct (negb _); [discriminate |].
      destruct (AddChannelEdge _ _); [| discriminate].
      destruct (UpdateFilter _ _); discriminate.
  - intros (Herr & Hzombie & Hknown & Hassume & why & Hfetch).
    rewrite Hzombie, Hknown, Hassume, Hfetch.
    destruct (hceErr res) as [e |].
    + rewrite (Herr e eq_refl).
      rewrite bool_decide_eq_true_2 by reflexivity. simpl. eauto.
    + simpl. eauto.
Qed.

End EdgeArmProps.

(** X28. A stale block sets the best height to the height before the
    block whatever the best height was (there is no check against it,
    and a stale block at height 0 wraps it to 2^32 - 1), also when the
    store fails to disconnect the block. So a block that was connected
    at the height after the best one and then reported stale leaves the
    best height where it was. *)
Theorem stale_block_restores_best_height (r : ChannelRouter G)
    (chainUpdate : FilteredBlock) :
  bestHeight (networkHandler_staleBlock r chainUpdate).1
  = uint32 (uint32 (fbHeight chainUpdate) - 1) /\
  (0 <= bestHeight r < 2 ^ 32 - 1 ->
   fbHeight chainUpdate = bestHeight r + 1 ->
   bestHeight (networkHandler_newBlock r chainUpdate).1
   = bestHeight r + 1 /\
   bestHeight (networkHandler_staleBlock
                 (networkHandler_newBlock r chainUpdate).1 chainUpdate).1
   = bestHeight r).
Proof.
  assert (Hstale : forall r0 : ChannelRouter G,
            bestHeight (networkHandler_staleBlock r0 chainUpdate).1
            = uint32 (uint32 (fbHeight chainUpdate) - 1)).
  { intros r0. unfold networkHandler_staleBlock.
    destruct (DisconnectBlockAtHeight _ _) as [[closed g'] | e];
      reflexivity. }
  split; [apply Hstale |].
  intros Hrange Hnext. rewrite Hstale.
  assert (Hwrap : uint32 (fbHeight chainUpdate) = bestHeight r + 1).
  { rewrite Hnext. unfold uint32. apply Z.mod_small. lia. }
  split.
  - unfold networkHandler_newBlock.
    assert (Hcheck : (fbHeight chainUpdate =? uint32 (bestHeight r + 1))
                     = true).
    { apply Z.eqb_eq. rewrite <- Hnext. symmetry. rewrite Hnext at 2.
      exact Hwrap. }
    rewrite Hcheck. simpl.
    destruct (PruneGraph _ _ _ _) as [[closed g'] | e]; simpl;
      [destruct (length closed =? 0)%nat |]; simpl; exact Hwrap.
  - rewrite Hwrap. replace (bestHeight r + 1 - 1) with (bestHeight r) by lia.
    unfold uint32. apply Z.mod_small. lia.
Qed.

(** X29. One pass of [pruneZombieChans] collects a channel only if the
    graph holds a policy for both of its directions and none of its two
    nodes is the router's own, and only if both policies are at least
    [ChannelPruneExpiry] old or, with [AssumeChannelValid], both are
    disabled; it collects every channel of other nodes whose two
    policies are that old. Only the collected channels are handed to
    [DeleteChannelEdges], and a failure of the store leaves the graph as
    the last successful step left it. *)
Theorem pruneZombieChans_collects_dead_channels (r : ChannelRouter G)
    (now : Z) (selfNode : Vertex) (channels : list channel) :
  ForEachChannel (graph r) = Ok channels ->
  let doomed := chansToPrune (cfg r) now selfNode channels in
  (forall chanID, In chanID doomed ->
     exists info e1 e2,
       In (info, Some e1, Some e2) channels /\
       edgeChannelID info = chanID /\
       NodeKey1Bytes info <> selfNode /\ NodeKey2Bytes info <> selfNode /\
       (ChannelPruneExpiry (cfg r) <= Since now (LastUpdate e1) /\
        ChannelPruneExpiry (cfg r) <= Since now (LastUpdate e2) \/
        AssumeChannelValid (cfg r) = true /\
        IsDisabled e1 = true /\ IsDisabled e2 = true)) /\
  (forall info e1 e2,
     In (info, Some e1, Some e2) channels ->
     NodeKey1Bytes info <> selfNode -> NodeKey2Bytes info <> selfNode ->
     ChannelPruneExpiry (cfg r) <= Since now (LastUpdate e1) ->
     ChannelPruneExpiry (cfg r) <= Since now (LastUpdate e2) ->
     In (edgeChannelID info) doomed) /\
  match DeleteChannelEdges (graph r) doomed with
  | Err _ => exists e, pruneZombieChans r now selfNode = (Some e, graph r)
  | Ok g1 =>
    match PruneGraphNodes g1 with
    | Ok g2 => pruneZombieChans r now selfNode = (None, g2)
    | Err e =>
      (e = ErrGraphNodesNotFound /\
       pruneZombieChans r now selfNode = (None, g1)) \/
      (e <> ErrGraphNodesNotFound /\
       exists e', pruneZombieChans r now selfNode = (Some e', g1))
    end
  end.
Proof.
  intros Hchannels doomed. split; [| split].
  - intros chanID Hin. unfold doomed, chansToPrune in Hin.
    apply in_map_iff in Hin as ([[info e1] e2] & Hid & Hin).
    apply filter_In in Hin as [Hin Hfilter]. simpl in Hid.
    unfold filterPruneChans in Hfilter.
    destruct (bool_decide (NodeKey1Bytes info = selfNode)
              || bool_decide (NodeKey2Bytes info = selfNode)) eqn:Hself;
      [discriminate |].
    apply orb_false_iff in Hself as [Hk1 Hk2].
    apply bool_decide_eq_false in Hk1, Hk2.
    destruct e1 as [e1 |], e2 as [e2 |];
      try (destruct (AssumeChannelValid (cfg r)); simpl in Hfilter;
           rewrite ?andb_false_r in Hfilter; simpl in Hfilter;
           rewrite ?andb_false_r in Hfilter; discriminate).
    exists info, e1, e2. split; [exact Hin |]. split; [exact Hid |].
    split; [exact Hk1 |]. split; [exact Hk2 |].
    destruct ((ChannelPruneExpiry (cfg r) <=? Since now (LastUpdate e1))
              && (ChannelPruneExpiry (cfg r) <=? Since now (LastUpdate e2)))
      eqn:Hold.
    + left. apply andb_true_iff in Hold as [H1 H2].
      apply Z.leb_le in H1, H2. auto.
    + right. destruct (AssumeChannelValid (cfg r)); simpl in Hfilter;
        [| discriminate].
      apply andb_true_iff in Hfilter as [H1 H2]. auto.
  - intros info e1 e2 Hin Hk1 Hk2 Hold1 Hold2.
    unfold doomed, chansToPrune.
    apply in_map_iff. exists (info, Some e1, Some e2).
    split; [reflexivity |]. apply filter_In. split; [exact Hin |].
    unfold filterPruneChans.
    rewrite (bool_decide_eq_false_2 _ Hk1), (bool_decide_eq_false_2 _ Hk2).
    simpl. apply Z.leb_le in Hold1, Hold2. rewrite Hold1, Hold2. simpl.
    rewrite andb_false_r. reflexivity.
  - unfold pruneZombieChans. rewrite Hchannels. fold doomed.
    destruct (DeleteChannelEdges (graph r) doomed) as [g1 | e]; [| eauto].
    destruct (PruneGraphNodes g1) as [g2 | e]; [reflexivity |].
    destruct (decide (e = ErrGraphNodesNotFound)) as [-> | Hne].
    + left. rewrite bool_decide_eq_true_2 by reflexivity. auto.
    + right. rewrite bool_decide_eq_false_2 by exact Hne. eauto.
Qed.

End GraphProps.

End RouterGraphProps.

(* ===================================================================== *)
(** * Properties of the router: synchronising the graph with the chain *)
(* ===================================================================== *)

Module ChainSyncProps.
Import Routing RouterGraph ChainSync.

Lemma IsEqual_same (h : Hash) : IsEqual (Some h) (Some h) = true.
Proof. simpl. apply Z.eqb_refl. Qed.

Section SyncProps.
Context {G : Type} `{GraphStore G} `{ChannelGraph G}.
Variable GetBestBlock : result (Hash * Z).
Variable chain : BlockChainIO.
Variable FilterBlock : Hash -> result FilteredBlock.
Variable quitAt : Z -> bool.

(** A graph whose prune tip is the best block is left alone. *)
Lemma syncGraphWithChain_in_sync (fuel : nat) (r : ChannelRouter G)
    (bestHash : Hash) (best : Z) :
  GetBestBlock = Ok (bestHash, best) ->
  PruneTip (graph r) = (Some bestHash, uint32 best, None) ->
  syncGraphWithChain GetBestBlock chain FilterBlock quitAt fuel r
  = Finished (None, {| bestHeight := uint32 best; cfg := cfg r;
                       graph := graph r |}).
Proof.
  intros Hbest Htip. unfold syncGraphWithChain. rewrite Hbest, Htip.
  rewrite IsEqual_same, Z.eqb_refl. simpl.
  destruct (uint32 best =? 0); reflexivity.
Qed.

(** The forward loop on a chain that answers, with a store that prunes:
    it ends after one pruning for each height that is left, and the
    prune tip is then the best block. *)
Lemma walkForward_catches_up (bestHash : Hash) (best low : Z) :
  0 <= low ->
  0 <= best < 2 ^ 31 ->
  GetBlockHash chain best = Ok bestHash ->
  (forall h, low < h <= best ->
     exists hash blk, GetBlockHash chain h = Ok hash /\
                      FilterBlock hash = Ok blk) ->
  (forall h, low < h <= best -> quitAt h = false) ->
  (forall (g : G) spent hash h,
     exists closed g', PruneGraph g spent hash h = Ok (closed, g') /\
                       PruneTip g' = (Some hash, h, None)) ->
  forall (n fuel : nat) (g : G) (next : Z),
  (n <= fuel)%nat -> next + Z.of_nat n = best + 1 -> low < next ->
  exists g',
    walkForward chain FilterBlock quitAt fuel g next best
    = Finished (None, g') /\
    (n = 0%nat -> g' = g) /\
    ((0 < n)%nat -> PruneTip g' = (Some bestHash, best, None)).
Proof.
  intros Hlow0 Hrange Htop Hblocks Hquit Hprune.
  induction n as [| m IH]; intros fuel g next Hfuel Hnext Hlow.
  - exists g.
    assert (Hdone : (best <? next) = true) by (apply Z.ltb_lt; lia).
    split; [| split; [reflexivity | lia]].
    destruct fuel; simpl; rewrite Hdone; reflexivity.
  - destruct fuel as [| fuel']; [lia |].
    assert (Hgo : (best <? next) = false) by (apply Z.ltb_ge; lia).
    simpl. rewrite Hgo.
    assert (Hin : low < next <= best) by lia.
    rewrite (Hquit next Hin).
    destruct (Hblocks next Hin) as (hash & blk & Hhash & Hblk).
    rewrite Hhash, Hblk.
    destruct (Hprune g (spentOutputs blk) hash next)
      as (closed & g1 & -> & Htip1).
    assert (Hstep : uint32 (next + 1) = next + 1)
      by (unfold uint32; apply Z.mod_small; lia).
    rewrite Hstep.
    assert (Hfuel' : (m <= fuel')%nat) by lia.
    assert (Hnext' : next + 1 + Z.of_nat m = best + 1) by lia.
    assert (Hlow' : low < next + 1) by lia.
    destruct (IH fuel' g1 (next + 1) Hfuel' Hnext' Hlow')
      as (g' & Hrun & Hzero & Hpos).
    exists g'. split; [exact Hrun |]. split; [lia |]. intros _.
    destruct m as [| m'].
    + rewrite (Hzero eq_refl), Htip1.
      assert (next = best) by lia. subst next.
      assert (Ok hash = Ok bestHash) as [= ->]; [| reflexivity].
      congruence.
    + apply Hpos. lia.
Qed.

(** X30. When the graph's prune tip lies on the main chain at or below
    the best block, the chain and the chain view answer for every height
    above the tip, no shutdown is requested and the store prunes,
    [syncGraphWithChain] ends, given fuel for the blocks that are
    missing, without an error: the best height is the chain's, the prune
    tip is the best block, and a further run changes nothing. *)
Theorem syncGraphWithChain_catches_up (r : ChannelRouter G)
    (bestHash pruneHash : Hash) (best pruneHeight : Z) (fuel : nat) :
  GetBestBlock = Ok (bestHash, best) ->
  0 <= best < 2 ^ 31 ->
  GetBlockHash chain best = Ok bestHash ->
  PruneTip (graph r) = (Some pruneHash, pruneHeight, None) ->
  0 < pruneHeight <= best ->
  GetBlockHash chain pruneHeight = Ok pruneHash ->
  (forall h, pruneHeight < h <= best ->
     exists hash blk, GetBlockHash chain h = Ok hash /\
                      FilterBlock hash = Ok blk) ->
  (forall h, pruneHeight < h <= best -> quitAt h = false) ->
  (forall (g : G) spent hash h,
     exists closed g', PruneGraph g spent hash h = Ok (closed, g') /\
                       PruneTip g' = (Some hash, h, None)) ->
  (Z.to_nat (best - pruneHeight) <= fuel)%nat ->
  exists r',
    syncGraphWithChain GetBestBlock chain FilterBlock quitAt fuel r
    = Finished (None, r') /\
    bestHeight r' = best /\ cfg r' = cfg r /\
    PruneTip (graph r') = (Some bestHash, best, None) /\
    forall fuel',
      syncGraphWithChain GetBestBlock chain FilterBlock quitAt fuel' r'
      = Finished (None, r').
Proof.
  intros Hbest Hrange Htop Htip Hheight Hmain Hblocks Hquit Hprune Hfuel.
  assert (Hu : uint32 best = best)
    by (unfold uint32; apply Z.mod_small; lia).
  assert (Hagain : forall g' : G,
            PruneTip g' = (Some bestHash, best, None) ->
            forall fuel',
              syncGraphWithChain GetBestBlock chain FilterBlock quitAt fuel'
                {| bestHeight := best; cfg := cfg r; graph := g' |}
              = Finished (None, {| bestHeight := best; cfg := cfg r;
                                   graph := g' |})).
  { intros g' Htip' fuel'.
    rewrite (syncGraphWithChain_in_sync fuel' _ bestHash best Hbest);
      simpl; rewrite Hu; [reflexivity | exact Htip']. }
  assert (Hrun : exists g' : G,
            syncGraphWithChain GetBestBlock chain FilterBlock quitAt fuel r
            = Finished (None, {| bestHeight := best; cfg := cfg r;
                                 graph := g' |}) /\
            PruneTip g' = (Some bestHash, best, None)).
  { unfold syncGraphWithChain. rewrite Hbest, Htip, Hu. simpl.
    assert (Hnz : (pruneHeight =? 0) = false) by (apply Z.eqb_neq; lia).
    rewrite Hnz. simpl.
    destruct ((bestHash =? pruneHash) && (best =? pruneHeight)) eqn:Hsync.
    - apply andb_true_iff in Hsync as [Hh Hb].
      apply Z.eqb_eq in Hh, Hb. subst pruneHash pruneHeight.
      exists (graph r). split; [reflexivity | exact Htip].
    - rewrite Hmain.
      assert (Hback : walkBack chain fuel (graph r) (Some pruneHash)
                        pruneHeight pruneHash
                      = Finished (inr (graph r, pruneHeight))).
      { destruct fuel; simpl; rewrite Z.eqb_refl; reflexivity. }
      rewrite Hback.
      assert (Hlt : pruneHeight < best).
      { destruct (Z.eq_dec pruneHeight best) as [-> | Hne]; [| lia].
        assert (pruneHash = bestHash) by congruence. subst pruneHash.
        rewrite !Z.eqb_refl in Hsync. discriminate. }
      assert (Hstart : uint32 (pruneHeight + 1) = pruneHeight + 1)
        by (unfold uint32; apply Z.mod_small; lia).
      rewrite Hstart.
      assert (Hlow0 : 0 <= pruneHeight) by lia.
      assert (Hnext : pruneHeight + 1
                      + Z.of_nat (Z.to_nat (best - pruneHeight)) = best + 1)
        by lia.
      assert (Hlow : pruneHeight < pruneHeight + 1) by lia.
      destruct (walkForward_catches_up bestHash best pruneHeight
                  Hlow0 Hrange Htop Hblocks Hquit Hprune
                  (Z.to_nat (best - pruneHeight)) fuel (graph r)
                  (pruneHeight + 1) Hfuel Hnext Hlow)
        as (g' & Hforward & _ & Hpos).
      rewrite Hforward. exists g'. split; [reflexivity |].
      apply Hpos. lia. }
  destruct Hrun as (g' & Hrun & Htip').
  exists {| bestHeight := best; cfg := cfg r; graph := g' |}.
  split; [exact Hrun |]. split; [reflexivity |]. split; [reflexivity |].
  split; [exact Htip' |]. apply Hagain. exact Htip'.
Qed.

End SyncProps.

End ChainSyncProps.

(* ===================================================================== *)
(** * The properties of the router on the in-memory graph *)
(* ===================================================================== *)

Module RouterExamples.
Import Routing RouterGraph PaymentErrors ChainSync RoutingRuns
       RouterGraphRuns.

(** Channel 7 is known to the sample router: announcing it again is
    answered with an error. *)
Lemma known_edge_is_not_added_again_witness :
  exists e,
    processUpdate_edge sampleTxHash concatKeys scriptHash unspent
      acceptFilter sampleRouter twoOutputChain edge7
    = Returns (Some e, graph sampleRouter, []).
Proof.
  apply (RouterGraphProps.known_edge_is_not_added_again sampleTxHash
           concatKeys scriptHash unspent acceptFilter sampleRouter
           twoOutputChain chan7 edge7).
  - reflexivity.
  - vm_compute. reflexivity.
Defined.

Lemma edge1_announcement_returns :
  CollectorRuns.returned
    (processUpdate_edge sampleTxHash concatKeys scriptHash unspent
       acceptFilter sampleRouter twoOutputChain edge1) = true.
Proof. vm_compute. reflexivity. Qed.

(** Channel 1 is announced with a capacity of 1 and a made-up outpoint;
    what is stored comes from the chain. *)
Lemma accepted_edge_is_funded_witness :
  match processUpdate_edge sampleTxHash concatKeys scriptHash unspent
          acceptFilter sampleRouter twoOutputChain edge1 with
  | Returns (err, g', calls) =>
    (err <> None /\ g' = graph sampleRouter /\ calls = []) \/
    exists fundingPoint chanUtxo,
      unspent fundingPoint (PkScript chanUtxo) 0 = Ok chanUtxo /\
      AddChannelEdge (graph sampleRouter)
        (withPoint edge1 (Value chanUtxo) fundingPoint) = Ok g'
  | Panics _ => False
  end.
Proof.
  pose proof edge1_announcement_returns as Hret.
  destruct (processUpdate_edge _ _ _ _ _ _ _ _)
    as [[[err g'] calls] | why] eqn:Hrun; [| discriminate].
  destruct (RouterGraphProps.accepted_edge_is_funded sampleTxHash concatKeys
              scriptHash unspent acceptFilter sampleRouter twoOutputChain
              edge1 err g' calls eq_refl Hrun)
    as [Hrejected | (fundingPoint & fundingOut & witnessScript & chanUtxo
                     & _ & _ & _ & Hutxo & Hadd & _)].
  - left. exact Hrejected.
  - right. exists fundingPoint, chanUtxo. split; [exact Hutxo | exact Hadd].
Defined.

(** Fourteen days after the younger policy of channel 7 was announced,
    a pass of a router that is not one of its nodes collects it. *)
Lemma pruneZombieChans_collects_dead_channels_witness :
  In 7 (chansToPrune defaultConfig
          (DefaultChannelPruneExpiry + 200 * 10 ^ 9) carol
          [ (edge7, Some (policyAt 7 (100 * 10 ^ 9) 0),
             Some (policyAt 7 (200 * 10 ^ 9) 1)) ]).
Proof.
  assert (Hchannels :
            ForEachChannel (graph sampleRouter)
            = Ok [ (edge7, Some (policyAt 7 (100 * 10 ^ 9) 0),
                    Some (policyAt 7 (200 * 10 ^ 9) 1)) ])
    by (vm_compute; reflexivity).
  destruct (RouterGraphProps.pruneZombieChans_collects_dead_channels
              sampleRouter (DefaultChannelPruneExpiry + 200 * 10 ^ 9) carol
              _ Hchannels)
    as (_ & Hcollected & _).
  apply (Hcollected edge7 (policyAt 7 (100 * 10 ^ 9) 0)
           (policyAt 7 (200 * 10 ^ 9) 1)).
  - left. reflexivity.
  - discriminate.
  - discriminate.
  - unfold Since. simpl. lia.
  - unfold Since. simpl. lia.
Defined.

(** The sample router, pruned up to block 100 of a chain of 102 blocks,
    catches up in two steps. *)
Lemma syncGraphWithChain_catches_up_witness :
  exists r',
    syncGraphWithChain bestBlock102 oneTxChain plainBlock neverQuit 2
      sampleRouter = Finished (None, r') /\
    bestHeight r' = 102 /\ cfg r' = cfg sampleRouter /\
    PruneTip (graph r') = (Some 1102, 102, None) /\
    forall fuel',
      syncGraphWithChain bestBlock102 oneTxChain plainBlock neverQuit fuel'
        r' = Finished (None, r').
Proof.
  apply (ChainSyncProps.syncGraphWithChain_catches_up bestBlock102
           oneTxChain plainBlock neverQuit sampleRouter 1102 1100 102 100 2).
  - reflexivity.
  - lia.
  - reflexivity.
  - reflexivity.
  - lia.
  - reflexivity.
  - intros h _. eexists _, _. split; reflexivity.
  - reflexivity.
  - intros g spent hash h. eexists _, _. split; reflexivity.
  - simpl. lia.
Defined.

(** In the graph with channel 7 live, node1's policy carrying timestamp
    100: an update of that direction with timestamp 100 is stale, and
    so is one with timestamp 50. *)
Lemma IsStaleEdgePolicy_monotone_witness :
  IsStaleEdgePolicy (routerOn liveGraph) 1000 chan7 50 0 = true.
Proof.
  apply (RouterGraphProps.IsStaleEdgePolicy_monotone (routerOn liveGraph)
           1000 chan7 100 50 0).
  - lia.
  - vm_compute. reflexivity.
Defined.

End RouterExamples.
